(** * Review scoring and reward aggregation: a shallow embedding

    This development embeds the scoring engine of
    [template/validator/llm_scorer.py] (class [LLMReviewScorer] and the
    entry point [score_reviews_grouped]) and proves the properties its
    design document states about it.

    Modelling conventions.
    - Python [float] arithmetic is idealised as arithmetic on the reals
      ([R]); a finite float is the real it denotes, and the non-finite
      floats that [json.loads] and [float()] can produce ([nan], [inf],
      [-inf]) are kept as separate values.  [np.exp] is [exp].
    - A Python [dict] with string keys is a [gmap string _]; the dict that
      remembers insertion order ([reviews_by_paper]) is an association
      list.
    - [str] is [string] (a sequence of bytes; text is ASCII).
    - Exceptions are values of type [exn]; a computation that can raise
      returns an [outcome].
    - The oracle (the chat-completion client followed by [json.loads]) is a
      function of the number of calls made so far and of the prompt, so
      that two calls with the same prompt may answer differently.
    - The cache directory is a finite map from file stem (the hex digest)
      to the verdict stored in that file.

    What the embedding leaves out.
    - Rounding: every statement about numbers is about the reals.
    - Text outside ASCII: [float()] also reads the decimal digits and the
      white space of other scripts, and [s[:n]] counts code points.
    - Arithmetic on [nan] and [inf]: [to_real] raises on them.  Every
      number the aggregator stores is finite, so none reaches arithmetic
      unless a cache file was written by other means.
    - Failures of the file system, and what was written to the cache
      before the entry point raised.
    - Inputs outside the types above.  A text with a lone surrogate makes
      [content.encode()] in [_cache_key] raise [UnicodeEncodeError], and a
      title or abstract of the metadata that is not a string (JSON null,
      a number) makes [paper_abstract[:1000]] raise [TypeError]; both
      happen outside the [try] of [score_review] and leave the entry
      point.  Strings here are byte sequences and the metadata holds
      strings or nothing, so the model has no such run.  That the model
      returns on every list that is not empty, given a cache of verdicts
      in range ([score_reviews_grouped_total]), is therefore used only to
      exhibit runs on given inputs; what is stated of the program is what
      holds when a run returns.
    - Underflow: [np.exp(-0.5 * rank)] is 0.0 from rank 1491 on and small
      products vanish earlier, while [exp] on the reals is never 0.  The
      theorems about rewards conclude no strict inequality between
      computed numbers. *)

From Stdlib Require Import Reals Lra Lia ZArith NArith String Ascii List Permutation.
From stdpp Require Import gmap strings list fin_maps sorting.
Import ListNotations.

Module SHA256.
Local Open Scope N_scope.

Definition w32 (x : N) : N := x mod 4294967296.
Definition add32 (x y : N) : N := w32 (x + y).
Definition rotr (n x : N) : N :=
  N.lor (N.shiftr x n) (w32 (N.shiftl x (32 - n))).
Definition not32 (x : N) : N := N.lxor x 4294967295.

Definition Ch (x y z : N) := N.lxor (N.land x y) (N.land (not32 x) z).
Definition Maj (x y z : N) :=
  N.lxor (N.lxor (N.land x y) (N.land x z)) (N.land y z).
Definition Sigma0 x := N.lxor (N.lxor (rotr 2 x) (rotr 13 x)) (rotr 22 x).
Definition Sigma1 x := N.lxor (N.lxor (rotr 6 x) (rotr 11 x)) (rotr 25 x).
Definition sigma0 x := N.lxor (N.lxor (rotr 7 x) (rotr 18 x)) (N.shiftr x 3).
Definition sigma1 x := N.lxor (N.lxor (rotr 17 x) (rotr 19 x)) (N.shiftr x 10).

Definition K : list N :=
  [ 1116352408; 1899447441; 3049323471; 3921009573; 961987163; 1508970993;
    2453635748; 2870763221; 3624381080; 310598401; 607225278; 1426881987;
    1925078388; 2162078206; 2614888103; 3248222580; 3835390401; 4022224774;
    264347078; 604807628; 770255983; 1249150122; 1555081692; 1996064986;
    2554220882; 2821834349; 2952996808; 3210313671; 3336571891; 3584528711;
    113926993; 338241895; 666307205; 773529912; 1294757372; 1396182291;
    1695183700; 1986661051; 2177026350; 2456956037; 2730485921; 2820302411;
    3259730800; 3345764771; 3516065817; 3600352804; 4094571909; 275423344;
    430227734; 506948616; 659060556; 883997877; 958139571; 1322822218;
    1537002063; 1747873779; 1955562222; 2024104815; 2227730452; 2361852424;
    2428436474; 2756734187; 3204031479; 3329325298 ].

Definition H0 : list N :=
  [ 1779033703; 3144134277; 1013904242; 2773480762;
    1359893119; 2600822924; 528734635; 1541459225 ].

(* big-endian bytes of x, n of them *)
Fixpoint be_bytes (n : nat) (x : N) : list N :=
  match n with
  | O => []
  | S n' => be_bytes n' (x / 256) ++ [x mod 256]
  end.

Definition pad (msg : list N) : list N :=
  let len := N.of_nat (length msg) in
  let zeros := N.to_nat ((119 - len mod 64) mod 64) in
  msg ++ [128] ++ repeat 0 zeros ++ be_bytes 8 (8 * len).

Fixpoint words (n : nat) (bs : list N) : list N :=
  match n, bs with
  | S n', b0 :: b1 :: b2 :: b3 :: rest =>
      (b0 * 16777216 + b1 * 65536 + b2 * 256 + b3) :: words n' rest
  | _, _ => []
  end.

(* the message schedule, most recent word first *)
Fixpoint schedule (n : nat) (rev_w : list N) : list N :=
  match n with
  | O => rev_w
  | S n' =>
      let w2 := nth 1 rev_w 0 in
      let w7 := nth 6 rev_w 0 in
      let w15 := nth 14 rev_w 0 in
      let w16 := nth 15 rev_w 0 in
      schedule n'
        (add32 (add32 (sigma1 w2) w7) (add32 (sigma0 w15) w16) :: rev_w)
  end.

Definition round (st : list N) (kw : N * N) : list N :=
  match st with
  | [a; b; c; d; e; f; g; h] =>
      let t1 := add32 (add32 (add32 h (Sigma1 e)) (add32 (Ch e f g) (fst kw))) (snd kw) in
      let t2 := add32 (Sigma0 a) (Maj a b c) in
      [add32 t1 t2; a; b; c; add32 d t1; e; f; g]
  | _ => st
  end.

Definition compress (h : list N) (block : list N) : list N :=
  let w := rev (schedule 48 (rev (words 16 block))) in
  let st := fold_left round (combine K w) h in
  map (fun p => add32 (fst p) (snd p)) (combine h st).

Fixpoint blocks (n : nat) (bs : list N) (h : list N) : list N :=
  match n with
  | O => h
  | S n' => blocks n' (skipn 64 bs) (compress h (firstn 64 bs))
  end.

Definition digest (msg : list N) : list N :=
  let p := pad msg in
  flat_map (be_bytes 4) (blocks (length p / 64)%nat p H0).

Definition hex_digit (n : N) : ascii :=
  ascii_of_N (if n <? 10 then 48 + n else 87 + n).

Fixpoint hex (bs : list N) : string :=
  match bs with
  | [] => EmptyString
  | b :: rest => String (hex_digit (b / 16)) (String (hex_digit (b mod 16)) (hex rest))
  end.

Definition bytes_of (s : string) : list N := map N_of_ascii (list_ascii_of_string s).

Definition hexdigest (s : string) : string := hex (digest (bytes_of s)).
End SHA256.

(** ** Python values *)

Inductive pyfloat :=
| FFin (x : R)            (* a finite float *)
| FNaN
| FInf (neg : bool).      (* inf, or -inf when [neg] *)

(** The values a parsed JSON document is made of.  Lists and nested
    objects are opaque: the scorer only ever passes them to [float()]. *)
Inductive pyval :=
| VNone
| VBool (b : bool)
| VInt (z : Z)
| VFloat (f : pyfloat)
| VStr (s : string)
| VList
| VDict.

Abbreviation dict := (gmap string pyval).

Inductive exn :=
| OracleError (msg : string)       (* the awaited client call raised *)
| JSONDecodeError (msg : string)   (* json.loads rejected the content *)
| TypeError (msg : string)
| ValueError (msg : string)
| OverflowError (msg : string)
| KeyError (key : string)
| IndexError (msg : string).

(** [str(e)] *)
Definition exn_str (e : exn) : string :=
  match e with
  | OracleError m | JSONDecodeError m | TypeError m | ValueError m
  | OverflowError m | IndexError m => m
  | KeyError k => "'" ++ k ++ "'"
  end.

Inductive outcome (A : Type) :=
| Ok (a : A)
| Raise (e : exn).
Arguments Ok {A} a.
Arguments Raise {A} e.

#[global] Instance result_ret : MRet outcome := fun A a => Ok a.
#[global] Instance result_bind : MBind outcome := fun A B k m =>
  match m with
  | Ok a => k a
  | Raise e => Raise e
  end.

Fixpoint foldM {A B} (f : A -> B -> outcome A) (a : A) (l : list B) : outcome A :=
  match l with
  | [] => Ok a
  | b :: l' => a' ← f a b; foldM f a' l'
  end.

#[global] Instance Rlt_decision (x y : R) : Decision (x < y)%R := Rlt_dec x y.
#[global] Instance Rle_decision (x y : R) : Decision (x <= y)%R := Rle_dec x y.

(** *** [float(s)] for a string

    Surrounding whitespace is stripped; then an optional sign, and either
    [inf], [infinity] or [nan] in any case, or a decimal literal with
    optional fraction and exponent whose digit groups may be separated by
    single underscores. *)

Definition is_space (c : ascii) : bool :=
  let n := nat_of_ascii c in
  ((9 <=? n) && (n <=? 13) || (n =? 32))%nat.

Fixpoint lstrip (cs : list ascii) : list ascii :=
  match cs with
  | c :: cs' => if is_space c then lstrip cs' else cs
  | [] => []
  end.

Definition strip (cs : list ascii) : list ascii :=
  rev (lstrip (rev (lstrip cs))).

Definition digit_of (c : ascii) : option Z :=
  let n := nat_of_ascii c in
  if ((48 <=? n) && (n <=? 57))%nat then Some (Z.of_nat n - 48)%Z else None.

Definition lower (c : ascii) : ascii :=
  let n := nat_of_ascii c in
  if ((65 <=? n) && (n <=? 90))%nat then ascii_of_nat (n + 32) else c.

(** digit (["_"] digit)*, read greedily; the digits and the rest *)
Fixpoint digitpart (cs : list ascii) : list Z * list ascii :=
  match cs with
  | c :: rest =>
      match digit_of c with
      | Some d =>
          match rest with
          | "_"%char :: rest' =>
              match rest' with
              | c2 :: _ =>
                  match digit_of c2 with
                  | Some _ => let '(ds, r) := digitpart rest' in (d :: ds, r)
                  | None => ([d], rest)
                  end
              | [] => ([d], rest)
              end
          | _ => let '(ds, r) := digitpart rest in (d :: ds, r)
          end
      | None => ([], cs)
      end
  | [] => ([], [])
  end.

Definition digits_val (ds : list Z) : Z :=
  fold_left (fun acc d => (10 * acc + d)%Z) ds 0%Z.

Definition split_sign (cs : list ascii) : bool * list ascii :=
  match cs with
  | "+"%char :: r => (false, r)
  | "-"%char :: r => (true, r)
  | _ => (false, cs)
  end.

(** exponent part: absent, or [e] / [E], optional sign, digits, end *)
Definition exponent (cs : list ascii) : option Z :=
  match cs with
  | [] => Some 0%Z
  | c :: r =>
      if Ascii.eqb (lower c) "e"
      then let '(neg, r') := split_sign r in
           match digitpart r' with
           | ((_ :: _) as ds, []) =>
               Some (if neg : bool then - digits_val ds else digits_val ds)%Z
           | _ => None
           end
      else None
  end.

Definition decimal (cs : list ascii) : option R :=
  let '(ip, r1) := digitpart cs in
  let body :=
    match r1 with
    | "."%char :: r2 =>
        let '(fp, r3) := digitpart r2 in
        match ip, fp with
        | [], [] => None
        | _, _ => Some (ip, fp, r3)
        end
    | _ => match ip with [] => None | _ => Some (ip, [], r1) end
    end in
  match body with
  | Some (ip, fp, r) =>
      match exponent r with
      | Some e =>
          Some (IZR (digits_val (ip ++ fp))
                * powerRZ 10 (e - Z.of_nat (length fp)))%R
      | None => None
      end
  | None => None
  end.

Definition float_of_string (s : string) : option pyfloat :=
  let '(neg, body) := split_sign (strip (list_ascii_of_string s)) in
  let word := string_of_list_ascii (map lower body) in
  if bool_decide (word = "inf" \/ word = "infinity") then Some (FInf neg)
  else if bool_decide (word = "nan") then Some FNaN
  else match decimal body with
       | Some x => Some (FFin (if neg then - x else x)%R)
       | None => None
       end.

(** an [int] converts to a float unless it rounds to 2^1024 or beyond *)
Definition float_int_bound : Z := (2 ^ 1024 - 2 ^ 970)%Z.

Definition fits_float (z : Z) : bool :=
  bool_decide (Z.abs z < float_int_bound)%Z.

(** [float(v)] *)
Definition py_float (v : pyval) : outcome pyfloat :=
  match v with
  | VNone =>
      Raise (TypeError "float() argument must be a string or a real number, not 'NoneType'")
  | VList =>
      Raise (TypeError "float() argument must be a string or a real number, not 'list'")
  | VDict =>
      Raise (TypeError "float() argument must be a string or a real number, not 'dict'")
  | VBool b => Ok (FFin (if b then 1 else 0)%R)
  | VInt z =>
      if fits_float z then Ok (FFin (IZR z))
      else Raise (OverflowError "int too large to convert to float")
  | VFloat f => Ok f
  | VStr s =>
      match float_of_string s with
      | Some f => Ok f
      | None => Raise (ValueError ("could not convert string to float: '" ++ s ++ "'"))
      end
  end.

(** The number a value stands for in a comparison; only numbers are ever
    compared. *)
Definition num_view (v : pyval) : pyfloat :=
  match v with
  | VInt z => FFin (IZR z)
  | VFloat f => f
  | VBool b => FFin (if b then 1 else 0)%R
  | _ => FNaN
  end.

Definition flt_lt (a b : pyfloat) : bool :=
  match a, b with
  | FNaN, _ | _, FNaN => false
  | FInf na, FInf nb => na && negb nb
  | FInf na, FFin _ => na
  | FFin _, FInf nb => negb nb
  | FFin x, FFin y => bool_decide (x < y)%R
  end.

Definition py_lt (a b : pyval) : bool := flt_lt (num_view a) (num_view b).

(** [min(a, b)] is [a] unless [b < a]; [max(a, b)] is [a] unless [b > a]. *)
Definition py_min (a b : pyval) : pyval := if py_lt b a then b else a.
Definition py_max (a b : pyval) : pyval := if py_lt a b then b else a.

(** The real a finite number stands for in arithmetic; an [int] takes
    part in float arithmetic through [float()]. *)
Definition real_of (v : pyval) : option R :=
  match v with
  | VInt z => if fits_float z then Some (IZR z) else None
  | VFloat (FFin x) => Some x
  | VBool b => Some (if b then 1 else 0)%R
  | _ => None
  end.

(** ** The rubric *)

Definition CRITERIA : list string :=
  [ "comprehension"; "technical_depth"; "specificity";
    "constructiveness"; "evidence_based"; "professionalism" ].

Definition CRITERIA_WEIGHTS : gmap string R :=
  list_to_map
    [ ("comprehension", 0.20%R); ("technical_depth", 0.25%R);
      ("specificity", 0.20%R); ("constructiveness", 0.15%R);
      ("evidence_based", 0.15%R); ("professionalism", 0.05%R) ].

(** [d[k]] *)
Definition getitem {V} (d : gmap string V) (k : string) : outcome V :=
  match d !! k with
  | Some v => Ok v
  | None => Raise (KeyError k)
  end.

(** Arithmetic is modelled on finite numbers; anything else raises. *)
Definition to_real (v : pyval) : outcome R :=
  match real_of v with
  | Some x => Ok x
  | None => Raise (TypeError "unsupported operand type(s)")
  end.

(** ** The score aggregator: [LLMReviewScorer._validate_and_aggregate] *)

(** One iteration of the loop over [CRITERIA]. *)
Definition validate_criterion (result : dict) (criterion : string) : outcome dict :=
  match result !! criterion with
  | None => Ok (<[criterion := VInt 0]> result)
  | Some v =>
      f ← py_float v;
      Ok (<[criterion := py_max (VInt 0) (py_min (VInt 5) (VFloat f))]> result)
  end.

Definition validate_confidence (result : dict) : outcome dict :=
  match result !! "confidence" with
  | None => Ok (<["confidence" := VFloat (FFin 0.5)]> result)
  | Some v =>
      f ← py_float v;
      Ok (<["confidence" :=
              py_max (VFloat (FFin 0.0)) (py_min (VFloat (FFin 1.0)) (VFloat f))]> result)
  end.

(** [result[criterion] * CRITERIA_WEIGHTS[criterion] * 20] *)
Definition weighted (result : dict) (criterion : string) : outcome R :=
  v ← getitem result criterion;
  w ← getitem CRITERIA_WEIGHTS criterion;
  x ← to_real v;
  Ok (x * w * 20)%R.

(** [sum(...)]: left to right, from 0 *)
Definition py_sum (xs : list R) : R := fold_left Rplus xs 0%R.

Definition _validate_and_aggregate (result : dict) : outcome dict :=
  result ← foldM validate_criterion result CRITERIA;
  result ← validate_confidence result;
  terms ← mapM (weighted result) CRITERIA;
  Ok (<["aggregate_score" := VFloat (FFin (py_sum terms))]> result).

(** ** The scorer, its cache and the oracle *)

(** [client n prompt]: what the [n]-th oracle request (counting from 0)
    yields when sent [prompt]: the dict that [json.loads] makes of the
    reply, or the exception that the call or the parsing raises. *)
Record LLMReviewScorer := {
  model : string;
  client : nat -> string -> outcome dict;
}.

(** The cache directory and the requests sent so far, most recent first. *)
Record world := {
  cache : gmap string dict;
  calls : list string;
}.

Definition _cache_key (self : LLMReviewScorer) (paper_abstract review_text : string)
  : string :=
  SHA256.hexdigest (model self ++ "|" ++ paper_abstract ++ "|" ++ review_text).

Arguments _cache_key : simpl never.

Definition _get_cached (w : world) (cache_key : string) : option dict :=
  cache w !! cache_key.

Definition _save_cache (w : world) (cache_key : string) (score_data : dict) : world :=
  {| cache := <[cache_key := score_data]> (cache w); calls := calls w |}.

Definition nl : string := String (ascii_of_nat 10) "".

(** [s[:n]] *)
Definition str_prefix (n : nat) (s : string) : string := substring 0 n s.

Definition user_prompt (paper_abstract review_text : string) : string :=
  "Paper Abstract:" ++ nl ++ str_prefix 1000 paper_abstract ++ nl ++ nl
  ++ "Review to Evaluate:" ++ nl ++ str_prefix 3000 review_text ++ nl ++ nl
  ++ "Evaluate this review using the rubric.".

(** [a | b] on dicts: the entries of [b] win *)
Definition dict_or (a b : dict) : dict := b ∪ a.

(** The verdict the [except] branch returns. *)
Definition error_verdict (e : exn) : dict :=
  dict_or
    (list_to_map ((fun c => (c, VInt 0)) <$> CRITERIA))
    (list_to_map
       [ ("justification", VStr ("Error during scoring: " ++ exn_str e));
         ("confidence", VFloat (FFin 0.0));
         ("aggregate_score", VFloat (FFin 0.0));
         ("error", VStr (exn_str e)) ]).

(** Sending one request: the reply depends on how many were sent before. *)
Definition call_oracle (self : LLMReviewScorer) (prompt : string) (w : world)
  : outcome dict * world :=
  (client self (length (calls w)) prompt,
   {| cache := cache w; calls := prompt :: calls w |}).

Definition score_review (self : LLMReviewScorer)
    (paper_abstract review_text : string) (use_cache : bool) (w : world)
  : dict * world :=
  let cache_key := _cache_key self paper_abstract review_text in
  match (if use_cache then _get_cached w cache_key else None) with
  | Some cached => (cached, w)
  | None =>
      let '(reply, w1) :=
        call_oracle self (user_prompt paper_abstract review_text) w in
      match (result ← reply; _validate_and_aggregate result) with
      | Ok score_data =>
          (score_data,
           if use_cache then _save_cache w1 cache_key score_data else w1)
      | Raise e => (error_verdict e, w1)
      end
  end.

(** An entry of a group: [{"miner_uid": i, "review_text": ..., "synapse":
    responses[i]}]; the synapse is referred to by its index. *)
Record review := {
  miner_uid : nat;
  entry_text : option string;
}.

(** The verdict of a review without text. *)
Definition empty_verdict : dict :=
  list_to_map
    [ ("aggregate_score", VFloat (FFin 0.0));
      ("confidence", VFloat (FFin 0.0));
      ("error", VStr "Empty review") ].

(** [not review_text] *)
Definition no_text (t : option string) : bool :=
  match t with
  | None => true
  | Some s => bool_decide (s = "")
  end.

Fixpoint score_reviews_for_paper (self : LLMReviewScorer) (paper_abstract : string)
    (reviews : list review) (w : world) : list dict * world :=
  match reviews with
  | [] => ([], w)
  | rv :: rest =>
      if no_text (entry_text rv)
      then
        let '(scores, w') := score_reviews_for_paper self paper_abstract rest w in
        (empty_verdict :: scores, w')
      else
        let '(score, w1) :=
          score_review self paper_abstract (default "" (entry_text rv)) true w in
        let '(scores, w') := score_reviews_for_paper self paper_abstract rest w1 in
        (score :: scores, w')
  end.

(** ** The entry point: [score_reviews_grouped] *)

(** A [ReviewSubmission] synapse (template/protocol.py), with the fields
    the scorer reads and writes. *)
Record ReviewSubmission := {
  paper_id : option string;
  review_text : option string;
  review_score : option dict;
  final_score : option R;
}.

(** An entry of [paper_metadata.json]. *)
Record paper_info := {
  abstract : option string;
  title : option string;
}.

(** Lines 240-245: the context a group is scored against. *)
Definition paper_context (paper_metadata : gmap string paper_info) (pid : string)
  : string :=
  let info := default {| abstract := None; title := None |} (paper_metadata !! pid) in
  let abstract := default "" (abstract info) in
  if bool_decide (abstract = "")
  then default "Unknown paper" (title info)
  else abstract.

(** [enumerate(l)] *)
Definition enumerate {A} (l : list A) : list (nat * A) :=
  combine (seq 0 (length l)) l.

(** [groups.setdefault(k, []).append(rv)] on a dict that keeps insertion
    order *)
Fixpoint setdefault_append (groups : list (string * list review))
    (k : string) (rv : review) : list (string * list review) :=
  match groups with
  | [] => [(k, [rv])]
  | (k', rvs) :: rest =>
      if decide (k' = k) then (k', rvs ++ [rv]) :: rest
      else (k', rvs) :: setdefault_append rest k rv
  end.

(** Lines 227-235 *)
Definition group_step (groups : list (string * list review))
    (ir : nat * ReviewSubmission) : list (string * list review) :=
  match paper_id (snd ir) with
  | None => groups
  | Some pid =>
      setdefault_append groups pid
        {| miner_uid := fst ir; entry_text := review_text (snd ir) |}
  end.

Definition group_reviews (responses : list ReviewSubmission)
  : list (string * list review) :=
  fold_left group_step (enumerate responses) [].

(** [np.argsort]: the indices of [xs] in ascending order of value.
    numpy does not promise an order among equal values, and the order it
    gives them depends on its build; the model takes the one of a stable
    insertion sort.  The theorems about ranking state what holds for every
    such order: that the ranking is a permutation and that it sorts. *)
Fixpoint insert_index (xs : list R) (i : nat) (sorted : list nat) : list nat :=
  match sorted with
  | [] => [i]
  | j :: rest =>
      if decide (nth i xs 0 < nth j xs 0)%R then i :: sorted
      else j :: insert_index xs i rest
  end.

Definition argsort (xs : list R) : list nat :=
  fold_left (fun sorted i => insert_index xs i sorted) (seq 0 (length xs)) [].

(** [l[i]] *)
Definition item {A} (l : list A) (i : nat) : outcome A :=
  match l !! i with
  | Some a => Ok a
  | None => Raise (IndexError "list index out of range")
  end.

Definition aggregate_of (score : dict) : outcome R :=
  v ← getitem score "aggregate_score"; to_real v.

(** [score.get("confidence", 1.0)] *)
Definition confidence_of (score : dict) : outcome R :=
  match score !! "confidence" with
  | Some v => to_real v
  | None => Ok 1%R
  end.

(** [np.exp(-0.5 * rank)], on the reals: never 0, whereas the float is 0.0
    from rank 1491 on. *)
Definition decay (rank : nat) : R := exp (-0.5 * INR rank).

(** Lines 261-262: [synapse.review_score = score; synapse.final_score =
    reward] *)
Definition write_back (synapse : ReviewSubmission) (score : dict) (reward : R)
  : ReviewSubmission :=
  {| paper_id := paper_id synapse;
     review_text := review_text synapse;
     review_score := Some score;
     final_score := Some reward |}.

(** Lines 253-262: one iteration of the loop over [ranked_indices]. *)
Definition reward_step (paper_reviews : list review) (scores : list dict)
    (st : list R * list ReviewSubmission) (ri : nat * nat)
  : outcome (list R * list ReviewSubmission) :=
  let '(all_rewards, responses) := st in
  let '(rank, idx) := ri in
  rv ← item paper_reviews idx;
  score ← item scores idx;
  base_score ← aggregate_of score;
  confidence ← confidence_of score;
  let reward := (base_score * decay rank * confidence)%R in
  synapse ← item responses (miner_uid rv);
  if decide (miner_uid rv < length all_rewards)
  then Ok (<[miner_uid rv := reward]> all_rewards,
           <[miner_uid rv := write_back synapse score reward]> responses)
  else Raise (IndexError "index out of bounds").

(** Lines 249-251 *)
Definition rank_group (scores : list dict) : outcome (list nat) :=
  aggs ← mapM aggregate_of scores;
  Ok (rev (argsort aggs)).

(** Lines 239-262: one iteration of the loop over the groups. *)
Definition score_group (scorer : LLMReviewScorer)
    (paper_metadata : gmap string paper_info)
    (st : world * list R * list ReviewSubmission)
    (group : string * list review)
  : outcome (world * list R * list ReviewSubmission) :=
  let '(w, all_rewards, responses) := st in
  let '(pid, paper_reviews) := group in
  let abstract := paper_context paper_metadata pid in
  let '(scores, w') := score_reviews_for_paper scorer abstract paper_reviews w in
  ranked_indices ← rank_group scores;
  '(all_rewards', responses') ←
    foldM (reward_step paper_reviews scores) (all_rewards, responses)
          (enumerate ranked_indices);
  Ok (w', all_rewards', responses').

(** [a.max()] on a numpy array *)
Definition np_max (xs : list R) : outcome R :=
  match xs with
  | [] =>
      Raise (ValueError
        "zero-size array to reduction operation maximum which has no identity")
  | x :: xs' => Ok (fold_left Rmax xs' x)
  end.

(** Lines 264-265 *)
Definition normalize (all_rewards : list R) : outcome (list R) :=
  m ← np_max all_rewards;
  if decide (m > 0)%R
  then m' ← np_max all_rewards; Ok ((fun x => x / m')%R <$> all_rewards)
  else Ok all_rewards.

(** What a call returns and leaves behind: the reward vector, the miner
    uids, the synapses as mutated, and the world. *)
Record scored := {
  rewards : list R;
  miner_uids : list nat;
  synapses : list ReviewSubmission;
  after : world;
}.

(** The scorer and the metadata stand for what lines 214-225 read from the
    validator's configuration and from [paper_metadata.json]. *)
Definition score_reviews_grouped (scorer : LLMReviewScorer)
    (paper_metadata : gmap string paper_info)
    (responses : list ReviewSubmission) (w : world) : outcome scored :=
  let reviews_by_paper := group_reviews responses in
  let all_rewards := replicate (length responses) 0%R in
  '(w', all_rewards, responses') ←
    foldM (score_group scorer paper_metadata) (w, all_rewards, responses)
          reviews_by_paper;
  all_rewards ← normalize all_rewards;
  Ok {| rewards := all_rewards;
        miner_uids := seq 0 (length responses);
        synapses := responses';
        after := w' |}.


(** * The modules around the scorer

    The validator's [forward] (template/validator/forward.py), the data
    pipeline that feeds it (template/data) and the miner (neurons/miner.py).

    Modelling conventions.
    - A row of the scraped data is a JSON object whose fields hold
      strings, a [gmap string string]: what [OpenReviewScraper] writes for
      titles, abstracts, review texts and paper ids.  A field may be
      absent.
    - The files [process] writes are the fields of a record; the
      directory is taken to hold nothing else.
    - What the code asks of bittensor (the metagraph, the dendrite,
      [update_scores]) is an argument or a result of the model. *)

Abbreviation row := (gmap string string).

(** ** [OpenReviewScraper.pick] (template/data/openreview_fetcher.py) *)

(** The values of a note's content: any JSON value. *)
#[warnings="-register-all"]
Inductive json :=
| JNull
| JBool (b : bool)
| JInt (z : Z)
| JFloat (f : pyfloat)
| JStr (s : string)
| JList (l : list json)
| JObj (o : gmap string json).

(** [bool(v)] *)
Definition truthy (v : json) : bool :=
  match v with
  | JNull => false
  | JBool b => b
  | JInt z => negb (z =? 0)%Z
  | JFloat (FFin x) => if Req_dec_T x 0 then false else true
  | JFloat _ => true
  | JStr s => negb (bool_decide (s = ""))
  | JList l => negb (Nat.eqb (length l) 0)
  | JObj o => negb (Nat.eqb (size o) 0)
  end.

(** The body of the loop of [pick], for the key [k]: the value found,
    taken out of its [{"value": ...}] wrapper if it has one. *)
Definition pick_value (content : gmap string json) (k : string) : json :=
  let v := default (JStr "") (content !! k) in
  match v with
  | JObj d => default (JStr "") (d !! "value")
  | _ => v
  end.

Fixpoint pick_loop (content : gmap string json) (keys : list string) : json :=
  match keys with
  | [] => JStr ""
  | k :: rest =>
      let v := pick_value content k in
      if truthy v then v else pick_loop content rest
  end.

(** [content] may be [None]: line 13 puts the empty dict in its place. *)
Definition pick (content : option (gmap string json)) (keys : list string) : json :=
  pick_loop (default ∅ content) keys.

(** ** [ReviewDataPreprocessor.process] (template/data/data_preprocessor.py) *)

(** What [process] can raise: an exception of the kinds above, or a
    division by zero. *)
Inductive failure :=
| Builtin (e : exn)
| ZeroDivisionError.

Inductive attempt (A : Type) :=
| Done (a : A)
| Failed (f : failure).
Arguments Done {A} a.
Arguments Failed {A} f.

#[global] Instance attempt_ret : MRet attempt := fun A a => Done a.
#[global] Instance attempt_bind : MBind attempt := fun A B k m =>
  match m with
  | Done a => k a
  | Failed f => Failed f
  end.

Definition lift {A} (m : outcome A) : attempt A :=
  match m with
  | Ok a => Done a
  | Raise e => Failed (Builtin e)
  end.

Fixpoint foldA {A B} (f : A -> B -> attempt A) (a : A) (l : list B) : attempt A :=
  match l with
  | [] => Done a
  | b :: l' => a' ← f a b; foldA f a' l'
  end.

(** An entry of [paper_metadata] as [process] builds it. *)
Record metadata_entry := {
  entry_paper_id : string;
  entry_title : string;
  entry_abstract : string;
}.

(** Lines 26-33: one iteration of the loop that builds [paper_metadata]. *)
Definition metadata_step (paper_metadata : gmap string metadata_entry) (r : row)
  : outcome (gmap string metadata_entry) :=
  pid ← getitem r "paper_id";
  match paper_metadata !! pid with
  | Some _ => Ok paper_metadata
  | None =>
      Ok (<[pid := {| entry_paper_id := pid;
                      entry_title := default "" (r !! "title");
                      entry_abstract := default "" (r !! "abstract") |}]>
            paper_metadata)
  end.

(** [a % b] on integers: the result has the sign of [b]. *)
Definition py_mod (a b : Z) : attempt Z :=
  if decide (b = 0)%Z then Failed ZeroDivisionError else Done (a mod b)%Z.

(** The position [l[j]] refers to in a list of length [n], for an integer
    [j] that may be negative. *)
Definition py_index (n : nat) (j : Z) : outcome nat :=
  if decide (0 <= j < Z.of_nat n)%Z then Ok (Z.to_nat j)
  else if decide (- Z.of_nat n <= j < 0)%Z then Ok (Z.to_nat (Z.of_nat n + j))
  else Raise (IndexError "list index out of range").

(** Line 38: [miner_buckets[i % num_miners].append(r)].  The buckets are
    separate lists (line 36 builds each one anew), so appending to one
    leaves the others as they are. *)
Definition bucket_step (num_miners : Z) (miner_buckets : list (list row))
    (ir : nat * row) : attempt (list (list row)) :=
  j ← py_mod (Z.of_nat (fst ir)) num_miners;
  k ← lift (py_index (length miner_buckets) j);
  Done (alter (fun bucket => bucket ++ [snd ir]) k miner_buckets).

(** The summary [process] returns and writes to [miner_assignments.json]. *)
Record summary := {
  num_miners : Z;
  total_reviews : nat;
  total_papers : nat;
  reviews_per_miner : list nat;
}.

(** The output directory: [miner_<mid>_reviews.json] for each [mid] in
    order, [paper_metadata.json] and [miner_assignments.json]. *)
Record processed := {
  miner_files : list (list row);
  metadata_file : gmap string metadata_entry;
  assignments_file : summary;
}.

(** The files are written after the two loops, so a run that raises
    writes none of them. *)
Definition process (reviews : list row) (num_miners : Z) : attempt processed :=
  paper_metadata ← lift (foldM metadata_step ∅ reviews);
  miner_buckets ←
    foldA (bucket_step num_miners) (replicate (Z.to_nat num_miners) [])
          (enumerate reviews);
  Done {| miner_files := miner_buckets;
          metadata_file := paper_metadata;
          assignments_file :=
            {| num_miners := num_miners;
               total_reviews := length reviews;
               total_papers := size paper_metadata;
               reviews_per_miner := length <$> miner_buckets |} |}.

(** [paper_metadata.json] as the validator reads it (llm_scorer.py, lines
    220-222 and 240-245): of each entry, its abstract and its title. *)
Definition load_metadata (file : gmap string metadata_entry)
  : gmap string paper_info :=
  (fun e => {| abstract := Some (entry_abstract e);
               title := Some (entry_title e) |}) <$> file.

(** ** [ReviewDataset] (template/data/review_dataset.py) *)

Record ReviewDataset := {
  reviews : list row;
  current_index : nat;
}.

(** [__init__], given the rows of [miner_<miner_id>_reviews.json], or
    [None] when the file does not exist. *)
Definition load_dataset (review_file : option (list row)) : ReviewDataset :=
  {| reviews := default [] review_file; current_index := 0 |}.

Definition get_next (self : ReviewDataset) : outcome (option row * ReviewDataset) :=
  match reviews self with
  | [] => Ok (None, self)
  | _ =>
      review ← item (reviews self) (current_index self);
      Ok (Some review,
          {| reviews := reviews self;
             current_index := (current_index self + 1) mod length (reviews self) |})
  end.

Fixpoint find_review (rs : list row) (paper_id : string) : outcome (option row) :=
  match rs with
  | [] => Ok None
  | review :: rest =>
      pid ← getitem review "paper_id";
      if decide (pid = paper_id) then Ok (Some review)
      else find_review rest paper_id
  end.

Definition get_review_for_paper (self : ReviewDataset) (paper_id : string)
  : outcome (option row) :=
  find_review (reviews self) paper_id.

(** ** The miner (neurons/miner.py) *)

(** What [blacklist] reads of the metagraph and of the configuration. *)
Record metagraph := {
  hotkeys : list string;
  validator_permit : list bool;
}.

Record blacklist_config := {
  allow_non_registered : bool;
  force_validator_permit : bool;
}.

(** [l.index(x)] *)
Fixpoint list_index (l : list string) (x : string) : option nat :=
  match l with
  | [] => None
  | y :: rest => if decide (y = x) then Some 0 else S <$> list_index rest x
  end.

Definition index_of (l : list string) (x : string) : outcome nat :=
  match list_index l x with
  | Some i => Ok i
  | None => Raise (ValueError ("'" ++ x ++ "' is not in list"))
  end.

Module Miner.

(** [forward]: the synapse returned and the dataset as the call leaves
    it.  Of the synapse, the fields the validator reads are kept. *)
Definition forward (review_dataset : ReviewDataset) (synapse : ReviewSubmission)
  : outcome (ReviewSubmission * ReviewDataset) :=
  '(review, review_dataset) ← get_next review_dataset;
  match review with
  | None => Ok (synapse, review_dataset)
  | Some review =>
      pid ← getitem review "paper_id";
      Ok ({| paper_id := Some pid;
             review_text := Some (default "" (review !! "review_text"));
             review_score := review_score synapse;
             final_score := final_score synapse |},
          review_dataset)
  end.

(** [blacklist]; [dendrite] is [synapse.dendrite], whose hotkey may be
    missing as well. *)
Definition blacklist (mg : metagraph) (config : blacklist_config)
    (dendrite : option (option string)) : outcome (bool * string) :=
  match dendrite with
  | None | Some None => Ok (true, "Missing dendrite or hotkey")
  | Some (Some hotkey) =>
      uid ← index_of (hotkeys mg) hotkey;
      if negb (allow_non_registered config)
         && negb (bool_decide (hotkey ∈ hotkeys mg))
      then Ok (true, "Unrecognized hotkey")
      else if force_validator_permit config
      then
        permit ← item (validator_permit mg) uid;
        if negb permit then Ok (true, "Non-validator hotkey")
        else Ok (false, "Hotkey recognized!")
      else Ok (false, "Hotkey recognized!")
  end.

End Miner.

(** ** The validator's [forward] (template/validator/forward.py) *)

(** How a step ends: without scoring, with [update_scores] called on the
    rewards and uids of a scoring, or with the scoring's exception
    logged. *)
Inductive forward_result :=
| Skipped
| Updated (out : scored)
| ScoringError (e : exn).

(** [miner_uids] is what [get_random_uids] returned, and [dendrite uids]
    the responses of the miners with these uids, in their order. *)
Definition forward (scorer : LLMReviewScorer)
    (paper_metadata : gmap string paper_info)
    (dendrite : list nat -> list ReviewSubmission) (miner_uids : list nat)
    (w : world) : forward_result :=
  let responses := dendrite miner_uids in
  let valid :=
    length (List.filter (fun r => negb (bool_decide (paper_id r = None))) responses) in
  if decide (valid = 0) then Skipped
  else
    match score_reviews_grouped scorer paper_metadata responses w with
    | Ok out => Updated out
    | Raise e => ScoringError e
    end.
(** ** Specification vocabulary

    The definitions from here on are not part of the program: they say, in
    the design document's terms, what the theorems below compare the
    program with. *)

(** Clamping into [lo, hi] as the document means it.  [nan] and [inf] end
    at [hi] and [-inf] at [lo], which is where Python's [max(lo, min(hi,
    x))] puts them. *)
Definition clamp_to (lo hi : R) (f : pyfloat) : R :=
  match f with
  | FFin x => Rmax lo (Rmin hi x)
  | FNaN => hi
  | FInf neg => if neg then lo else hi
  end.

(** The number stored under [k]. *)
Definition value_at (v : dict) (k : string) : option R := v !! k ≫= real_of.

(** The sum over the six criteria of value times weight, times 20. *)
Definition weighted_sum (x : string -> R) : R :=
  ((x "comprehension" * 0.20 + x "technical_depth" * 0.25
    + x "specificity" * 0.20 + x "constructiveness" * 0.15
    + x "evidence_based" * 0.15 + x "professionalism" * 0.05) * 20)%R.

(** [float()] accepts what is stored under [k], if anything is. *)
Definition convertible_at (d : dict) (k : string) : Prop :=
  forall v, d !! k = Some v -> exists f, py_float v = Ok f.

Definition convertible (d : dict) : Prop :=
  forall k, k ∈ CRITERIA ++ ["confidence"] -> convertible_at d k.

(** What validating criterion [c] of [d] leaves under [c] in [d']. *)
Definition criterion_post (d d' : dict) (c : string) : Prop :=
  match d !! c with
  | None => d' !! c = Some (VInt 0)
  | Some v =>
      exists f, py_float v = Ok f /\
        d' !! c = Some (py_max (VInt 0) (py_min (VInt 5) (VFloat f)))
  end.

(** What the ranking reads from a verdict is there and in range. *)
Definition verdict_ok (v : dict) : Prop :=
  exists a c, aggregate_of v = Ok a /\ confidence_of v = Ok c /\
    (0 <= a <= 100)%R /\ (0 <= c <= 1)%R.

(** Every cached verdict is one the aggregator could have stored.  The
    empty cache is such a cache and the scorer keeps it one. *)
Definition cache_wf (c : gmap string dict) : Prop :=
  forall k v, c !! k = Some v -> verdict_ok v.

Definition has_text (rv : review) : bool := negb (no_text (entry_text rv)).

(** The order [argsort] sorts by. *)
Definition key (xs : list R) (i : nat) : R := nth i xs 0%R.
Definition key_le (xs : list R) (i j : nat) : Prop := (key xs i <= key xs j)%R.

(** The paper submission [i] names. *)
Definition paper_of (responses : list ReviewSubmission) (i : nat) : option string :=
  responses !! i ≫= paper_id.

(** The submissions for paper [pid], by position, in input order. *)
Definition members (responses : list ReviewSubmission) (pid : string) : list nat :=
  filter (fun i => paper_of responses i = Some pid) (seq 0 (length responses)).

(** The group entry of submission [i]. *)
Definition entry_of (responses : list ReviewSubmission) (i : nat) : review :=
  {| miner_uid := i; entry_text := responses !! i ≫= review_text |}.

(** [groups.get(pid)] *)
Fixpoint assoc (gs : list (string * list review)) (pid : string)
  : option (list review) :=
  match gs with
  | [] => None
  | (k, rvs) :: rest => if decide (k = pid) then Some rvs else assoc rest pid
  end.

(** [gs] groups the submissions [l]: one group per paper that has
    submissions, holding that paper's submissions in input order. *)
Definition grouped_as (l : list ReviewSubmission) (gs : list (string * list review))
  : Prop :=
  NoDup (fst <$> gs) /\
  forall pid, assoc gs pid =
    match members l pid with
    | [] => None
    | ms => Some (entry_of l <$> ms)
    end.

(** The miner uids of all groups. *)
Definition uids_of (gs : list (string * list review)) : list nat :=
  gs ≫= fun g => miner_uid <$> snd g.

(** What scoring the group [(pid, rvs)] in world [wk] leaves in the reward
    array and on the synapses: the reviews are scored against the paper's
    context, ranked, and each one's reward and verdict are written to its
    slot. *)
Definition group_scored (scorer : LLMReviewScorer)
    (paper_metadata : gmap string paper_info) (pid : string) (rvs : list review)
    (resp0 : list ReviewSubmission) (wk : world)
    (rew' : list R) (resp' : list ReviewSubmission) : Prop :=
  let scores :=
    fst (score_reviews_for_paper scorer (paper_context paper_metadata pid) rvs wk) in
  exists ranked,
    rank_group scores = Ok ranked /\
    forall rank idx rv, ranked !! rank = Some idx -> rvs !! idx = Some rv ->
      exists score a c s,
        scores !! idx = Some score /\ aggregate_of score = Ok a /\
        confidence_of score = Ok c /\ resp0 !! miner_uid rv = Some s /\
        rew' !! miner_uid rv = Some (a * decay rank * c)%R /\
        resp' !! miner_uid rv = Some (write_back s score (a * decay rank * c)).

(** The rewards before lines 264-265, with the world and the synapses the
    loop over the groups leaves. *)
Definition raw_run (scorer : LLMReviewScorer) (md : gmap string paper_info)
    (responses : list ReviewSubmission) (w : world)
  : outcome (world * list R * list ReviewSubmission) :=
  foldM (score_group scorer md)
        (w, replicate (length responses) 0%R, responses)
        (group_reviews responses).

(** The world in which the group of [pid] is scored: the one that the
    groups before it leave, scored in their order from [w]. *)
Fixpoint world_before (scorer : LLMReviewScorer) (md : gmap string paper_info)
    (gs : list (string * list review)) (pid : string) (w : world) : world :=
  match gs with
  | [] => w
  | (k, rvs) :: rest =>
      if decide (k = pid) then w
      else world_before scorer md rest pid
             (snd (score_reviews_for_paper scorer (paper_context md k) rvs w))
  end.

(** ** Sample inputs *)

(** A reply with every criterion at or above 5, in several spellings. *)
Definition perfect_reply : dict :=
  list_to_map
    [ ("comprehension", VInt 5); ("technical_depth", VInt 5);
      ("specificity", VFloat (FFin 5)); ("constructiveness", VInt 5);
      ("evidence_based", VInt 9); ("professionalism", VStr "5");
      ("confidence", VFloat (FFin 1)); ("justification", VStr "thorough") ].

(** A reply with criteria missing and numbers out of range. *)
Definition sloppy_reply : dict :=
  list_to_map
    [ ("comprehension", VInt 7); ("technical_depth", VFloat (FFin (-2)));
      ("confidence", VFloat (FFin 3.5)); ("specificity", VFloat FNaN) ].

(** A fresh cache directory and no request sent. *)
Definition world0 : world := {| cache := ∅; calls := [] |}.

(** An oracle that cannot be reached. *)
Definition offline : LLMReviewScorer :=
  {| model := "gpt-4.1-mini";
     client := fun _ _ => Raise (OracleError "Request timed out.") |}.

(** An oracle whose first request times out and which answers afterwards. *)
Definition flaky : LLMReviewScorer :=
  {| model := "gpt-4.1-mini";
     client := fun n _ =>
       match n with
       | O => Raise (OracleError "Request timed out.")
       | S _ => Ok perfect_reply
       end |}.

(** An oracle that always answers. *)
Definition steady : LLMReviewScorer :=
  {| model := "gpt-4.1-mini"; client := fun _ _ => Ok perfect_reply |}.

(** One submission for paper "p1". *)
Definition solo : list ReviewSubmission :=
  [ {| paper_id := Some "p1"; review_text := Some "A review.";
       review_score := None; final_score := None |} ].

(** Two submissions for paper "p1", the second without text, and one that
    names no paper. *)
Definition trio : list ReviewSubmission :=
  [ {| paper_id := Some "p1"; review_text := Some "A review.";
       review_score := None; final_score := None |};
    {| paper_id := Some "p1"; review_text := Some "";
       review_score := None; final_score := None |};
    {| paper_id := None; review_text := None;
       review_score := None; final_score := None |} ].

(** Two submissions of the same review for paper "p1". *)
Definition twins : list ReviewSubmission :=
  [ {| paper_id := Some "p1"; review_text := Some "A review.";
       review_score := None; final_score := None |};
    {| paper_id := Some "p1"; review_text := Some "A review.";
       review_score := None; final_score := None |} ].

(** ** Tactics *)

(** Case analysis on the comparisons of reals in the goal. *)
Ltac case_cmp :=
  repeat first
    [ progress simpl
    | match goal with
      | |- context [bool_decide (?x < ?y)%R] =>
          destruct (bool_decide_reflect (x < y)%R)
      | |- context [Rle_dec ?x ?y] => destruct (Rle_dec x y)
      | H : context [Rle_dec ?x ?y] |- _ => destruct (Rle_dec x y)
      end ].

Ltac in_list := repeat first [apply list_elem_of_here | apply list_elem_of_further].

(** One goal per field of the rubric. *)
Ltac each_field k Hk :=
  unfold CRITERIA in Hk; simpl in Hk;
  rewrite !elem_of_cons, elem_of_nil in Hk;
  repeat destruct Hk as [->|Hk]; try contradiction.

(** ** Vocabulary of the further properties *)

(** The value the aggregator gives criterion [c] of the reply [d]: 0 when
    it is missing, else its [float()] value clamped into [0,5]. *)
Definition criterion_value (d : dict) (c : string) : R :=
  match d !! c with
  | None => 0%R
  | Some v0 =>
      match py_float v0 with
      | Ok f => clamp_to 0 5 f
      | Raise _ => 0%R
      end
  end.

(** The characters a prompt has besides the two texts. *)
Definition prompt_overhead : nat := 78.

(** [w'] keeps what [w] has: every cached verdict, and the requests sent,
    to which it may add. *)
Definition world_extends (w w' : world) : Prop :=
  cache w ⊆ cache w' /\ calls w `suffix_of` calls w'.

(** The submissions that name a paper and have text. *)
Definition scorable (responses : list ReviewSubmission) : list nat :=
  filter (fun i => is_Some (paper_of responses i) /\
                   has_text (entry_of responses i) = true)
         (seq 0 (length responses)).


(** The miner uids of the group entries that have text. *)
Definition texted (gs : list (string * list review)) : list nat :=
  gs ≫= fun g => miner_uid <$> List.filter has_text (snd g).

(** What an outage leaves of a verdict. *)
Definition failed (v : dict) : Prop :=
  aggregate_of v = Ok 0.0%R /\ is_Some (v !! "error").

(** The content [c] with each value in a [{"value": ...}] wrapper. *)
Definition wrapped (c : gmap string json) : gmap string json :=
  (fun v => JObj {["value" := v]}) <$> c.

(** A value that is not an object. *)
Definition plain (v : json) : Prop :=
  match v with JObj _ => False | _ => True end.

Definition has_paper_id (r : row) : Prop := is_Some (r !! "paper_id").

(** The rows about paper [pid], in the order of the data. *)
Definition rows_for (rs : list row) (pid : string) : list row :=
  filter (fun r => r !! "paper_id" = Some pid) rs.

(** The metadata entry [process] makes of a row about [pid]. *)
Definition entry_from (pid : string) (r : row) : metadata_entry :=
  {| entry_paper_id := pid;
     entry_title := default "" (r !! "title");
     entry_abstract := default "" (r !! "abstract") |}.

(** The buckets that hold the rows [l] dealt round robin to [N] miners. *)
Definition dealt (N : nat) (l : list row) (bs : list (list row)) : Prop :=
  length bs = N /\
  forall m, m < N -> exists b, bs !! m = Some b /\
    forall k, b !! k = l !! (k * N + m).

(** Three scraped rows: two reviews of paper "p1", the first of which
    brings its abstract, and one of paper "p2", which has none. *)
Definition row_a : row :=
  {[ "paper_id" := "p1"; "title" := "On sorting"; "abstract" := "We sort.";
     "review_text" := "Sound." ]}.
Definition row_b : row :=
  {[ "paper_id" := "p2"; "title" := "On hashing"; "review_text" := "Unclear." ]}.
Definition row_c : row :=
  {[ "paper_id" := "p1"; "title" := "Sorting"; "abstract" := "";
     "review_text" := "Novel." ]}.
Definition three_rows : list row := [row_a; row_b; row_c].

(** [k] calls of [get_next] in a row: what they return, in order, and
    the dataset they leave. *)
Fixpoint get_next_n (k : nat) (ds : ReviewDataset)
  : outcome (list (option row) * ReviewDataset) :=
  match k with
  | 0 => Ok ([], ds)
  | S k =>
      '(r, ds) ← get_next ds;
      '(rs, ds) ← get_next_n k ds;
      Ok (r :: rs, ds)
  end.

(** A row about another paper than [pid]. *)
Definition other_paper (pid : string) (r : row) : Prop :=
  exists p, r !! "paper_id" = Some p /\ p <> pid.

(** The synapse the validator sends: [ReviewSubmission()]. *)
Definition blank : ReviewSubmission :=
  {| paper_id := None; review_text := None;
     review_score := None; final_score := None |}.

(** The submission a miner makes of a row. *)
Definition submission_of (r : row) : option ReviewSubmission :=
  pid ← r !! "paper_id";
  Some {| paper_id := Some pid;
          review_text := Some (default "" (r !! "review_text"));
          review_score := None; final_score := None |}.

(** [k] queries answered by [Miner.forward], each on a blank synapse. *)
Fixpoint forward_n (k : nat) (ds : ReviewDataset)
  : outcome (list ReviewSubmission * ReviewDataset) :=
  match k with
  | 0 => Ok ([], ds)
  | S k =>
      '(s, ds) ← Miner.forward ds blank;
      '(ss, ds) ← forward_n k ds;
      Ok (s :: ss, ds)
  end.

(** ** The embedding against known values *)

Example sha256_abc :
  SHA256.hexdigest "abc"
  = "ba7816bf8f01cfea414140de5dae2223b00361a396177a9cb410ff61f20015ad".
Proof. vm_compute. reflexivity. Qed.

Example sha256_empty :
  SHA256.hexdigest ""
  = "e3b0c44298fc1c149afbf4c8996fb92427ae41e4649b934ca495991b7852b855".
Proof. vm_compute. reflexivity. Qed.

Example sha256_two_blocks :
  SHA256.hexdigest "abcdbcdecdefdefgefghfghighijhijkijkljklmklmnlmnomnopnopq"
  = "248d6a61d20638b8e5c026930c3e6039a33ce45964ff2167f6ecedd419db06c1".
Proof. vm_compute. reflexivity. Qed.

(** The file stem under which the verdict of this review is cached. *)
Example cache_key_sample :
  _cache_key steady "An abstract." "A review."
  = "d550fd28b4bd7fe433fa088937074f96dfc3b82714a205ed77e11bd7cbe94578".
Proof. vm_compute. reflexivity. Qed.

(** The key is a digest of the joined text, not of the triple: moving a
    bar between the model and the abstract gives the same key. *)
Example cache_key_joins :
  _cache_key {| model := "a|b"; client := client steady |} "c" "d"
  = _cache_key {| model := "a"; client := client steady |} "b|c" "d".
Proof. unfold _cache_key. f_equal. Qed.

Example float_of_string_rejects :
  float_of_string "high" = None /\ float_of_string "" = None /\
  float_of_string "1_" = None /\ float_of_string "." = None /\
  float_of_string "0x10" = None /\ float_of_string "1e" = None /\
  float_of_string "- 5" = None.
Proof. repeat split; vm_compute; reflexivity. Qed.

Example float_of_string_special :
  float_of_string "NaN" = Some FNaN /\
  float_of_string " -Infinity" = Some (FInf true) /\
  float_of_string "inf" = Some (FInf false).
Proof. repeat split; vm_compute; reflexivity. Qed.

Example float_of_string_decimal :
  (exists x, float_of_string " 4.5 " = Some (FFin x) /\ x = 4.5%R) /\
  (exists x, float_of_string "1_000" = Some (FFin x) /\ x = 1000%R) /\
  (exists x, float_of_string "-1.5e-3" = Some (FFin x) /\ x = (-0.0015)%R) /\
  (exists x, float_of_string "1e2" = Some (FFin x) /\ x = 100%R) /\
  (exists x, float_of_string "1_0.0_1E1_0" = Some (FFin x) /\ x = 100100000000%R).
Proof.
  repeat split; eexists; (split; [reflexivity|]);
    vm_compute (digits_val _); vm_compute (_ - _)%Z; simpl; lra.
Qed.

(** [max(0, min(5, x))] and [max(0.0, min(1.0, x))] at the edges. *)
Example clamp_samples :
  py_max (VInt 0) (py_min (VInt 5) (VFloat FNaN)) = VInt 5 /\
  py_max (VInt 0) (py_min (VInt 5) (VFloat (FInf true))) = VInt 0 /\
  py_max (VInt 0) (py_min (VInt 5) (VFloat (FFin 7))) = VInt 5 /\
  py_max (VInt 0) (py_min (VInt 5) (VFloat (FFin (-2)))) = VInt 0 /\
  py_max (VInt 0) (py_min (VInt 5) (VFloat (FFin 3.5))) = VFloat (FFin 3.5) /\
  py_max (VFloat (FFin 0.0)) (py_min (VFloat (FFin 1.0)) (VFloat FNaN))
    = VFloat (FFin 1.0).
Proof.
  unfold py_max, py_min, py_lt. repeat split; case_cmp; try reflexivity; lra.
Qed.

(** The design document's scenario: aggregates 80, 60 and 90 rank as
    90, 80, 60. *)
Example ranked_80_60_90 : rev (argsort [80; 60; 90]%R) = [2; 0; 1].
Proof.
  unfold argsort. simpl.
  repeat (case_decide; simpl; try lra). reflexivity.
Qed.

Example user_prompt_sample :
  user_prompt "A" "B"
  = ("Paper Abstract:" ++ nl ++ "A" ++ nl ++ nl ++ "Review to Evaluate:" ++ nl
     ++ "B" ++ nl ++ nl ++ "Evaluate this review using the rubric.")%string.
Proof. reflexivity. Qed.

(** * Proofs *)

Lemma weights_lookup :
  CRITERIA_WEIGHTS !! "comprehension" = Some 0.20%R /\
  CRITERIA_WEIGHTS !! "technical_depth" = Some 0.25%R /\
  CRITERIA_WEIGHTS !! "specificity" = Some 0.20%R /\
  CRITERIA_WEIGHTS !! "constructiveness" = Some 0.15%R /\
  CRITERIA_WEIGHTS !! "evidence_based" = Some 0.15%R /\
  CRITERIA_WEIGHTS !! "professionalism" = Some 0.05%R.
Proof. repeat split; reflexivity. Qed.

Lemma criteria_nodup : NoDup CRITERIA.
Proof. apply (bool_decide_unpack _). vm_compute. exact I. Qed.

Lemma clamp_criterion_real f :
  real_of (py_max (VInt 0) (py_min (VInt 5) (VFloat f))) = Some (clamp_to 0 5 f).
Proof.
  destruct f as [x| |[|]]; unfold py_max, py_min, py_lt, clamp_to, Rmax, Rmin;
    case_cmp; f_equal; lra.
Qed.

Lemma clamp_confidence_real f :
  real_of (py_max (VFloat (FFin 0.0)) (py_min (VFloat (FFin 1.0)) (VFloat f)))
  = Some (clamp_to 0 1 f).
Proof.
  destruct f as [x| |[|]]; unfold py_max, py_min, py_lt, clamp_to, Rmax, Rmin;
    case_cmp; f_equal; lra.
Qed.

Lemma clamp_to_range lo hi f : (lo <= hi)%R -> (lo <= clamp_to lo hi f <= hi)%R.
Proof.
  intros Hle. destruct f as [x| |[|]]; unfold clamp_to, Rmax, Rmin; case_cmp; lra.
Qed.

Lemma clamp_to_id lo hi x : (lo <= x <= hi)%R -> clamp_to lo hi (FFin x) = x.
Proof. intros Hx. unfold clamp_to, Rmax, Rmin; case_cmp; lra. Qed.

Lemma bind_Ok {A B} (m : outcome A) (k : A -> outcome B) b :
  m ≫= k = Ok b <-> exists a, m = Ok a /\ k a = Ok b.
Proof.
  destruct m as [a|e]; simpl; split.
  - eauto.
  - intros (a' & [= <-] & H). exact H.
  - discriminate.
  - intros (a' & [=] & _).
Qed.

Lemma bind_Raise {A B} (m : outcome A) (k : A -> outcome B) e :
  m ≫= k = Raise e <-> m = Raise e \/ exists a, m = Ok a /\ k a = Raise e.
Proof.
  destruct m as [a|e']; simpl; split.
  - eauto.
  - intros [[=]|(a' & [= <-] & H)]. exact H.
  - intros [= <-]. by left.
  - intros [[= <-]|(a' & [=] & _)]. reflexivity.
Qed.

Lemma validate_criterion_Ok d c d' :
  validate_criterion d c = Ok d' ->
  criterion_post d d' c /\ (forall k, k <> c -> d' !! k = d !! k).
Proof.
  unfold validate_criterion, criterion_post.
  destruct (d !! c) as [v|] eqn:E.
  - intros (f & Hf & [= <-])%bind_Ok. split.
    + exists f. by rewrite lookup_insert_eq.
    + intros k Hk. by rewrite lookup_insert_ne.
  - intros [= <-]. split.
    + by rewrite lookup_insert_eq.
    + intros k Hk. by rewrite lookup_insert_ne.
Qed.

Lemma validate_criteria_Ok cs :
  NoDup cs -> forall d d',
  foldM validate_criterion d cs = Ok d' ->
  (forall c, c ∈ cs -> criterion_post d d' c) /\
  (forall k, k ∉ cs -> d' !! k = d !! k).
Proof.
  induction 1 as [|c cs Hc Hnd IH]; intros d d'; simpl.
  - intros [= <-]. split; [intros c []%elem_of_nil | done].
  - intros (d1 & H1 & Hrest)%bind_Ok.
    apply validate_criterion_Ok in H1 as [Hpost Hother].
    apply IH in Hrest as [IHin IHout]. split.
    + intros c' [->|Hin]%elem_of_cons.
      * unfold criterion_post in *. by rewrite (IHout c Hc).
      * assert (c' <> c) by (intros ->; contradiction).
        specialize (IHin c' Hin). unfold criterion_post in *.
        by rewrite <- (Hother c').
    + intros k [Hk1 Hk2]%not_elem_of_cons.
      by rewrite (IHout k Hk2), (Hother k Hk1).
Qed.

Lemma validate_criteria_total cs :
  forall d, (forall c, c ∈ cs -> convertible_at d c) ->
  exists d', foldM validate_criterion d cs = Ok d'.
Proof.
  induction cs as [|c cs IH]; intros d Hconv; simpl; [eauto|].
  assert (exists d1, validate_criterion d c = Ok d1
                     /\ forall k, k <> c -> d1 !! k = d !! k) as (d1 & H1 & Hother).
  { unfold validate_criterion. destruct (d !! c) as [v|] eqn:E.
    - destruct (Hconv c ltac:(apply elem_of_cons; by left) v E) as [f ->]. simpl.
      eexists; split; [reflexivity|]. intros k Hk. by rewrite lookup_insert_ne.
    - eexists; split; [reflexivity|]. intros k Hk. by rewrite lookup_insert_ne. }
  rewrite H1. simpl.
  apply IH. intros c' Hin v Hv.
  destruct (decide (c' = c)) as [->|Hne].
  - (* the value just written is a number *)
    apply validate_criterion_Ok in H1 as [Hpost _]. unfold criterion_post in Hpost.
    destruct (d !! c) as [v0|].
    + destruct Hpost as (f & _ & Hl). rewrite Hl in Hv. injection Hv as <-.
      unfold py_max, py_min. repeat case_match; simpl; eauto.
    + rewrite Hpost in Hv. injection Hv as <-. simpl. eauto.
  - rewrite Hother in Hv by done.
    exact (Hconv c' ltac:(apply elem_of_cons; by right) v Hv).
Qed.

Lemma criteria_not_reserved c :
  c ∈ CRITERIA -> c <> "confidence" /\ c <> "aggregate_score".
Proof.
  unfold CRITERIA. rewrite !elem_of_cons, elem_of_nil.
  intros H; split; intros ->; repeat destruct H as [H|H]; try discriminate; done.
Qed.

Lemma confidence_not_criterion : "confidence" ∉ CRITERIA.
Proof. intros [H _]%criteria_not_reserved. by apply H. Qed.

Lemma criteria_forall (P : string -> Prop) :
  (forall c, c ∈ CRITERIA -> P c) <->
  P "comprehension" /\ P "technical_depth" /\ P "specificity" /\
  P "constructiveness" /\ P "evidence_based" /\ P "professionalism".
Proof.
  split.
  - intros H. repeat split; apply H; unfold CRITERIA; in_list.
  - intros (H1 & H2 & H3 & H4 & H5 & H6) c. unfold CRITERIA.
    rewrite !elem_of_cons, elem_of_nil.
    intros [->|[->|[->|[->|[->|[->|[]]]]]]]; assumption.
Qed.

Lemma weighted_Ok (d : dict) c pv x w :
  d !! c = Some pv -> real_of pv = Some x -> CRITERIA_WEIGHTS !! c = Some w ->
  weighted d c = Ok (x * w * 20)%R.
Proof.
  intros Hd Hx Hw. unfold weighted, getitem, to_real.
  rewrite Hd. simpl. rewrite Hw. simpl. rewrite Hx. reflexivity.
Qed.

Lemma weighted_sum_range (x : string -> R) :
  (forall c, c ∈ CRITERIA -> (0 <= x c <= 5)%R) ->
  (0 <= weighted_sum x <= 100)%R.
Proof.
  intros (H1 & H2 & H3 & H4 & H5 & H6)%criteria_forall.
  unfold weighted_sum. lra.
Qed.

Lemma weighted_sum_const (x : string -> R) k :
  (forall c, c ∈ CRITERIA -> x c = k) -> weighted_sum x = (k * 20)%R.
Proof.
  intros (H1 & H2 & H3 & H4 & H5 & H6)%criteria_forall.
  unfold weighted_sum. rewrite H1, H2, H3, H4, H5, H6. lra.
Qed.

Lemma criterion_post_value d d' c :
  criterion_post d d' c ->
  exists pv x, d' !! c = Some pv /\ real_of pv = Some x /\ (0 <= x <= 5)%R.
Proof.
  unfold criterion_post. destruct (d !! c) as [v0|].
  - intros (f & _ & Hl). eexists _, _. split; [exact Hl|]. split.
    + apply clamp_criterion_real.
    + apply clamp_to_range. lra.
  - intros Hl. exists (VInt 0), 0%R. repeat split; [done|lra|lra].
Qed.

Lemma validate_confidence_Ok d d' :
  validate_confidence d = Ok d' ->
  (forall k, k <> "confidence" -> d' !! k = d !! k) /\
  match d !! "confidence" with
  | None => d' !! "confidence" = Some (VFloat (FFin 0.5))
  | Some v0 =>
      exists f, py_float v0 = Ok f /\
        d' !! "confidence" =
          Some (py_max (VFloat (FFin 0.0)) (py_min (VFloat (FFin 1.0)) (VFloat f)))
  end.
Proof.
  unfold validate_confidence. destruct (d !! "confidence") as [v0|].
  - intros (f & Hf & [= <-])%bind_Ok. split.
    + intros k Hk. by rewrite lookup_insert_ne.
    + exists f. by rewrite lookup_insert_eq.
  - intros [= <-]. split.
    + intros k Hk. by rewrite lookup_insert_ne.
    + by rewrite lookup_insert_eq.
Qed.

(** The shape of every verdict the aggregator returns. *)
Lemma validate_and_aggregate_Ok d v :
  _validate_and_aggregate d = Ok v ->
  exists d1 d2 (x : string -> R),
    foldM validate_criterion d CRITERIA = Ok d1 /\
    validate_confidence d1 = Ok d2 /\
    (forall c, c ∈ CRITERIA -> criterion_post d d1 c) /\
    (forall c, c ∈ CRITERIA ->
       value_at d2 c = Some (x c) /\ (0 <= x c <= 5)%R) /\
    v = <["aggregate_score" := VFloat (FFin (weighted_sum x))]> d2.
Proof.
  unfold _validate_and_aggregate.
  intros (d1 & H1 & (d2 & H2 & (terms & Hterms & [= <-])%bind_Ok)%bind_Ok)%bind_Ok.
  pose proof (validate_criteria_Ok _ criteria_nodup _ _ H1) as [Hpost _].
  pose proof (validate_confidence_Ok _ _ H2) as [Hsame _].
  assert (Hval : forall c, c ∈ CRITERIA ->
            exists pv x, d2 !! c = Some pv /\ real_of pv = Some x /\ (0 <= x <= 5)%R).
  { intros c Hc. destruct (criterion_post_value _ _ _ (Hpost c Hc)) as (pv & x & Hl & Hx).
    exists pv, x. split; [|exact Hx].
    rewrite Hsame; [exact Hl|]. by apply criteria_not_reserved. }
  exists d1, d2, (fun c => default 0%R (value_at d2 c)).
  split; [done|]. split; [done|]. split; [done|]. split.
  - intros c Hc. destruct (Hval c Hc) as (pv & x & Hl & Hx & Hr).
    unfold value_at. rewrite Hl. simpl. rewrite Hx. simpl. done.
  - f_equal. f_equal. f_equal.
    apply criteria_forall in Hval.
    destruct Hval as ((p1 & x1 & L1 & X1 & _) & (p2 & x2 & L2 & X2 & _)
      & (p3 & x3 & L3 & X3 & _) & (p4 & x4 & L4 & X4 & _)
      & (p5 & x5 & L5 & X5 & _) & (p6 & x6 & L6 & X6 & _)).
    pose proof weights_lookup as (W1 & W2 & W3 & W4 & W5 & W6).
    unfold CRITERIA in Hterms. simpl in Hterms.
    rewrite (weighted_Ok _ _ _ _ _ L1 X1 W1), (weighted_Ok _ _ _ _ _ L2 X2 W2),
      (weighted_Ok _ _ _ _ _ L3 X3 W3), (weighted_Ok _ _ _ _ _ L4 X4 W4),
      (weighted_Ok _ _ _ _ _ L5 X5 W5), (weighted_Ok _ _ _ _ _ L6 X6 W6) in Hterms.
    simpl in Hterms. injection Hterms as <-.
    unfold weighted_sum, value_at, py_sum.
    rewrite L1, L2, L3, L4, L5, L6. simpl.
    rewrite X1, X2, X3, X4, X5, X6. simpl. lra.
Qed.

Lemma validate_and_aggregate_total d :
  convertible d -> exists v, _validate_and_aggregate d = Ok v.
Proof.
  intros Hconv. unfold _validate_and_aggregate.
  destruct (validate_criteria_total CRITERIA d) as [d1 H1].
  { intros c Hc. apply Hconv. apply elem_of_app. by left. }
  rewrite H1. simpl.
  pose proof (validate_criteria_Ok _ criteria_nodup _ _ H1) as [Hpost Hout].
  assert (exists d2, validate_confidence d1 = Ok d2) as [d2 H2].
  { unfold validate_confidence.
    rewrite (Hout "confidence") by apply confidence_not_criterion.
    destruct (d !! "confidence") as [v0|] eqn:E; [|eauto].
    destruct (Hconv "confidence" ltac:(unfold CRITERIA; in_list) v0 E) as [f ->].
    simpl. eauto. }
  rewrite H2. simpl.
  pose proof (validate_confidence_Ok _ _ H2) as [Hsame _].
  assert (Hval : forall c, c ∈ CRITERIA ->
            exists pv x, d2 !! c = Some pv /\ real_of pv = Some x).
  { intros c Hc. destruct (criterion_post_value _ _ _ (Hpost c Hc)) as (pv & x & Hl & Hx & _).
    exists pv, x. split; [|exact Hx].
    rewrite Hsame; [exact Hl|]. by apply criteria_not_reserved. }
  apply criteria_forall in Hval.
  destruct Hval as ((p1 & x1 & L1 & X1) & (p2 & x2 & L2 & X2)
    & (p3 & x3 & L3 & X3) & (p4 & x4 & L4 & X4)
    & (p5 & x5 & L5 & X5) & (p6 & x6 & L6 & X6)).
  pose proof weights_lookup as (W1 & W2 & W3 & W4 & W5 & W6).
  unfold CRITERIA. simpl.
  rewrite (weighted_Ok _ _ _ _ _ L1 X1 W1), (weighted_Ok _ _ _ _ _ L2 X2 W2),
    (weighted_Ok _ _ _ _ _ L3 X3 W3), (weighted_Ok _ _ _ _ _ L4 X4 W4),
    (weighted_Ok _ _ _ _ _ L5 X5 W5), (weighted_Ok _ _ _ _ _ L6 X6 W6).
  simpl. eauto.
Qed.

Lemma validate_and_aggregate_convertible d v :
  _validate_and_aggregate d = Ok v -> convertible d.
Proof.
  intros (d1 & d2 & x & H1 & H2 & Hpost & _)%validate_and_aggregate_Ok.
  pose proof (validate_criteria_Ok _ criteria_nodup _ _ H1) as [_ Hout].
  pose proof (validate_confidence_Ok _ _ H2) as [_ Hc].
  intros k [Hk| ->%list_elem_of_singleton]%elem_of_app v0 Hv0.
  - specialize (Hpost k Hk). unfold criterion_post in Hpost. rewrite Hv0 in Hpost.
    destruct Hpost as (f & Hf & _). eauto.
  - rewrite (Hout "confidence") in Hc by apply confidence_not_criterion.
    rewrite Hv0 in Hc. destruct Hc as (f & Hf & _). eauto.
Qed.

Lemma validate_and_aggregate_ok d v :
  _validate_and_aggregate d = Ok v -> verdict_ok v.
Proof.
  intros (d1 & d2 & x & H1 & H2 & Hpost & Hx & ->)%validate_and_aggregate_Ok.
  pose proof (validate_confidence_Ok _ _ H2) as [_ Hc].
  assert (exists pv c, d2 !! "confidence" = Some pv /\ real_of pv = Some c
                       /\ (0 <= c <= 1)%R) as (pv & c & Hl & Hr & Hrange).
  { destruct (d1 !! "confidence") as [v0|].
    - destruct Hc as (f & _ & Hl). eexists _, _. split; [exact Hl|]. split.
      + apply clamp_confidence_real.
      + apply clamp_to_range. lra.
    - exists (VFloat (FFin 0.5)), 0.5%R. repeat split; [done|lra|lra]. }
  exists (weighted_sum x), c. repeat split.
  - unfold aggregate_of, getitem. by rewrite lookup_insert_eq.
  - unfold confidence_of. rewrite lookup_insert_ne by done.
    rewrite Hl. unfold to_real. by rewrite Hr.
  - apply weighted_sum_range. intros k Hk. apply Hx, Hk.
  - apply weighted_sum_range. intros k Hk. apply Hx, Hk.
  - apply Hrange.
  - apply Hrange.
Qed.

(** C2.  The aggregator returns exactly on the dicts whose present rubric
    fields [float()] accepts.  In the verdict it returns, a criterion that
    was absent is 0, a criterion that was present is its [float()] value
    clamped into [0,5], and [aggregate_score] is the sum over the six
    criteria of value times weight, times 20: a number in [0,100], which
    is 100 when all six values are 5 and 0 when all six are 0. *)
Theorem validate_and_aggregate_post (result : dict) :
  ((exists v, _validate_and_aggregate result = Ok v) <-> convertible result) /\
  forall v, _validate_and_aggregate result = Ok v ->
    (forall c, c ∈ CRITERIA ->
       (result !! c = None -> v !! c = Some (VInt 0)) /\
       (forall v0, result !! c = Some v0 ->
          exists f, py_float v0 = Ok f /\ value_at v c = Some (clamp_to 0 5 f)) /\
       (exists x, value_at v c = Some x /\ (0 <= x <= 5)%R)) /\
    exists x : string -> R,
      (forall c, c ∈ CRITERIA -> value_at v c = Some (x c)) /\
      v !! "aggregate_score" = Some (VFloat (FFin (weighted_sum x))) /\
      (0 <= weighted_sum x <= 100)%R /\
      ((forall c, c ∈ CRITERIA -> x c = 5%R) -> weighted_sum x = 100%R) /\
      ((forall c, c ∈ CRITERIA -> x c = 0%R) -> weighted_sum x = 0%R).
Proof.
  split.
  { split.
    - intros [v Hv]. by eapply validate_and_aggregate_convertible.
    - apply validate_and_aggregate_total. }
  intros v Hv.
  destruct (validate_and_aggregate_Ok _ _ Hv)
    as (d1 & d2 & x & H1 & H2 & Hpost & Hx & ->).
  pose proof (validate_confidence_Ok _ _ H2) as [Hsame _].
  assert (Hlook : forall c, c ∈ CRITERIA ->
            (<["aggregate_score" := VFloat (FFin (weighted_sum x))]> d2 : dict) !! c
            = d1 !! c).
  { intros c Hc. destruct (criteria_not_reserved c Hc) as [Hn1 Hn2].
    rewrite lookup_insert_ne by done. by apply Hsame. }
  split.
  - intros c Hc. specialize (Hpost c Hc). unfold criterion_post in Hpost.
    repeat split.
    + intros Hnone. rewrite Hnone in Hpost. by rewrite Hlook.
    + intros v0 Hv0. rewrite Hv0 in Hpost. destruct Hpost as (f & Hf & Hl).
      exists f. split; [done|]. unfold value_at. rewrite Hlook, Hl by done.
      simpl. apply clamp_criterion_real.
    + exists (x c). destruct (Hx c Hc) as [Hv' Hr]. split; [|done].
      unfold value_at in *. rewrite Hlook by done.
      destruct (criteria_not_reserved c Hc) as [Hn1 Hn2].
      by rewrite <- Hsame.
  - exists x. repeat split.
    + intros c Hc. destruct (Hx c Hc) as [Hv' _].
      unfold value_at in *. rewrite Hlook by done.
      destruct (criteria_not_reserved c Hc) as [Hn1 Hn2].
      by rewrite <- Hsame.
    + by rewrite lookup_insert_eq.
    + apply weighted_sum_range. intros c Hc. apply Hx, Hc.
    + apply weighted_sum_range. intros c Hc. apply Hx, Hc.
    + intros H5. rewrite (weighted_sum_const x 5) by done. lra.
    + intros H0. rewrite (weighted_sum_const x 0) by done. lra.
Qed.

Lemma convertible_perfect : convertible perfect_reply.
Proof.
  intros k Hk v. each_field k Hk.
  all: intros Hv; vm_compute in Hv; injection Hv as <-.
  all: eexists; reflexivity.
Qed.

Lemma convertible_sloppy : convertible sloppy_reply.
Proof.
  intros k Hk v. each_field k Hk.
  all: intros Hv; vm_compute in Hv; try discriminate; injection Hv as <-.
  all: eexists; reflexivity.
Qed.

(** A reply with every criterion at or above 5 aggregates to 100. *)
Lemma perfect_reply_verdict :
  exists v, _validate_and_aggregate perfect_reply = Ok v /\
    aggregate_of v = Ok 100%R /\ confidence_of v = Ok 1%R.
Proof.
  destruct (validate_and_aggregate_total _ convertible_perfect) as [v Hv].
  exists v. split; [exact Hv|].
  destruct (validate_and_aggregate_Ok _ _ Hv)
    as (d1 & d2 & x & H1 & H2 & Hpost & Hx & ->).
  pose proof (validate_criteria_Ok _ criteria_nodup _ _ H1) as [_ Hout].
  pose proof (validate_confidence_Ok _ _ H2) as [Hsame Hc].
  split.
  - unfold aggregate_of, getitem. rewrite lookup_insert_eq. simpl.
    unfold to_real. simpl. f_equal.
    rewrite (weighted_sum_const x 5); [lra|].
    intros c Hc'. destruct (Hx c Hc') as [Hv' _].
    specialize (Hpost c Hc'). unfold criterion_post in Hpost.
    destruct (criteria_not_reserved c Hc') as [Hn1 Hn2].
    unfold value_at in Hv'. rewrite Hsame in Hv' by done.
    each_field c Hc'.
    all: vm_compute (perfect_reply !! _) in Hpost.
    all: destruct Hpost as (f & Hf & Hl); rewrite Hl in Hv'.
    all: vm_compute in Hf; injection Hf as <-.
    all: simpl in Hv'; rewrite clamp_criterion_real in Hv'; injection Hv' as <-.
    all: unfold clamp_to, Rmax, Rmin; case_cmp; lra.
  - unfold confidence_of. rewrite lookup_insert_ne by done.
    rewrite (Hout "confidence") in Hc by apply confidence_not_criterion.
    vm_compute (perfect_reply !! _) in Hc.
    destruct Hc as (f & Hf & ->). vm_compute in Hf. injection Hf as <-.
    unfold to_real. rewrite clamp_confidence_real. simpl. f_equal.
    unfold Rmax, Rmin; case_cmp; lra.
Qed.

(** C6, counterexample.  A reply whose criterion is a word, or whose
    confidence is null, makes the aggregator raise. *)
Lemma validate_and_aggregate_raises :
  _validate_and_aggregate {[ "comprehension" := VStr "high" ]}
  = Raise (ValueError "could not convert string to float: 'high'") /\
  _validate_and_aggregate {[ "confidence" := VNone ]}
  = Raise (TypeError
      "float() argument must be a string or a real number, not 'NoneType'").
Proof. split; vm_compute; reflexivity. Qed.

(** C6, amended.  The aggregator returns a completed verdict for every
    dict whose present criteria and confidence are values [float()]
    accepts, whatever is missing or out of range: a missing criterion
    becomes 0, a missing confidence 0.5, and what the ranking reads from
    the verdict is in range.  On every other dict it raises. *)
Theorem validate_and_aggregate_returns (result : dict) :
  (convertible result ->
   exists v, _validate_and_aggregate result = Ok v /\
     (forall c, c ∈ CRITERIA -> result !! c = None -> v !! c = Some (VInt 0)) /\
     (result !! "confidence" = None ->
      v !! "confidence" = Some (VFloat (FFin 0.5))) /\
     verdict_ok v) /\
  (~ convertible result -> exists e, _validate_and_aggregate result = Raise e).
Proof.
  split.
  - intros Hconv.
    destruct (validate_and_aggregate_total _ Hconv) as [v Hv].
    exists v. split; [exact Hv|].
    pose proof (validate_and_aggregate_ok _ _ Hv) as Hok.
    destruct (validate_and_aggregate_Ok _ _ Hv)
      as (d1 & d2 & x & H1 & H2 & Hpost & Hx & ->).
    pose proof (validate_criteria_Ok _ criteria_nodup _ _ H1) as [_ Hout].
    pose proof (validate_confidence_Ok _ _ H2) as [Hsame Hc].
    repeat split; [| |exact Hok].
    + intros c Hc' Hnone. specialize (Hpost c Hc'). unfold criterion_post in Hpost.
      rewrite Hnone in Hpost.
      destruct (criteria_not_reserved c Hc') as [Hn1 Hn2].
      rewrite lookup_insert_ne by done. by rewrite Hsame.
    + intros Hnone. rewrite lookup_insert_ne by done.
      rewrite (Hout "confidence") in Hc by apply confidence_not_criterion.
      by rewrite Hnone in Hc.
  - intros Hn. destruct (_validate_and_aggregate result) as [v|e] eqn:E; [|eauto].
    exfalso. apply Hn. by eapply validate_and_aggregate_convertible.
Qed.

Lemma validate_and_aggregate_returns_witness :
  convertible sloppy_reply /\
  exists v, _validate_and_aggregate sloppy_reply = Ok v /\ verdict_ok v.
Proof.
  split; [exact convertible_sloppy|].
  destruct (proj1 (validate_and_aggregate_returns sloppy_reply) convertible_sloppy)
    as (v & Hv & _ & _ & Hok).
  exists v. split; assumption.
Defined.

(** ** The scorer *)

Lemma score_review_hit self a t w v :
  _get_cached w (_cache_key self a t) = Some v ->
  score_review self a t true w = (v, w).
Proof. intros H. unfold score_review. by rewrite H. Qed.

Lemma score_review_miss self a t use_cache w :
  (use_cache = true -> _get_cached w (_cache_key self a t) = None) ->
  score_review self a t use_cache w =
    let w1 := {| cache := cache w; calls := user_prompt a t :: calls w |} in
    match client self (length (calls w)) (user_prompt a t)
          ≫= _validate_and_aggregate with
    | Ok score_data =>
        (score_data,
         if use_cache then _save_cache w1 (_cache_key self a t) score_data else w1)
    | Raise e => (error_verdict e, w1)
    end.
Proof.
  intros H. unfold score_review.
  destruct use_cache; [rewrite H by done|]; reflexivity.
Qed.

Lemma error_verdict_fields e :
  (forall c, c ∈ CRITERIA -> error_verdict e !! c = Some (VInt 0)) /\
  error_verdict e !! "confidence" = Some (VFloat (FFin 0.0)) /\
  error_verdict e !! "aggregate_score" = Some (VFloat (FFin 0.0)) /\
  error_verdict e !! "error" = Some (VStr (exn_str e)) /\
  error_verdict e !! "justification"
    = Some (VStr ("Error during scoring: " ++ exn_str e)).
Proof.
  split; [apply criteria_forall|]; repeat split; reflexivity.
Qed.

Lemma error_verdict_ok e : verdict_ok (error_verdict e).
Proof.
  exists 0.0%R, 0.0%R. repeat split; try lra; reflexivity.
Qed.

Lemma empty_verdict_ok : verdict_ok empty_verdict.
Proof.
  exists 0.0%R, 0.0%R. repeat split; try lra; reflexivity.
Qed.

Lemma cache_wf_empty : cache_wf ∅.
Proof. intros k v. by rewrite lookup_empty. Qed.

Lemma cache_wf_insert c k v :
  cache_wf c -> verdict_ok v -> cache_wf (<[k := v]> c).
Proof.
  intros Hc Hv k' v'. rewrite lookup_insert. case_decide.
  - by intros [= <-].
  - apply Hc.
Qed.

Lemma score_review_ok self a t use_cache w :
  cache_wf (cache w) ->
  verdict_ok (fst (score_review self a t use_cache w)) /\
  cache_wf (cache (snd (score_review self a t use_cache w))).
Proof.
  intros Hwf.
  destruct use_cache.
  - destruct (_get_cached w (_cache_key self a t)) as [v|] eqn:E.
    + rewrite (score_review_hit _ _ _ _ _ E). simpl. split; [|done].
      by apply (Hwf _ _ E).
    + rewrite score_review_miss by done. simpl.
      destruct (_ ≫= _) as [v|e] eqn:Ev; simpl.
      * apply bind_Ok in Ev as (d & _ & Hv).
        apply validate_and_aggregate_ok in Hv.
        split; [done|]. by apply cache_wf_insert.
      * split; [apply error_verdict_ok|done].
  - rewrite score_review_miss by done. simpl.
    destruct (_ ≫= _) as [v|e] eqn:Ev; simpl.
    + apply bind_Ok in Ev as (d & _ & Hv).
      apply validate_and_aggregate_ok in Hv. by split.
    + split; [apply error_verdict_ok|done].
Qed.

(** C7.  When the try block of [score_review] raises [e] (the oracle call
    fails or times out, its content does not parse, or the aggregator
    rejects the parsed reply), the verdict returned is the fallback: six
    criteria 0, confidence 0.0, aggregate_score 0.0, [error] the text of
    [e] and a justification that quotes it; and the cache is left as it
    was. *)
Theorem score_review_fallback self a t use_cache w e :
  (use_cache = true -> _get_cached w (_cache_key self a t) = None) ->
  client self (length (calls w)) (user_prompt a t) ≫= _validate_and_aggregate
    = Raise e ->
  let verdict := fst (score_review self a t use_cache w) in
  let w' := snd (score_review self a t use_cache w) in
  verdict = error_verdict e /\
  (forall c, c ∈ CRITERIA -> verdict !! c = Some (VInt 0)) /\
  verdict !! "confidence" = Some (VFloat (FFin 0.0)) /\
  verdict !! "aggregate_score" = Some (VFloat (FFin 0.0)) /\
  verdict !! "error" = Some (VStr (exn_str e)) /\
  verdict !! "justification"
    = Some (VStr ("Error during scoring: " ++ exn_str e)) /\
  cache w' = cache w /\
  calls w' = user_prompt a t :: calls w.
Proof.
  intros Hmiss Hraise. rewrite (score_review_miss _ _ _ _ _ Hmiss), Hraise.
  simpl. split; [reflexivity|]. pose proof (error_verdict_fields e). tauto.
Qed.

Lemma score_review_fallback_witness :
  fst (score_review offline "An abstract." "A review." true world0)
  = error_verdict (OracleError "Request timed out.") /\
  cache (snd (score_review offline "An abstract." "A review." true world0)) = ∅.
Proof.
  pose proof (score_review_fallback offline "An abstract." "A review." true world0
                (OracleError "Request timed out.")) as H.
  simpl in H. destruct H as (H1 & _ & _ & _ & _ & _ & H2 & _).
  - intros _. apply lookup_empty.
  - reflexivity.
  - split; [exact H1 | exact H2].
Defined.

(** C4, counterexample.  The first request times out, so nothing is
    cached, and scoring the same review again asks the oracle again: two
    requests, not one. *)
Lemma uncached_fallback_asks_twice :
  let w1 := snd (score_review flaky "An abstract." "A review." true world0) in
  let w2 := snd (score_review flaky "An abstract." "A review." true w1) in
  _get_cached w1 (_cache_key flaky "An abstract." "A review.") = None /\
  length (calls w2) = 2.
Proof.
  set (p := user_prompt "An abstract." "A review.").
  set (w1 := {| cache := ∅; calls := [p] |}).
  assert (H1 : score_review flaky "An abstract." "A review." true world0
               = (error_verdict (OracleError "Request timed out."), w1)).
  { rewrite score_review_miss by (intros _; apply lookup_empty). reflexivity. }
  rewrite H1. cbn [snd].
  assert (Hmiss : _get_cached w1 (_cache_key flaky "An abstract." "A review.") = None)
    by apply lookup_empty.
  split; [exact Hmiss|].
  rewrite score_review_miss by done.
  destruct perfect_reply_verdict as (v & Hv & _).
  cbn [client flaky calls w1 length mbind result_bind].
  rewrite Hv. reflexivity.
Qed.

(** C4, amended.  Starting from a cache without the key, if the first
    call's request is answered and the aggregator accepts the answer, then
    scoring the same review twice sends exactly one request: the first
    call stores its verdict under the key, and the second returns that
    stored verdict and changes nothing.  And whenever the key is in the
    cache, the stored verdict is returned without a request. *)
Theorem cache_round_trip self a t w d v :
  _get_cached w (_cache_key self a t) = None ->
  client self (length (calls w)) (user_prompt a t) = Ok d ->
  _validate_and_aggregate d = Ok v ->
  let r1 := score_review self a t true w in
  let r2 := score_review self a t true (snd r1) in
  fst r1 = v /\
  _get_cached (snd r1) (_cache_key self a t) = Some v /\
  fst r2 = v /\
  snd r2 = snd r1 /\
  calls (snd r2) = user_prompt a t :: calls w /\
  (forall w0 v0, _get_cached w0 (_cache_key self a t) = Some v0 ->
     score_review self a t true w0 = (v0, w0)).
Proof.
  intros Hmiss Hreply Hv.
  assert (Hr1 : score_review self a t true w =
    (v, _save_cache {| cache := cache w; calls := user_prompt a t :: calls w |}
          (_cache_key self a t) v)).
  { rewrite score_review_miss by done. rewrite Hreply. simpl. by rewrite Hv. }
  assert (Hhit : _get_cached (snd (score_review self a t true w))
                   (_cache_key self a t) = Some v).
  { rewrite Hr1. unfold _get_cached, _save_cache. simpl. apply lookup_insert_eq. }
  simpl. rewrite (score_review_hit _ _ _ _ _ Hhit).
  rewrite Hr1 in *. simpl. repeat split; try done.
  intros w0 v0. apply score_review_hit.
Qed.

Lemma cache_round_trip_witness :
  exists v,
    fst (score_review steady "An abstract." "A review." true world0) = v /\
    calls (snd (score_review steady "An abstract." "A review." true
             (snd (score_review steady "An abstract." "A review." true world0))))
    = [user_prompt "An abstract." "A review."].
Proof.
  destruct perfect_reply_verdict as (v & Hv & _).
  exists v.
  pose proof (cache_round_trip steady "An abstract." "A review." world0
                perfect_reply v) as H.
  simpl in H. destruct H as (H1 & _ & _ & _ & H2 & _).
  - apply lookup_empty.
  - reflexivity.
  - exact Hv.
  - split; [exact H1 | exact H2].
Defined.

(** ** Scoring the reviews of one paper *)

Lemma sfp_length self a rvs : forall w,
  length (fst (score_reviews_for_paper self a rvs w)) = length rvs.
Proof.
  induction rvs as [|rv rvs IH]; intros w; simpl; [done|].
  destruct (no_text (entry_text rv)).
  - specialize (IH w). destruct (score_reviews_for_paper self a rvs w). simpl in *. lia.
  - destruct (score_review _ _ _ _ _) as [score w1].
    specialize (IH w1). destruct (score_reviews_for_paper self a rvs w1). simpl in *. lia.
Qed.

Lemma sfp_no_text self a rvs : forall w i rv,
  rvs !! i = Some rv -> no_text (entry_text rv) = true ->
  fst (score_reviews_for_paper self a rvs w) !! i = Some empty_verdict.
Proof.
  induction rvs as [|rv0 rvs IH]; intros w i rv Hi Hno; [done|]. simpl.
  destruct i as [|i]; simpl in Hi.
  - injection Hi as ->. rewrite Hno.
    by destruct (score_reviews_for_paper self a rvs w).
  - destruct (no_text (entry_text rv0)).
    + specialize (IH w i rv Hi Hno).
      by destruct (score_reviews_for_paper self a rvs w).
    + destruct (score_review _ _ _ _ _) as [score w1].
      specialize (IH w1 i rv Hi Hno).
      by destruct (score_reviews_for_paper self a rvs w1).
Qed.

(** Reviews without text leave no trace in the world. *)
Lemma sfp_skips_no_text self a rvs : forall w,
  snd (score_reviews_for_paper self a rvs w)
  = snd (score_reviews_for_paper self a (List.filter has_text rvs) w).
Proof.
  induction rvs as [|rv rvs IH]; intros w; simpl; [done|].
  unfold has_text at 1. destruct (no_text (entry_text rv)) eqn:E; simpl.
  - specialize (IH w).
    by destruct (score_reviews_for_paper self a rvs w),
         (score_reviews_for_paper self a (List.filter has_text rvs) w).
  - rewrite E. destruct (score_review _ _ _ _ _) as [score w1].
    specialize (IH w1).
    by destruct (score_reviews_for_paper self a rvs w1),
         (score_reviews_for_paper self a (List.filter has_text rvs) w1).
Qed.

Lemma score_review_calls self a t use_cache w :
  exists new, calls (snd (score_review self a t use_cache w)) = new ++ calls w
              /\ length new <= 1.
Proof.
  unfold score_review.
  destruct (if use_cache then _ else _) as [v|].
  - exists []. simpl. split; [done|lia].
  - exists [user_prompt a t]. simpl.
    destruct (_ ≫= _); [destruct use_cache|]; simpl; split; (done || lia).
Qed.

Lemma sfp_calls self a rvs : forall w,
  exists new, calls (snd (score_reviews_for_paper self a rvs w)) = new ++ calls w
              /\ length new <= length (List.filter has_text rvs).
Proof.
  induction rvs as [|rv rvs IH]; intros w; simpl.
  - exists []. split; [done|simpl; lia].
  - unfold has_text at 1. destruct (no_text (entry_text rv)); simpl.
    + destruct (IH w) as (new & Hnew & Hlen).
      destruct (score_reviews_for_paper self a rvs w). by exists new.
    + destruct (score_review_calls self a (default "" (entry_text rv)) true w)
        as (n1 & Hn1 & Hl1).
      destruct (score_review _ _ _ _ _) as [score w1]. simpl in Hn1.
      destruct (IH w1) as (new & Hnew & Hlen).
      destruct (score_reviews_for_paper self a rvs w1). simpl in *.
      exists (new ++ n1). rewrite Hnew, Hn1, <- app_assoc. split; [done|].
      rewrite length_app. lia.
Qed.

Lemma sfp_ok self a rvs : forall w,
  cache_wf (cache w) ->
  Forall verdict_ok (fst (score_reviews_for_paper self a rvs w)) /\
  cache_wf (cache (snd (score_reviews_for_paper self a rvs w))).
Proof.
  induction rvs as [|rv rvs IH]; intros w Hwf; simpl; [by split|].
  destruct (no_text (entry_text rv)).
  - destruct (IH w Hwf) as [Hs Hc].
    destruct (score_reviews_for_paper self a rvs w). simpl in *.
    split; [|done]. constructor; [apply empty_verdict_ok|done].
  - destruct (score_review_ok self a (default "" (entry_text rv)) true w Hwf)
      as [Hv Hw1].
    destruct (score_review _ _ _ _ _) as [score w1]. simpl in *.
    destruct (IH w1 Hw1) as [Hs Hc].
    destruct (score_reviews_for_paper self a rvs w1). simpl in *.
    split; [|done]. by constructor.
Qed.

(** ** Sorting *)

Section argsort.
Variable xs : list R.

Lemma insert_index_perm i sorted : insert_index xs i sorted ≡ₚ i :: sorted.
Proof.
  induction sorted as [|j rest IH]; simpl; [done|].
  case_decide; [done|]. rewrite IH. apply Permutation_swap.
Qed.

Lemma insert_index_sorted i sorted :
  StronglySorted (key_le xs) sorted -> StronglySorted (key_le xs) (insert_index xs i sorted).
Proof.
  induction 1 as [|j rest Hrest IH Hj]; simpl.
  - repeat constructor.
  - case_decide as Hlt.
    + constructor; [by constructor|].
      constructor; [unfold key_le, key; lra|].
      eapply Forall_impl; [exact Hj|]. unfold key_le, key. intros k Hk. lra.
    + constructor; [done|].
      rewrite insert_index_perm. constructor; [unfold key_le, key; lra|done].
Qed.

Lemma fold_insert_perm l : forall acc,
  fold_left (fun sorted i => insert_index xs i sorted) l acc ≡ₚ l ++ acc.
Proof.
  induction l as [|i l IH]; intros acc; simpl; [done|].
  rewrite IH, insert_index_perm. symmetry. apply Permutation_middle.
Qed.

Lemma fold_insert_sorted l : forall acc,
  StronglySorted (key_le xs) acc ->
  StronglySorted (key_le xs) (fold_left (fun sorted i => insert_index xs i sorted) l acc).
Proof.
  induction l as [|i l IH]; intros acc Hacc; simpl; [done|].
  apply IH. by apply insert_index_sorted.
Qed.

Lemma argsort_perm : argsort xs ≡ₚ seq 0 (length xs).
Proof. unfold argsort. rewrite fold_insert_perm. by rewrite app_nil_r. Qed.

Lemma argsort_sorted : StronglySorted (key_le xs) (argsort xs).
Proof. apply fold_insert_sorted. constructor. Qed.
End argsort.

Lemma StronglySorted_rev {A} (R : relation A) l :
  StronglySorted R l -> StronglySorted (flip R) (rev l).
Proof.
  induction 1 as [|x l Hl IH Hx]; simpl; [constructor|].
  apply StronglySorted_app_2; [|done|repeat constructor].
  intros y z Hy ->%list_elem_of_singleton. unfold flip.
  rewrite Forall_forall in Hx. apply Hx.
  apply list_elem_of_In. apply list_elem_of_In in Hy. by apply in_rev.
Qed.

Lemma StronglySorted_lookup {A} (R : relation A) l a b x y :
  StronglySorted R l -> a < b -> l !! a = Some x -> l !! b = Some y -> R x y.
Proof.
  intros Hs. revert a b. induction Hs as [|z l Hl IH Hz]; intros a b Hab Ha Hb; [done|].
  destruct b as [|b]; [lia|]. simpl in Hb.
  destruct a as [|a]; simpl in Ha.
  - injection Ha as ->. rewrite Forall_forall in Hz. apply Hz.
    by eapply list_elem_of_lookup_2.
  - eapply (IH a b); [lia|done|done].
Qed.

(** The ranking of a group: a permutation of its positions, by descending
    aggregate. *)
Lemma ranked_perm aggs : rev (argsort aggs) ≡ₚ seq 0 (length aggs).
Proof. rewrite <- Permutation_rev. apply argsort_perm. Qed.

Lemma ranked_descending aggs a b ia ib :
  a <= b -> rev (argsort aggs) !! a = Some ia -> rev (argsort aggs) !! b = Some ib ->
  (nth ib aggs 0 <= nth ia aggs 0)%R.
Proof.
  intros Hab Ha Hb.
  destruct (decide (a = b)) as [->|Hne].
  - rewrite Ha in Hb. injection Hb as ->. lra.
  - pose proof (StronglySorted_rev _ _ (argsort_sorted aggs)) as Hs.
    apply (StronglySorted_lookup _ _ a b ia ib Hs); [lia|done|done].
Qed.

(** ** Ranking one group *)

Lemma item_Ok {A} (l : list A) i a : item l i = Ok a <-> l !! i = Some a.
Proof. unfold item. destruct (l !! i); split; congruence. Qed.

Lemma reward_step_Ok rvs scores rew resp rank idx rew' resp' :
  reward_step rvs scores (rew, resp) (rank, idx) = Ok (rew', resp') ->
  exists rv score a c s,
    rvs !! idx = Some rv /\ scores !! idx = Some score /\
    aggregate_of score = Ok a /\ confidence_of score = Ok c /\
    resp !! miner_uid rv = Some s /\ miner_uid rv < length rew /\
    rew' = <[miner_uid rv := (a * decay rank * c)%R]> rew /\
    resp' = <[miner_uid rv := write_back s score (a * decay rank * c)]> resp.
Proof.
  unfold reward_step.
  intros (rv & Hrv%item_Ok & (score & Hs%item_Ok & (a & Ha & (c & Hc
    & (s & Hsy%item_Ok & H)%bind_Ok)%bind_Ok)%bind_Ok)%bind_Ok)%bind_Ok.
  case_decide as Hlt; [|discriminate]. injection H as <- <-.
  exists rv, score, a, c, s. repeat split; done.
Qed.

Lemma reward_step_total rvs scores rew resp rank idx rv score s :
  rvs !! idx = Some rv -> scores !! idx = Some score -> verdict_ok score ->
  resp !! miner_uid rv = Some s -> miner_uid rv < length rew ->
  exists st, reward_step rvs scores (rew, resp) (rank, idx) = Ok st.
Proof.
  intros Hrv Hs (a & c & Ha & Hc & _) Hsy Hlt. unfold reward_step, item.
  rewrite Hrv, Hs. simpl. rewrite Ha, Hc. simpl. rewrite Hsy. simpl.
  rewrite decide_True by done. eauto.
Qed.

Lemma uid_inj (rvs : list review) i j a b :
  NoDup (miner_uid <$> rvs) -> rvs !! i = Some a -> rvs !! j = Some b ->
  miner_uid a = miner_uid b -> i = j.
Proof.
  intros Hnd Ha Hb Heq.
  apply (NoDup_lookup _ i j (miner_uid a) Hnd).
  - by rewrite list_lookup_fmap, Ha.
  - by rewrite list_lookup_fmap, Hb, Heq.
Qed.

(** What one group's loop over the ranking leaves behind, stated for the
    ranks from [k] on. *)
Lemma reward_loop_spec rvs scores : NoDup (miner_uid <$> rvs) ->
  forall l k rew resp rew' resp',
  NoDup l ->
  foldM (reward_step rvs scores) (rew, resp) (combine (seq k (length l)) l)
    = Ok (rew', resp') ->
  length rew' = length rew /\ length resp' = length resp /\
  (forall j, (forall idx rv, idx ∈ l -> rvs !! idx = Some rv -> miner_uid rv <> j) ->
     rew' !! j = rew !! j /\ resp' !! j = resp !! j) /\
  (forall pos idx rv, l !! pos = Some idx -> rvs !! idx = Some rv ->
     exists score a c s,
       scores !! idx = Some score /\ aggregate_of score = Ok a /\
       confidence_of score = Ok c /\ resp !! miner_uid rv = Some s /\
       rew' !! miner_uid rv = Some (a * decay (k + pos) * c)%R /\
       resp' !! miner_uid rv
         = Some (write_back s score (a * decay (k + pos) * c))).
Proof.
  intros Hinj. induction l as [|idx l IH]; intros k rew resp rew' resp' Hnd; simpl.
  - intros [= <- <-]. repeat split; try done.
  - intros ([rew1 resp1] & Hstep & Hrest)%bind_Ok.
    apply NoDup_cons in Hnd as [Hidx Hnd].
    apply reward_step_Ok in Hstep
      as (rv & score & a & c & s & Hrv & Hs & Ha & Hc & Hsy & Hlt & -> & ->).
    apply (IH (S k)) in Hrest as (Hl1 & Hl2 & Hout & Hin); [|done].
    rewrite !length_insert in *.
    assert (Hkeep : forall idx' rv', idx' ∈ l -> rvs !! idx' = Some rv' ->
                      miner_uid rv' <> miner_uid rv).
    { intros idx' rv' Hin' Hrv' Heq.
      assert (idx' = idx) by (eapply uid_inj; eauto). by subst. }
    split; [done|]. split; [done|]. split.
    + intros j Hj.
      destruct (Hout j) as [E1 E2].
      { intros idx' rv' Hin'. apply Hj. by apply list_elem_of_further. }
      assert (miner_uid rv <> j) by (apply (Hj idx); [apply list_elem_of_here|done]).
      rewrite E1, E2, !list_lookup_insert_ne by done. done.
    + intros pos idx' rv' Hpos Hrv'. destruct pos as [|pos]; simpl in Hpos.
      * injection Hpos as <-. rewrite Hrv in Hrv'. injection Hrv' as <-.
        exists score, a, c, s. rewrite Nat.add_0_r.
        destruct (Hout (miner_uid rv) Hkeep) as [E1 E2]. rewrite E1, E2.
        rewrite !list_lookup_insert_eq; [done| |done].
        by eapply lookup_lt_Some.
      * destruct (Hin pos idx' rv' Hpos Hrv')
          as (score' & a' & c' & s' & Hs' & Ha' & Hc' & Hsy' & Hr' & Hw').
        assert (miner_uid rv' <> miner_uid rv).
        { apply (Hkeep idx'); [|done]. by eapply list_elem_of_lookup_2. }
        rewrite list_lookup_insert_ne in Hsy' by done.
        exists score', a', c', s'.
        replace (k + S pos) with (S k + pos) by lia. done.
Qed.

Lemma reward_loop_total rvs scores : 
  forall l k rew resp,
  length rew = length resp ->
  (forall idx, idx ∈ l -> exists rv score,
     rvs !! idx = Some rv /\ scores !! idx = Some score /\ verdict_ok score /\
     miner_uid rv < length rew) ->
  exists st, foldM (reward_step rvs scores) (rew, resp)
               (combine (seq k (length l)) l) = Ok st.
Proof.
  induction l as [|idx l IH]; intros k rew resp Hlen Hall; [simpl; eauto|].
  cbn [length seq combine foldM].
  destruct (Hall idx) as (rv & score & Hrv & Hs & Hok & Hlt); [apply list_elem_of_here|].
  destruct (lookup_lt_is_Some_2 resp (miner_uid rv)) as [s Hsy]; [lia|].
  destruct (reward_step_total rvs scores rew resp k idx rv score s)
    as [[rew1 resp1] Hstep]; try done.
  rewrite Hstep. simpl.
  apply reward_step_Ok in Hstep
    as (rv' & score' & a & c & s' & _ & _ & _ & _ & _ & _ & -> & ->).
  apply IH.
  - by rewrite !length_insert.
  - intros idx' Hin. rewrite length_insert.
    apply Hall. by apply list_elem_of_further.
Qed.

Lemma mapM_Ok {A B} (f : A -> outcome B) l ys :
  mapM f l = Ok ys ->
  length ys = length l /\
  forall i x, l !! i = Some x -> exists y, ys !! i = Some y /\ f x = Ok y.
Proof.
  revert ys. induction l as [|x l IH]; intros ys; simpl.
  - intros [= <-]. split; [done|]. intros i x Hx. by rewrite lookup_nil in Hx.
  - intros (y & Hy & (ys' & Hys & [= <-])%bind_Ok)%bind_Ok.
    destruct (IH _ Hys) as [Hlen Hl]. split; [simpl; lia|].
    intros [|i] x'; simpl.
    + intros [= <-]. eauto.
    + apply Hl.
Qed.

Lemma mapM_total {A B} (f : A -> outcome B) l :
  (forall x, x ∈ l -> exists y, f x = Ok y) -> exists ys, mapM f l = Ok ys.
Proof.
  induction l as [|x l IH]; intros Hall; simpl; [eauto|].
  destruct (Hall x) as [y Hy]; [apply list_elem_of_here|]. rewrite Hy. simpl.
  destruct IH as [ys Hys].
  { intros x' Hin. apply Hall. by apply list_elem_of_further. }
  rewrite Hys. simpl. eauto.
Qed.

Lemma rank_group_Ok scores ranked :
  rank_group scores = Ok ranked ->
  ranked ≡ₚ seq 0 (length scores) /\
  forall a b ia ib sa sb xa xb,
    a <= b -> ranked !! a = Some ia -> ranked !! b = Some ib ->
    scores !! ia = Some sa -> scores !! ib = Some sb ->
    aggregate_of sa = Ok xa -> aggregate_of sb = Ok xb -> (xb <= xa)%R.
Proof.
  unfold rank_group. intros (aggs & Haggs & [= <-])%bind_Ok.
  destruct (mapM_Ok _ _ _ Haggs) as [Hlen Hl]. split.
  - rewrite <- Hlen. apply ranked_perm.
  - intros a b ia ib sa sb xa xb Hab Ha Hb Hsa Hsb Hxa Hxb.
    pose proof (ranked_descending aggs a b ia ib Hab Ha Hb) as Hle.
    destruct (Hl ia sa Hsa) as (ya & Hya & Hfa).
    destruct (Hl ib sb Hsb) as (yb & Hyb & Hfb).
    rewrite Hxa in Hfa. rewrite Hxb in Hfb. injection Hfa as <-. injection Hfb as <-.
    by rewrite (nth_lookup_Some _ _ _ _ Hya), (nth_lookup_Some _ _ _ _ Hyb) in Hle.
Qed.

Lemma rank_group_total scores :
  Forall verdict_ok scores -> exists ranked, rank_group scores = Ok ranked.
Proof.
  intros Hok. unfold rank_group.
  destruct (mapM_total aggregate_of scores) as [aggs ->]; [|simpl; eauto].
  intros s Hs. rewrite Forall_forall in Hok.
  destruct (Hok s Hs) as (a & _ & Ha & _). eauto.
Qed.

Lemma score_group_spec scorer md w rew resp pid rvs w' rew' resp' :
  NoDup (miner_uid <$> rvs) ->
  score_group scorer md (w, rew, resp) (pid, rvs) = Ok (w', rew', resp') ->
  w' = snd (score_reviews_for_paper scorer (paper_context md pid) rvs w) /\
  length rew' = length rew /\ length resp' = length resp /\
  (forall j, j ∉ miner_uid <$> rvs -> rew' !! j = rew !! j /\ resp' !! j = resp !! j) /\
  group_scored scorer md pid rvs resp w rew' resp'.
Proof.
  intros Hnd. unfold score_group, group_scored.
  destruct (score_reviews_for_paper _ _ _ _) as [scores w1] eqn:Esfp. simpl.
  intros (ranked & Hranked & ([rew1 resp1] & Hloop & [= <- <- <-])%bind_Ok)%bind_Ok.
  destruct (rank_group_Ok _ _ Hranked) as [Hperm _].
  unfold enumerate in Hloop.
  destruct (reward_loop_spec rvs scores Hnd ranked 0 rew resp rew1 resp1)
    as (Hl1 & Hl2 & Hout & Hin); [|done|].
  { rewrite Hperm. apply NoDup_seq. }
  repeat split; try done.
  - apply Hout. intros idx rv _ Hrv <-. apply H.
    apply list_elem_of_fmap. exists rv. split; [done|]. by eapply list_elem_of_lookup_2.
  - apply Hout. intros idx rv _ Hrv <-. apply H.
    apply list_elem_of_fmap. exists rv. split; [done|]. by eapply list_elem_of_lookup_2.
  - exists ranked. split; [done|]. intros rank idx rv Hr Hrv.
    destruct (Hin rank idx rv Hr Hrv) as (score & a & c & s & ?). 
    exists score, a, c, s. simpl in *. done.
Qed.

Lemma score_group_total scorer md w rew resp pid rvs :
  cache_wf (cache w) -> length rew = length resp ->
  (forall rv, rv ∈ rvs -> miner_uid rv < length rew) ->
  exists st, score_group scorer md (w, rew, resp) (pid, rvs) = Ok st.
Proof.
  intros Hwf Hlen Hlt. unfold score_group.
  pose proof (sfp_ok scorer (paper_context md pid) rvs w Hwf) as [Hok _].
  pose proof (sfp_length scorer (paper_context md pid) rvs w) as Hslen.
  destruct (score_reviews_for_paper _ _ _ _) as [scores w1]. simpl in *.
  destruct (rank_group_total scores Hok) as [ranked Hranked].
  rewrite Hranked. simpl.
  destruct (rank_group_Ok _ _ Hranked) as [Hperm _].
  destruct (reward_loop_total rvs scores ranked 0 rew resp Hlen) as [[rew1 resp1] Hloop].
  - intros idx Hidx. rewrite Hperm in Hidx. apply elem_of_seq in Hidx.
    destruct (lookup_lt_is_Some_2 rvs idx) as [rv Hrv]; [lia|].
    destruct (lookup_lt_is_Some_2 scores idx) as [score Hs]; [lia|].
    exists rv, score. repeat split; try done.
    + rewrite Forall_forall in Hok. apply Hok. by eapply list_elem_of_lookup_2.
    + apply Hlt. by eapply list_elem_of_lookup_2.
  - unfold enumerate. rewrite Hloop. simpl. eauto.
Qed.

(** ** The loop over the groups *)

Lemma group_scored_frame scorer md pid rvs resp0 resp1 wk rew1 rew2 rsp1 rsp2 :
  (forall j, j ∈ miner_uid <$> rvs -> resp1 !! j = resp0 !! j) ->
  (forall j, j ∈ miner_uid <$> rvs -> rew2 !! j = rew1 !! j /\ rsp2 !! j = rsp1 !! j) ->
  group_scored scorer md pid rvs resp1 wk rew1 rsp1 ->
  group_scored scorer md pid rvs resp0 wk rew2 rsp2.
Proof.
  intros H0 H2 (ranked & Hranked & Hall). exists ranked. split; [done|].
  intros rank idx rv Hr Hrv.
  destruct (Hall rank idx rv Hr Hrv) as (score & a & c & s & Hs & Ha & Hc & Hsy & Hw & Hb).
  assert (Hin : miner_uid rv ∈ miner_uid <$> rvs).
  { apply list_elem_of_fmap. exists rv. split; [done|]. by eapply list_elem_of_lookup_2. }
  exists score, a, c, s. destruct (H2 _ Hin) as [E1 E2].
  rewrite E1, E2, <- (H0 _ Hin). done.
Qed.

Lemma score_groups_spec scorer md gs : forall w rew resp w' rew' resp',
  NoDup (uids_of gs) ->
  foldM (score_group scorer md) (w, rew, resp) gs = Ok (w', rew', resp') ->
  length rew' = length rew /\ length resp' = length resp /\
  (forall j, j ∉ uids_of gs -> rew' !! j = rew !! j /\ resp' !! j = resp !! j) /\
  (cache_wf (cache w) -> cache_wf (cache w')) /\
  (forall pid rvs, (pid, rvs) ∈ gs ->
     exists wk, (cache_wf (cache w) -> cache_wf (cache wk)) /\
       group_scored scorer md pid rvs resp wk rew' resp').
Proof.
  induction gs as [|[pid rvs] gs IH]; intros w rew resp w' rew' resp' Hnd; simpl.
  - intros [= <- <- <-]. repeat split; try done. intros pid rvs []%elem_of_nil.
  - intros ([[w1 rew1] resp1] & Hstep & Hrest)%bind_Ok.
    unfold uids_of in Hnd. simpl in Hnd. fold (uids_of gs) in Hnd.
    apply NoDup_app in Hnd as (Hnd1 & Hdisj & Hnd2).
    apply score_group_spec in Hstep as (Hw1 & Hl1 & Hl2 & Hout1 & Hsc1); [|done].
    apply IH in Hrest as (Hl3 & Hl4 & Hout2 & Hwf2 & Hsc2); [|done].
    assert (Hwf1 : cache_wf (cache w) -> cache_wf (cache w1)).
    { intros Hwf. rewrite Hw1. by apply sfp_ok. }
    split; [lia|]. split; [lia|]. split; [|split].
    + intros j Hj. unfold uids_of in Hj. simpl in Hj. fold (uids_of gs) in Hj.
      apply not_elem_of_app in Hj as [Hj1 Hj2].
      destruct (Hout2 j Hj2) as [E1 E2]. destruct (Hout1 j Hj1) as [E3 E4].
      by rewrite E1, E2.
    + auto.
    + intros pid' rvs' [[= -> ->]|Hin]%elem_of_cons.
      * exists w. split; [done|].
        eapply group_scored_frame; [ | |exact Hsc1]; [done|].
        intros j Hj. apply Hout2. by apply Hdisj.
      * destruct (Hsc2 pid' rvs' Hin) as (wk & Hwk & Hsc).
        exists wk. split; [auto|].
        eapply group_scored_frame; [ | |exact Hsc]; [|done].
        intros j Hj. apply Hout1. intros Hj1. apply (Hdisj j Hj1).
        unfold uids_of. apply list_elem_of_bind. exists (pid', rvs'). by split.
Qed.

Lemma score_groups_total scorer md gs : forall w rew resp,
  NoDup (uids_of gs) ->
  cache_wf (cache w) -> length rew = length resp ->
  (forall j, j ∈ uids_of gs -> j < length rew) ->
  exists st, foldM (score_group scorer md) (w, rew, resp) gs = Ok st.
Proof.
  induction gs as [|[pid rvs] gs IH]; intros w rew resp Hnd Hwf Hlen Hlt;
    [simpl; eauto|].
  cbn [foldM].
  unfold uids_of in Hnd, Hlt. simpl in Hnd, Hlt. fold (uids_of gs) in Hnd, Hlt.
  apply NoDup_app in Hnd as (Hnd1 & Hdisj & Hnd2).
  destruct (score_group_total scorer md w rew resp pid rvs Hwf Hlen)
    as [[[w1 rew1] resp1] Hstep].
  { intros rv Hrv. apply Hlt. apply elem_of_app. left. by apply list_elem_of_fmap_2. }
  rewrite Hstep. simpl.
  apply score_group_spec in Hstep as (Hw1 & Hl1 & Hl2 & _ & _); [|done].
  apply IH; [done| |lia|].
  - rewrite Hw1. by apply sfp_ok.
  - intros j Hj. rewrite Hl1. apply Hlt. apply elem_of_app. by right.
Qed.

(** ** Grouping *)

Lemma assoc_setdefault gs pid rv pid' :
  assoc (setdefault_append gs pid rv) pid'
  = if decide (pid' = pid) then Some (default [] (assoc gs pid) ++ [rv])
    else assoc gs pid'.
Proof.
  induction gs as [|[k rvs] gs IH]; simpl.
  - repeat case_decide; congruence.
  - repeat (case_decide; simpl; subst); try congruence.
Qed.

Lemma keys_setdefault gs pid rv :
  fst <$> setdefault_append gs pid rv
  = match assoc gs pid with
    | Some _ => fst <$> gs
    | None => (fst <$> gs) ++ [pid]
    end.
Proof.
  induction gs as [|[k rvs] gs IH]; [done|].
  cbn [setdefault_append assoc].
  destruct (decide (k = pid)); rewrite !fmap_cons; [done|].
  rewrite IH. by destruct (assoc gs pid).
Qed.

Lemma assoc_None gs pid : assoc gs pid = None <-> pid ∉ fst <$> gs.
Proof.
  induction gs as [|[k rvs] gs IH]; simpl.
  - split; [intros _ []%elem_of_nil|done].
  - rewrite not_elem_of_cons. case_decide; subst.
    + split; [done|]. by intros [? _].
    + rewrite IH. split; [by split|by intros [_ ?]].
Qed.

Lemma assoc_elem gs pid rvs :
  NoDup (fst <$> gs) -> (pid, rvs) ∈ gs <-> assoc gs pid = Some rvs.
Proof.
  induction gs as [|[k rvs'] gs IH]; simpl; intros Hnd.
  - split; [intros []%elem_of_nil|done].
  - apply NoDup_cons in Hnd as [Hk Hnd]. rewrite elem_of_cons.
    case_decide; subst.
    + split.
      * intros [[= ->]|Hin]; [done|].
        exfalso. apply Hk. apply list_elem_of_fmap. by exists (pid, rvs).
      * intros [= ->]. by left.
    + rewrite <- (IH Hnd). split; [|by right].
      intros [[= -> ->]|Hin]; done.
Qed.

Lemma combine_snoc {A B} (l1 : list A) (l2 : list B) x y :
  length l1 = length l2 -> combine (l1 ++ [x]) (l2 ++ [y]) = combine l1 l2 ++ [(x, y)].
Proof.
  revert l2. induction l1 as [|a l1 IH]; intros [|b l2] Hlen; simpl in *; try done.
  f_equal. apply IH. lia.
Qed.

Lemma enumerate_snoc {A} (l : list A) x :
  enumerate (l ++ [x]) = enumerate l ++ [(length l, x)].
Proof.
  unfold enumerate. rewrite length_app. simpl.
  rewrite seq_app. simpl.
  by rewrite combine_snoc by (by rewrite length_seq).
Qed.

Lemma group_reviews_snoc l r :
  group_reviews (l ++ [r]) = group_step (group_reviews l) (length l, r).
Proof. unfold group_reviews. by rewrite enumerate_snoc, fold_left_app. Qed.

Lemma filter_ext_elem {A} (P1 P2 : A -> Prop)
    `{!forall x, Decision (P1 x), !forall x, Decision (P2 x)} (l : list A) :
  (forall x, x ∈ l -> P1 x <-> P2 x) -> filter P1 l = filter P2 l.
Proof.
  induction l as [|a l IH]; intros Hext; [done|].
  rewrite !filter_cons.
  rewrite IH by (intros x Hx; apply Hext; by apply list_elem_of_further).
  pose proof (Hext a (list_elem_of_here _ _)) as Ha.
  repeat case_decide; tauto.
Qed.

Lemma members_lt l pid i : i ∈ members l pid -> i < length l.
Proof. intros [_ Hi%elem_of_seq]%list_elem_of_filter. lia. Qed.

Lemma members_paper l pid i : i ∈ members l pid <-> paper_of l i = Some pid.
Proof.
  unfold members. rewrite list_elem_of_filter, elem_of_seq. split; [tauto|].
  intros H. split; [done|]. unfold paper_of in H.
  destruct (l !! i) eqn:E; [|done]. apply lookup_lt_Some in E. lia.
Qed.

Lemma members_snoc l r pid :
  members (l ++ [r]) pid
  = members l pid ++ (if decide (paper_id r = Some pid) then [length l] else []).
Proof.
  unfold members. rewrite length_app. simpl. rewrite seq_app, filter_app. simpl.
  f_equal.
  - apply filter_ext_elem. intros i Hi%elem_of_seq. unfold paper_of.
    by rewrite lookup_app_l by lia.
  - rewrite filter_cons, filter_nil. unfold paper_of.
    rewrite list_lookup_middle by done. simpl. by repeat case_decide.
Qed.

Lemma entry_of_snoc l r i : i < length l -> entry_of (l ++ [r]) i = entry_of l i.
Proof. intros Hi. unfold entry_of. by rewrite lookup_app_l. Qed.

Lemma entries_snoc l r pid :
  entry_of (l ++ [r]) <$> members l pid = entry_of l <$> members l pid.
Proof.
  apply list_fmap_ext. intros i x Hx. apply entry_of_snoc.
  eapply members_lt. by eapply list_elem_of_lookup_2.
Qed.

Lemma group_reviews_spec l : grouped_as l (group_reviews l).
Proof.
  induction l as [|r l IH] using rev_ind.
  - split; [constructor|]. intros pid. reflexivity.
  - destruct IH as [Hnd Hassoc]. rewrite group_reviews_snoc.
    unfold group_step. simpl. destruct (paper_id r) as [q|] eqn:Eq.
    + split.
      * rewrite keys_setdefault. destruct (assoc _ q) eqn:E; [done|].
        apply NoDup_app. split; [done|]. split; [|apply NoDup_singleton].
        intros k Hk ->%list_elem_of_singleton. by apply assoc_None in E.
      * intros pid. rewrite assoc_setdefault, members_snoc.
        case_decide as Hp; [subst pid|].
        -- rewrite decide_True by done. rewrite Hassoc.
           assert (entry_of (l ++ [r]) (length l)
                   = {| miner_uid := length l; entry_text := review_text r |}) as <-.
           { unfold entry_of. by rewrite list_lookup_middle. }
           pose proof (entries_snoc l r q) as Hent.
           destruct (members l q) as [|m ms]; [done|].
           change ((m :: ms) ++ [length l]) with (m :: (ms ++ [length l])).
           cbn [default]. f_equal.
           change (m :: (ms ++ [length l])) with ((m :: ms) ++ [length l]).
           by rewrite fmap_app, Hent.
        -- rewrite decide_False by congruence. rewrite app_nil_r, Hassoc.
           destruct (members l pid) eqn:E; [done|]. rewrite <- E.
           by rewrite entries_snoc.
    + split; [done|]. intros pid. rewrite members_snoc, Hassoc.
      rewrite decide_False by congruence. rewrite app_nil_r.
      destruct (members l pid) eqn:E; [done|]. rewrite <- E.
      by rewrite entries_snoc.
Qed.

Lemma grouped_as_elem l gs pid rvs :
  grouped_as l gs ->
  (pid, rvs) ∈ gs <-> members l pid <> [] /\ rvs = entry_of l <$> members l pid.
Proof.
  intros [Hnd Hassoc]. rewrite (assoc_elem _ _ _ Hnd), Hassoc.
  destruct (members l pid) as [|m ms]; split.
  - done.
  - by intros [? _].
  - intros [= <-]. by split.
  - by intros [_ ->].
Qed.

Lemma entries_uids l (ms : list nat) : miner_uid <$> (entry_of l <$> ms) = ms.
Proof. induction ms as [|m ms IH]; [done|]. rewrite !fmap_cons, IH. done. Qed.

Lemma NoDup_members l pid : NoDup (members l pid).
Proof. apply NoDup_filter, NoDup_seq. Qed.

Lemma uids_of_elem l gs j :
  grouped_as l gs -> j ∈ uids_of gs <-> exists pid, paper_of l j = Some pid.
Proof.
  intros Hg. unfold uids_of. rewrite list_elem_of_bind. split.
  - intros ([pid rvs] & Hj & [_ ->]%(grouped_as_elem l)); [|done]. simpl in Hj.
    rewrite entries_uids in Hj. exists pid. by apply members_paper.
  - intros [pid Hp]. apply members_paper in Hp.
    exists (pid, entry_of l <$> members l pid). simpl. rewrite entries_uids.
    split; [done|]. apply (grouped_as_elem l); [done|].
    split; [|done]. intros E. rewrite E in Hp. by apply elem_of_nil in Hp.
Qed.

Lemma uids_of_NoDup_aux l gs :
  NoDup (fst <$> gs) ->
  (forall pid rvs, (pid, rvs) ∈ gs -> miner_uid <$> rvs = members l pid) ->
  NoDup (uids_of gs).
Proof.
  induction gs as [|[pid rvs] gs IH]; intros Hnd Hall; [constructor|].
  unfold uids_of. simpl. fold (uids_of gs).
  rewrite fmap_cons in Hnd. apply NoDup_cons in Hnd as [Hk Hnd].
  apply NoDup_app. split; [|split].
  - rewrite (Hall pid rvs) by apply list_elem_of_here. apply NoDup_members.
  - intros j Hj Hj'. rewrite (Hall pid rvs) in Hj by apply list_elem_of_here.
    apply members_paper in Hj.
    unfold uids_of in Hj'. apply list_elem_of_bind in Hj' as ([q rvs'] & Hjq & Hin).
    simpl in Hjq. rewrite (Hall q rvs') in Hjq by (by apply list_elem_of_further).
    apply members_paper in Hjq. rewrite Hj in Hjq. injection Hjq as <-.
    apply Hk. apply list_elem_of_fmap. by exists (pid, rvs').
  - apply IH; [done|]. intros q rvs' Hin. apply Hall. by apply list_elem_of_further.
Qed.

Lemma uids_of_NoDup l gs : grouped_as l gs -> NoDup (uids_of gs).
Proof.
  intros Hg. apply (uids_of_NoDup_aux l); [apply Hg|].
  intros pid rvs [_ ->]%(grouped_as_elem l); [|done]. apply entries_uids.
Qed.

(** ** Normalisation *)

Lemma fold_Rmax_spec xs : forall x,
  (x <= fold_left Rmax xs x)%R /\
  (forall y, y ∈ xs -> (y <= fold_left Rmax xs x)%R) /\
  fold_left Rmax xs x ∈ x :: xs.
Proof.
  induction xs as [|z xs IH]; intros x; simpl.
  - split; [lra|]. split; [intros y []%elem_of_nil|apply list_elem_of_here].
  - destruct (IH (Rmax x z)) as (H1 & H2 & H3).
    pose proof (Rmax_l x z). pose proof (Rmax_r x z).
    split; [lra|]. split.
    + intros y [->|Hy]%elem_of_cons; [lra|by apply H2].
    + apply elem_of_cons in H3 as [H3|H3].
      * rewrite H3. unfold Rmax. destruct (Rle_dec x z).
        -- apply list_elem_of_further, list_elem_of_here.
        -- apply list_elem_of_here.
      * by do 2 apply list_elem_of_further.
Qed.

Lemma np_max_Ok xs m :
  np_max xs = Ok m -> m ∈ xs /\ forall y, y ∈ xs -> (y <= m)%R.
Proof.
  destruct xs as [|x xs]; simpl; [done|]. intros [= <-].
  destruct (fold_Rmax_spec xs x) as (H1 & H2 & H3). split; [done|].
  intros y [->|Hy]%elem_of_cons; [done|by apply H2].
Qed.

Lemma np_max_intro xs m :
  m ∈ xs -> (forall y, y ∈ xs -> (y <= m)%R) -> np_max xs = Ok m.
Proof.
  intros Hin Hub. destruct xs as [|x xs]; [by apply elem_of_nil in Hin|].
  simpl. f_equal.
  destruct (fold_Rmax_spec xs x) as (H1 & H2 & H3).
  apply Rle_antisym.
  - by apply Hub.
  - apply elem_of_cons in Hin as [->|Hin]; [done|by apply H2].
Qed.

Lemma np_max_total xs : xs <> [] -> exists m, np_max xs = Ok m.
Proof. destruct xs; [done|]. simpl. eauto. Qed.

Lemma normalize_Ok raw out :
  normalize raw = Ok out ->
  exists m, np_max raw = Ok m /\
    ((0 < m)%R /\ out = (fun x => x / m)%R <$> raw \/ (~ (0 < m)%R) /\ out = raw).
Proof.
  unfold normalize. intros (m & Hm & H)%bind_Ok. exists m. split; [done|].
  case_decide as Hpos.
  - rewrite Hm in H. simpl in H. injection H as <-. left. split; [lra|done].
  - injection H as <-. right. split; [lra|done].
Qed.

Lemma normalize_total raw : raw <> [] -> exists out, normalize raw = Ok out.
Proof.
  intros Hne. destruct raw as [|x xs]; [done|].
  unfold normalize. simpl. case_decide; eauto.
Qed.

Lemma normalized_max raw m :
  np_max raw = Ok m -> (0 < m)%R ->
  np_max ((fun x => x / m)%R <$> raw) = Ok 1%R /\
  forall x, x ∈ (fun x => x / m)%R <$> raw -> (x <= 1)%R.
Proof.
  intros [Hin Hub]%np_max_Ok Hpos.
  assert (Hle : forall x, x ∈ (fun x => x / m)%R <$> raw -> (x <= 1)%R).
  { intros x (y & -> & Hy)%list_elem_of_fmap. specialize (Hub y Hy).
    apply (Rmult_le_reg_r m); [lra|].
    unfold Rdiv. rewrite Rmult_assoc, Rinv_l by lra. lra. }
  split; [|done]. apply np_max_intro; [|done].
  apply list_elem_of_fmap. exists m. split; [|done]. field. lra.
Qed.

(** ** The entry point *)

Lemma score_reviews_grouped_inv scorer md responses w out :
  score_reviews_grouped scorer md responses w = Ok out ->
  exists raw,
    raw_run scorer md responses w = Ok (after out, raw, synapses out) /\
    normalize raw = Ok (rewards out) /\
    miner_uids out = seq 0 (length responses).
Proof.
  unfold score_reviews_grouped, raw_run.
  intros ([[w' raw] resp'] & Hfold & (rew & Hnorm & [= <-])%bind_Ok)%bind_Ok.
  exists raw. simpl. done.
Qed.

Lemma raw_run_spec scorer md responses w w' raw resp' :
  raw_run scorer md responses w = Ok (w', raw, resp') ->
  length raw = length responses /\ length resp' = length responses /\
  (cache_wf (cache w) -> cache_wf (cache w')) /\
  (forall i r, responses !! i = Some r -> paper_id r = None ->
     raw !! i = Some 0%R /\ resp' !! i = Some r) /\
  (forall pid, members responses pid <> [] ->
     exists wk, (cache_wf (cache w) -> cache_wf (cache wk)) /\
       group_scored scorer md pid (entry_of responses <$> members responses pid)
         responses wk raw resp').
Proof.
  unfold raw_run. intros Hfold.
  pose proof (group_reviews_spec responses) as Hg.
  apply score_groups_spec in Hfold as (Hl1 & Hl2 & Hout & Hwf & Hsc);
    [|by apply (uids_of_NoDup responses)].
  rewrite length_replicate in Hl1.
  split; [done|]. split; [done|]. split; [done|]. split.
  - intros i r Hi Hp. destruct (Hout i) as [E1 E2].
    + rewrite (uids_of_elem responses) by done. unfold paper_of.
      rewrite Hi. simpl. rewrite Hp. by intros [pid ?].
    + rewrite E1, E2. split; [|done].
      apply lookup_replicate_2. by eapply lookup_lt_Some.
  - intros pid Hne. apply Hsc. apply (grouped_as_elem responses); done.
Qed.

(** What the run leaves for one submission that names a paper. *)
Lemma raw_run_submission scorer md responses w w' raw resp' i r pid :
  raw_run scorer md responses w = Ok (w', raw, resp') ->
  responses !! i = Some r -> paper_id r = Some pid ->
  let ms := members responses pid in
  let rvs := entry_of responses <$> ms in
  exists wk ranked idx rank score a c,
    (cache_wf (cache w) -> cache_wf (cache wk)) /\
    let scores := fst (score_reviews_for_paper scorer (paper_context md pid) rvs wk) in
    rank_group scores = Ok ranked /\
    ms !! idx = Some i /\ ranked !! rank = Some idx /\
    scores !! idx = Some score /\
    aggregate_of score = Ok a /\ confidence_of score = Ok c /\
    raw !! i = Some (a * decay rank * c)%R /\
    resp' !! i = Some (write_back r score (a * decay rank * c)).
Proof.
  intros Hrun Hi Hp ms rvs.
  assert (Hmem : i ∈ ms).
  { apply members_paper. unfold paper_of. by rewrite Hi. }
  apply raw_run_spec in Hrun as (_ & _ & _ & _ & Hsc).
  destruct (Hsc pid) as (wk & Hwk & ranked & Hranked & Hall).
  { intros E. fold ms in E. rewrite E in Hmem. by apply elem_of_nil in Hmem. }
  apply list_elem_of_lookup in Hmem as [idx Hidx].
  assert (Hrv : rvs !! idx = Some (entry_of responses i)).
  { unfold rvs. by rewrite list_lookup_fmap, Hidx. }
  destruct (rank_group_Ok _ _ Hranked) as [Hperm _].
  assert (Hin : idx ∈ ranked).
  { rewrite Hperm. apply elem_of_seq. rewrite sfp_length.
    apply lookup_lt_Some in Hrv. unfold rvs, ms in Hrv. lia. }
  apply list_elem_of_lookup in Hin as [rank Hrank].
  destruct (Hall rank idx _ Hrank Hrv)
    as (score & a & c & s & Hs & Ha & Hc & Hsy & Hraw & Hresp).
  simpl in Hsy, Hraw, Hresp. rewrite Hi in Hsy. injection Hsy as <-.
  exists wk, ranked, idx, rank, score, a, c. done.
Qed.

Lemma raw_run_total scorer md responses w :
  cache_wf (cache w) -> exists st, raw_run scorer md responses w = Ok st.
Proof.
  intros Hwf. unfold raw_run.
  pose proof (group_reviews_spec responses) as Hg.
  apply score_groups_total; [by apply (uids_of_NoDup responses)|done| |].
  - by rewrite length_replicate.
  - intros j (pid & Hp)%(uids_of_elem responses); [|done].
    rewrite length_replicate. unfold paper_of in Hp.
    destruct (responses !! j) eqn:E; [|done]. by eapply lookup_lt_Some.
Qed.

Lemma score_reviews_grouped_total scorer md responses w :
  cache_wf (cache w) -> responses <> [] ->
  exists out, score_reviews_grouped scorer md responses w = Ok out.
Proof.
  intros Hwf Hne.
  destruct (raw_run_total scorer md responses w Hwf) as [[[w' raw] resp'] Hrun].
  pose proof (raw_run_spec _ _ _ _ _ _ _ Hrun) as (Hlen & _).
  destruct (normalize_total raw) as [rew Hrew].
  { intros ->. destruct responses; done. }
  unfold score_reviews_grouped. unfold raw_run in Hrun. rewrite Hrun. simpl.
  rewrite Hrew. simpl. eauto.
Qed.

(** Under a well-formed cache no raw reward is negative. *)
Lemma raw_run_nonneg scorer md responses w w' raw resp' :
  cache_wf (cache w) ->
  raw_run scorer md responses w = Ok (w', raw, resp') ->
  forall x, x ∈ raw -> (0 <= x <= 100)%R.
Proof.
  intros Hwf Hrun x [i Hi]%list_elem_of_lookup.
  pose proof (raw_run_spec _ _ _ _ _ _ _ Hrun) as (Hlen & _ & _ & Hnone & _).
  destruct (lookup_lt_is_Some_2 responses i) as [r Hr].
  { apply lookup_lt_Some in Hi. lia. }
  destruct (paper_id r) as [pid|] eqn:Hp.
  - destruct (raw_run_submission _ _ _ _ _ _ _ i r pid Hrun Hr Hp)
      as (wk & ranked & idx & rank & score & a & c & Hwk & Hranked & Hidx & Hrank
          & Hs & Ha & Hc & Hraw & _).
    rewrite Hi in Hraw. injection Hraw as ->.
    pose proof (sfp_ok scorer (paper_context md pid)
                  (entry_of responses <$> members responses pid) wk (Hwk Hwf))
      as [Hok _].
    rewrite Forall_forall in Hok.
    destruct (Hok score) as (a' & c' & Ha' & Hc' & Hra & Hrc).
    { by eapply list_elem_of_lookup_2. }
    rewrite Ha in Ha'. rewrite Hc in Hc'. injection Ha' as <-. injection Hc' as <-.
    assert (0 < decay rank <= 1)%R as Hd.
    { unfold decay. split; [apply exp_pos|].
      rewrite <- exp_0. assert (0 <= INR rank)%R by apply pos_INR.
      destruct (Req_dec (INR rank) 0) as [->|Hne].
      - rewrite Rmult_0_r. lra.
      - left. apply exp_increasing. lra. }
    split; [apply Rmult_le_pos; [apply Rmult_le_pos|]; lra|].
    assert (a * decay rank <= 100)%R by nra.
    assert (0 <= a * decay rank)%R by (apply Rmult_le_pos; lra).
    nra.
  - destruct (Hnone i r Hr Hp) as [E _]. rewrite Hi in E. injection E as ->. lra.
Qed.

(** ** The world a group is scored in *)

Lemma score_groups_at scorer md gs : forall w rew resp w' rew' resp',
  NoDup (uids_of gs) -> NoDup (fst <$> gs) ->
  foldM (score_group scorer md) (w, rew, resp) gs = Ok (w', rew', resp') ->
  forall pid rvs, (pid, rvs) ∈ gs ->
    group_scored scorer md pid rvs resp (world_before scorer md gs pid w) rew' resp'.
Proof.
  induction gs as [|[k rvs0] gs IH]; intros w rew resp w' rew' resp' Hnd Hkeys;
    cbn [foldM].
  - intros _ pid rvs []%elem_of_nil.
  - intros ([[w1 rew1] resp1] & Hstep & Hrest)%bind_Ok pid rvs Hin.
    unfold uids_of in Hnd. simpl in Hnd. fold (uids_of gs) in Hnd.
    apply NoDup_app in Hnd as (Hnd1 & Hdisj & Hnd2).
    rewrite fmap_cons in Hkeys. apply NoDup_cons in Hkeys as [Hk Hkeys]. simpl in Hk.
    pose proof Hrest as Hrest'.
    apply score_group_spec in Hstep as (Hw1 & Hl1 & Hl2 & Hout1 & Hsc1); [|done].
    apply score_groups_spec in Hrest' as (_ & _ & Hout2 & _); [|done].
    simpl. apply elem_of_cons in Hin as [[= -> ->]|Hin].
    + rewrite decide_True by done.
      eapply group_scored_frame; [ | |exact Hsc1]; [done|].
      intros j Hj. apply Hout2. by apply Hdisj.
    + rewrite decide_False.
      2:{ intros ->. apply Hk. apply list_elem_of_fmap. by exists (pid, rvs). }
      rewrite <- Hw1.
      pose proof (IH _ _ _ _ _ _ Hnd2 Hkeys Hrest pid rvs Hin) as Hsc.
      eapply group_scored_frame; [ | |exact Hsc]; [|done].
      intros j Hj. apply Hout1. intros Hj1. apply (Hdisj j Hj1).
      unfold uids_of. apply list_elem_of_bind. exists (pid, rvs). by split.
Qed.

Lemma raw_run_at scorer md responses w w' raw resp' pid :
  raw_run scorer md responses w = Ok (w', raw, resp') ->
  members responses pid <> [] ->
  group_scored scorer md pid (entry_of responses <$> members responses pid)
    responses (world_before scorer md (group_reviews responses) pid w) raw resp'.
Proof.
  unfold raw_run. intros Hfold Hne.
  pose proof (group_reviews_spec responses) as Hg.
  eapply score_groups_at; [| |exact Hfold|].
  - by apply (uids_of_NoDup responses).
  - by destruct Hg.
  - by apply (grouped_as_elem responses).
Qed.

Lemma world_before_wf scorer md gs pid : forall w,
  cache_wf (cache w) -> cache_wf (cache (world_before scorer md gs pid w)).
Proof.
  induction gs as [|[k rvs] gs IH]; intros w Hwf; simpl; [done|].
  case_decide; [done|]. apply IH. by apply sfp_ok.
Qed.

(** What a scored group holds for one of its members. *)
Lemma group_scored_member scorer md responses pid wk raw resp' i r :
  group_scored scorer md pid (entry_of responses <$> members responses pid)
    responses wk raw resp' ->
  responses !! i = Some r -> paper_id r = Some pid ->
  let ms := members responses pid in
  let scores :=
    fst (score_reviews_for_paper scorer (paper_context md pid)
           (entry_of responses <$> ms) wk) in
  exists ranked idx rank score a c,
    rank_group scores = Ok ranked /\
    ms !! idx = Some i /\ ranked !! rank = Some idx /\
    scores !! idx = Some score /\
    aggregate_of score = Ok a /\ confidence_of score = Ok c /\
    raw !! i = Some (a * decay rank * c)%R /\
    resp' !! i = Some (write_back r score (a * decay rank * c)).
Proof.
  intros (ranked & Hranked & Hall) Hi Hp. cbv zeta.
  set (ms := members responses pid) in *.
  assert (Hmem : i ∈ ms).
  { apply members_paper. unfold paper_of. by rewrite Hi. }
  apply list_elem_of_lookup in Hmem as [idx Hidx].
  assert (Hrv : (entry_of responses <$> ms) !! idx = Some (entry_of responses i)).
  { by rewrite list_lookup_fmap, Hidx. }
  destruct (rank_group_Ok _ _ Hranked) as [Hperm _].
  assert (Hin : idx ∈ ranked).
  { rewrite Hperm. apply elem_of_seq. rewrite sfp_length.
    apply lookup_lt_Some in Hrv. split; [apply Nat.le_0_l|exact Hrv]. }
  apply list_elem_of_lookup in Hin as [rank Hrank].
  destruct (Hall rank idx _ Hrank Hrv)
    as (score & a & c & s & Hs & Ha & Hc & Hsy & Hraw & Hresp).
  simpl in Hsy, Hraw, Hresp. rewrite Hi in Hsy. injection Hsy as <-.
  exists ranked, idx, rank, score, a, c. done.
Qed.

(** The verdict a run leaves on the synapse of a member of a group. *)
Lemma member_verdict scorer md responses w out i pid :
  score_reviews_grouped scorer md responses w = Ok out ->
  paper_of responses i = Some pid ->
  let ms := members responses pid in
  let wk := world_before scorer md (group_reviews responses) pid w in
  let scores :=
    fst (score_reviews_for_paper scorer (paper_context md pid)
           (entry_of responses <$> ms) wk) in
  exists raw ranked idx rank score a c,
    raw_run scorer md responses w = Ok (after out, raw, synapses out) /\
    rank_group scores = Ok ranked /\
    ms !! idx = Some i /\ ranked !! rank = Some idx /\
    scores !! idx = Some score /\
    aggregate_of score = Ok a /\ confidence_of score = Ok c /\
    raw !! i = Some (a * decay rank * c)%R /\
    synapses out !! i ≫= review_score = Some score /\
    synapses out !! i ≫= final_score = Some (a * decay rank * c)%R.
Proof.
  intros (raw & Hrun & Hnorm & _)%score_reviews_grouped_inv Hp. cbv zeta.
  assert (Hmem : i ∈ members responses pid) by (by apply members_paper).
  assert (Hne : members responses pid <> []).
  { intros E. rewrite E in Hmem. by apply elem_of_nil in Hmem. }
  unfold paper_of in Hp. destruct (responses !! i) as [r|] eqn:Hi; [|done].
  simpl in Hp.
  pose proof (raw_run_at _ _ _ _ _ _ _ pid Hrun Hne) as Hgs.
  destruct (group_scored_member _ _ _ _ _ _ _ i r Hgs Hi Hp)
    as (ranked & idx & rank & score & a & c & Hranked & Hidx & Hrank & Hs & Ha & Hc
        & Hraw & Hresp).
  exists raw, ranked, idx, rank, score, a, c. rewrite Hresp. done.
Qed.

Lemma decay_0 : decay 0 = 1%R.
Proof. unfold decay. simpl. rewrite Rmult_0_r. apply exp_0. Qed.

(** C10.  On the empty list the entry point raises: [np.zeros(0).max()]
    has no value, and the [ValueError] of line 264 leaves
    [score_reviews_grouped]; no reward vector is returned.  So a call that
    returns was given a list that is not empty. *)
Theorem empty_input_raises scorer md w :
  score_reviews_grouped scorer md [] w
  = Raise (ValueError
      "zero-size array to reduction operation maximum which has no identity") /\
  (forall responses out,
     score_reviews_grouped scorer md responses w = Ok out -> responses <> []).
Proof.
  split; [reflexivity|].
  intros responses out Hout ->. discriminate.
Qed.

(** C1.  Let [raw] be the reward vector before lines 264-265 and [m] its
    maximum.  If [m > 0] the returned vector is [raw] with every entry
    divided by [m], its maximum is exactly 1 and no entry exceeds 1; if
    not, the returned vector is [raw] itself.  When the cache holds
    verdicts in range, [m >= 0], every returned entry lies in [0,1], and
    [m = 0] means that every entry is 0. *)
Theorem normalization scorer md responses w out :
  score_reviews_grouped scorer md responses w = Ok out ->
  exists raw m,
    raw_run scorer md responses w = Ok (after out, raw, synapses out) /\
    np_max raw = Ok m /\
    ((0 < m)%R ->
       rewards out = (fun x => x / m)%R <$> raw /\
       np_max (rewards out) = Ok 1%R /\
       forall x, x ∈ rewards out -> (x <= 1)%R) /\
    (~ (0 < m)%R -> rewards out = raw) /\
    (cache_wf (cache w) ->
       (0 <= m)%R /\
       (forall x, x ∈ rewards out -> (0 <= x <= 1)%R) /\
       (m = 0%R -> forall x, x ∈ rewards out -> x = 0%R)).
Proof.
  intros (raw & Hrun & Hnorm & _)%score_reviews_grouped_inv.
  destruct (normalize_Ok _ _ Hnorm) as (m & Hm & Hcase).
  exists raw, m. split; [done|]. split; [done|].
  assert (Hpos : (0 < m)%R ->
            rewards out = (fun x => x / m)%R <$> raw /\
            np_max (rewards out) = Ok 1%R /\
            forall x, x ∈ rewards out -> (x <= 1)%R).
  { intros Hlt. destruct Hcase as [[_ ->]|[Hn _]]; [|done].
    split; [done|]. by apply normalized_max. }
  assert (Hzero : ~ (0 < m)%R -> rewards out = raw).
  { intros Hn. by destruct Hcase as [[Hlt _]|[_ ->]]. }
  split; [done|]. split; [done|].
  intros Hwf. pose proof (raw_run_nonneg _ _ _ _ _ _ _ Hwf Hrun) as Hnn.
  destruct (np_max_Ok _ _ Hm) as [Hin Hub].
  assert (0 <= m)%R by (apply (Hnn m Hin)).
  split; [done|]. split.
  - intros x Hx. destruct (Rlt_dec 0 m) as [Hlt|Hn].
    + destruct (Hpos Hlt) as (Heq & _ & Hle). split; [|by apply Hle].
      rewrite Heq in Hx. apply list_elem_of_fmap in Hx as (y & -> & Hy).
      apply Rmult_le_pos; [apply (Hnn y Hy)|].
      left. by apply Rinv_0_lt_compat.
    + rewrite (Hzero Hn) in Hx. specialize (Hnn x Hx). specialize (Hub x Hx). lra.
  - intros -> x Hx. rewrite Hzero in Hx by lra.
    specialize (Hnn x Hx). specialize (Hub x Hx). lra.
Qed.

Lemma normalization_witness :
  exists out,
    score_reviews_grouped steady ∅ solo world0 = Ok out /\
    forall x, x ∈ rewards out -> (0 <= x <= 1)%R.
Proof.
  destruct (score_reviews_grouped_total steady ∅ solo world0) as [out Hout].
  - apply cache_wf_empty.
  - discriminate.
  - exists out. split; [exact Hout|].
    destruct (normalization steady ∅ solo world0 out Hout)
      as (raw & m & _ & _ & _ & _ & Hwf).
    destruct (Hwf cache_wf_empty) as (_ & Hrange & _). exact Hrange.
Defined.

(** C3.  For every paper with submissions, the verdicts computed for its
    group (those [score_reviews_for_paper] returns in the world the
    earlier groups left) are ranked by a permutation of the positions
    0..n-1 that lists the aggregate scores in descending order, and the
    submission at rank [rank] gets the reward aggregate_score * exp(-0.5
    * rank) * confidence of its verdict: that value is stored in the raw
    reward vector at the submission's index and in its [final_score], and
    the verdict in its [review_score].  The decay factor of rank 0 is 1.
    Which of two equal aggregates comes first is left open: it is
    [np.argsort]'s choice. *)
Theorem ranking_and_reward scorer md responses w out pid :
  score_reviews_grouped scorer md responses w = Ok out ->
  members responses pid <> [] ->
  let ms := members responses pid in
  let wk := world_before scorer md (group_reviews responses) pid w in
  let scores :=
    fst (score_reviews_for_paper scorer (paper_context md pid)
           (entry_of responses <$> ms) wk) in
  exists raw ranked,
    raw_run scorer md responses w = Ok (after out, raw, synapses out) /\
    normalize raw = Ok (rewards out) /\
    length scores = length ms /\
    ranked ≡ₚ seq 0 (length ms) /\
    (forall a b ia ib sa sb xa xb,
       a <= b -> ranked !! a = Some ia -> ranked !! b = Some ib ->
       scores !! ia = Some sa -> scores !! ib = Some sb ->
       aggregate_of sa = Ok xa -> aggregate_of sb = Ok xb -> (xb <= xa)%R) /\
    (forall rank idx i,
       ranked !! rank = Some idx -> ms !! idx = Some i ->
       exists r score a c,
         responses !! i = Some r /\
         scores !! idx = Some score /\
         aggregate_of score = Ok a /\ confidence_of score = Ok c /\
         raw !! i = Some (a * exp (-0.5 * INR rank) * c)%R /\
         synapses out !! i
         = Some (write_back r score (a * exp (-0.5 * INR rank) * c)) /\
         synapses out !! i ≫= review_score = Some score /\
         synapses out !! i ≫= final_score
         = Some (a * exp (-0.5 * INR rank) * c)%R) /\
    decay 0 = 1%R /\
    (forall k, decay k = exp (-0.5 * INR k)).
Proof.
  intros (raw & Hrun & Hnorm & _)%score_reviews_grouped_inv Hne. cbv zeta.
  pose proof (raw_run_at _ _ _ _ _ _ _ pid Hrun Hne) as (ranked & Hranked & Hall).
  exists raw, ranked.
  destruct (rank_group_Ok _ _ Hranked) as [Hperm Hdesc].
  rewrite sfp_length, length_fmap in Hperm.
  split; [done|]. split; [done|]. split; [by rewrite sfp_length, length_fmap|].
  split; [done|]. split; [done|]. split; [|split].
  - intros rank idx i Hrank Hidx.
    destruct (Hall rank idx (entry_of responses i) Hrank)
      as (score & a & c & s & Hs & Ha & Hc & Hsy & Hraw & Hresp).
    { by rewrite list_lookup_fmap, Hidx. }
    exists s, score, a, c. simpl in Hsy, Hraw, Hresp. rewrite Hresp. done.
  - apply decay_0.
  - done.
Qed.

Lemma ranking_and_reward_witness :
  exists out,
    score_reviews_grouped steady ∅ trio world0 = Ok out /\
    members trio "p1" = [0; 1] /\
    exists ranked raw,
      ranked ≡ₚ [0; 1] /\
      raw_run steady ∅ trio world0 = Ok (after out, raw, synapses out) /\
      normalize raw = Ok (rewards out).
Proof.
  destruct (score_reviews_grouped_total steady ∅ trio world0) as [out Hout].
  - apply cache_wf_empty.
  - discriminate.
  - exists out. split; [exact Hout|]. split; [reflexivity|].
    destruct (ranking_and_reward steady ∅ trio world0 out "p1" Hout)
      as (raw & ranked & Hrun & Hnorm & _ & Hperm & _).
    + discriminate.
    + exists ranked, raw. split; [exact Hperm|]. split; [exact Hrun|exact Hnorm].
Defined.

(** C5.  In [score_reviews_for_paper] a review whose text is empty or
    missing gets the zero verdict (aggregate_score 0.0, confidence 0.0)
    and leaves no trace in the world: the requests sent and the cache are
    those of the run without such reviews, so the oracle is asked at most
    once per review that has text.  In [score_reviews_grouped] such a
    submission, when it names a paper, ends with reward 0, both in the
    returned vector and in its [final_score], and with the zero verdict as
    its [review_score]. *)
Theorem empty_text_short_circuit scorer :
  (forall a rvs w,
     (forall i rv, rvs !! i = Some rv -> no_text (entry_text rv) = true ->
        fst (score_reviews_for_paper scorer a rvs w) !! i = Some empty_verdict) /\
     snd (score_reviews_for_paper scorer a rvs w)
       = snd (score_reviews_for_paper scorer a (List.filter has_text rvs) w) /\
     (exists new,
        calls (snd (score_reviews_for_paper scorer a rvs w)) = new ++ calls w /\
        length new <= length (List.filter has_text rvs))) /\
  aggregate_of empty_verdict = Ok 0.0%R /\
  confidence_of empty_verdict = Ok 0.0%R /\
  (forall md responses w out i r pid,
     score_reviews_grouped scorer md responses w = Ok out ->
     responses !! i = Some r -> paper_id r = Some pid ->
     no_text (review_text r) = true ->
     rewards out !! i = Some 0%R /\
     synapses out !! i = Some (write_back r empty_verdict 0)).
Proof.
  split; [|split; [reflexivity|split; [reflexivity|]]].
  { intros a rvs w. split; [|split].
    - intros i rv. apply sfp_no_text.
    - apply sfp_skips_no_text.
    - apply sfp_calls. }
  intros md responses w out i r pid Hout Hi Hp Hno.
  apply score_reviews_grouped_inv in Hout as (raw & Hrun & Hnorm & _).
  destruct (raw_run_submission _ _ _ _ _ _ _ i r pid Hrun Hi Hp)
    as (wk & ranked & idx & rank & score & a & c & _ & _ & Hidx & _
        & Hs & Ha & Hc & Hraw & Hresp).
  rewrite (sfp_no_text _ _ _ wk idx (entry_of responses i)) in Hs.
  - injection Hs as <-.
    assert (a = 0.0%R) as -> by (by injection Ha).
    assert (c = 0.0%R) as -> by (by injection Hc).
    replace (0.0 * decay rank * 0.0)%R with 0%R in * by lra.
    split; [|done].
    destruct (normalize_Ok _ _ Hnorm) as (m & _ & [[Hm ->]|[_ ->]]); [|done].
    rewrite list_lookup_fmap, Hraw. simpl. f_equal. field. lra.
  - by rewrite list_lookup_fmap, Hidx.
  - simpl. by rewrite Hi.
Qed.

Lemma empty_text_short_circuit_witness :
  exists out,
    score_reviews_grouped steady ∅ trio world0 = Ok out /\
    rewards out !! 1 = Some 0%R.
Proof.
  destruct (score_reviews_grouped_total steady ∅ trio world0) as [out Hout].
  - apply cache_wf_empty.
  - discriminate.
  - exists out. split; [exact Hout|].
    destruct (empty_text_short_circuit steady) as (_ & _ & _ & H).
    destruct (H ∅ trio world0 out 1
                {| paper_id := Some "p1"; review_text := Some "";
                   review_score := None; final_score := None |} "p1" Hout)
      as [Hr _]; try reflexivity.
    exact Hr.
Defined.

(** C8, counterexample.  For a paper without metadata, and for one whose
    stored abstract is empty and which has no title, the context is the
    string "Unknown paper", not "Unknown item". *)
Lemma placeholder_is_unknown_paper :
  paper_context ∅ "p1" = "Unknown paper" /\
  paper_context {[ "p1" := {| abstract := Some ""; title := None |} ]} "p1"
    = "Unknown paper" /\
  paper_context ∅ "p1" <> "Unknown item".
Proof. repeat split. discriminate. Qed.

Lemma score_group_ext scorer md md' :
  (forall k, paper_context md k = paper_context md' k) ->
  forall st g, score_group scorer md st g = score_group scorer md' st g.
Proof.
  intros H [[w rew] resp] [k rvs]. unfold score_group. by rewrite H.
Qed.

Lemma foldM_ext {A B} (f g : A -> B -> outcome A) l :
  (forall a b, f a b = g a b) -> forall a, foldM f a l = foldM g a l.
Proof.
  intros H. induction l as [|b l IH]; intros a; simpl; [done|].
  rewrite H. destruct (g a b); simpl; [apply IH|done].
Qed.

Lemma score_reviews_grouped_ext scorer md md' responses w :
  (forall k, paper_context md k = paper_context md' k) ->
  score_reviews_grouped scorer md responses w
  = score_reviews_grouped scorer md' responses w.
Proof.
  intros H. unfold score_reviews_grouped.
  by rewrite (foldM_ext _ _ _ (score_group_ext scorer md md' H)).
Qed.

(** C8, amended.  The context of a group is the paper's stored abstract
    when there is a non-empty one; otherwise the paper's title when the
    metadata has one; otherwise the fixed string "Unknown paper".  In
    every run that returns, the group was scored against that context, in
    the world the earlier groups left: the verdict on each member's
    synapse is the one [score_reviews_for_paper] returns for it with that
    context.  A missing abstract makes no difference of its own: when
    the context is not the empty string, the run is, result and exception
    alike, the run for the metadata in which that context is stored as
    the paper's abstract. *)
Theorem missing_context_policy md pid :
  let stored := md !! pid ≫= abstract in
  let ttl := md !! pid ≫= title in
  (forall a, stored = Some a -> a <> "" -> paper_context md pid = a) /\
  (stored = None \/ stored = Some "" ->
     forall t, ttl = Some t -> paper_context md pid = t) /\
  (stored = None \/ stored = Some "" ->
     ttl = None -> paper_context md pid = "Unknown paper") /\
  (forall scorer responses w out,
     score_reviews_grouped scorer md responses w = Ok out ->
     let ms := members responses pid in
     let wk := world_before scorer md (group_reviews responses) pid w in
     let scores :=
       fst (score_reviews_for_paper scorer (paper_context md pid)
              (entry_of responses <$> ms) wk) in
     length scores = length ms /\
     forall idx i, ms !! idx = Some i ->
       exists score,
         scores !! idx = Some score /\
         synapses out !! i ≫= review_score = Some score) /\
  (forall scorer responses w,
     paper_context md pid <> "" ->
     score_reviews_grouped scorer md responses w
     = score_reviews_grouped scorer
         (<[pid := {| abstract := Some (paper_context md pid); title := None |}]> md)
         responses w).
Proof.
  cbv zeta. split; [|split; [|split; [|split]]].
  - unfold paper_context. destruct (md !! pid) as [[stored ttl]|]; simpl; [|done].
    intros a -> Ha. simpl. by rewrite bool_decide_eq_false_2.
  - unfold paper_context. destruct (md !! pid) as [[stored ttl]|]; simpl.
    + intros [->| ->] t ->; reflexivity.
    + intros _ t [=].
  - unfold paper_context. destruct (md !! pid) as [[stored ttl]|]; simpl.
    + intros [->| ->] ->; reflexivity.
    + done.
  - intros scorer responses w out
      (raw & Hrun & Hnorm & _)%score_reviews_grouped_inv.
    cbv zeta. split; [by rewrite sfp_length, length_fmap|].
    intros idx i Hidx.
    assert (Hmem : i ∈ members responses pid) by (by eapply list_elem_of_lookup_2).
    assert (Hne : members responses pid <> []).
    { intros E. rewrite E in Hmem. by apply elem_of_nil in Hmem. }
    apply members_paper in Hmem. unfold paper_of in Hmem.
    destruct (responses !! i) as [r|] eqn:Hi; [|done]. simpl in Hmem.
    pose proof (raw_run_at _ _ _ _ _ _ _ pid Hrun Hne) as Hgs.
    destruct (group_scored_member _ _ _ _ _ _ _ i r Hgs Hi Hmem)
      as (ranked & idx' & rank & score & a & c & _ & Hidx' & _ & Hs & _ & _ & _
          & Hresp).
    assert (idx' = idx) as ->.
    { eapply NoDup_lookup; [apply NoDup_members|exact Hidx'|exact Hidx]. }
    exists score. split; [done|]. by rewrite Hresp.
  - intros scorer responses w Hctx. apply score_reviews_grouped_ext.
    intros k. destruct (decide (k = pid)) as [->|Hk].
    + unfold paper_context at 2. rewrite lookup_insert_eq. simpl.
      by rewrite bool_decide_eq_false_2.
    + unfold paper_context. by rewrite lookup_insert_ne.
Qed.

Lemma missing_context_policy_witness :
  paper_context {[ "p1" := {| abstract := None; title := Some "A title" |} ]} "p1"
  = "A title".
Proof.
  pose proof (missing_context_policy
    {[ "p1" := {| abstract := None; title := Some "A title" |} ]} "p1")
    as (_ & H & _).
  apply H; [left|]; reflexivity.
Defined.

Lemma Permutation_seq_1 (l : list nat) : l ≡ₚ [0] -> l = [0].
Proof. intros H. symmetry in H. by apply Permutation_singleton_l in H. Qed.

(** C9, counterexample.  One submission, scored 100 with confidence 1: its
    [final_score] is 100 while its entry in the returned vector is 1. *)
Lemma final_score_is_raw :
  exists out,
    score_reviews_grouped steady ∅ solo world0 = Ok out /\
    synapses out !! 0 ≫= final_score = Some 100%R /\
    rewards out !! 0 = Some 1%R.
Proof.
  destruct (score_reviews_grouped_total steady ∅ solo world0) as [out Hout];
    [apply cache_wf_empty|discriminate|].
  exists out. split; [exact Hout|].
  apply score_reviews_grouped_inv in Hout as (raw & Hrun & Hnorm & _).
  pose proof (raw_run_spec _ _ _ _ _ _ _ Hrun) as (Hlen & _).
  unfold raw_run in Hrun.
  change (group_reviews solo)
    with [("p1", [ {| miner_uid := 0; entry_text := Some "A review." |} ])] in Hrun.
  cbn [foldM] in Hrun. apply bind_Ok in Hrun as ([[w1 raw1] resp1] & Hstep & [= -> -> ->]).
  apply score_group_spec in Hstep as (_ & _ & _ & _ & ranked & Hranked & Hall);
    [|apply NoDup_singleton].
  destruct perfect_reply_verdict as (v & Hv & Ha & Hc).
  assert (Hscores :
    fst (score_reviews_for_paper steady (paper_context ∅ "p1")
           [ {| miner_uid := 0; entry_text := Some "A review." |} ] world0) = [v]).
  { cbn [score_reviews_for_paper entry_text no_text default].
    rewrite bool_decide_eq_false_2 by discriminate.
    rewrite score_review_miss by (intros _; apply lookup_empty).
    cbn [client steady mbind result_bind]. rewrite Hv. reflexivity. }
  rewrite Hscores in Hranked, Hall.
  destruct (rank_group_Ok _ _ Hranked) as [->%Permutation_seq_1 _].
  destruct (Hall 0 0 _ eq_refl eq_refl)
    as (score & a & c & s & [= <-] & Ha' & Hc' & _ & Hraw & Hresp).
  rewrite Ha in Ha'. rewrite Hc in Hc'. injection Ha' as <-. injection Hc' as <-.
  rewrite decay_0 in Hraw, Hresp. simpl in Hraw, Hresp.
  replace (100 * 1 * 1)%R with 100%R in * by lra.
  split; [by rewrite Hresp|].
  destruct raw as [|x [|? ?]]; simpl in Hlen; try lia. injection Hraw as ->.
  unfold normalize in Hnorm. simpl in Hnorm.
  rewrite decide_True in Hnorm by lra. injection Hnorm as <-.
  simpl. f_equal. lra.
Qed.

(** C9, amended.  For every submission that names a paper, the entry point
    leaves on its synapse the verdict computed for it (the one
    [score_reviews_for_paper] returns for it in the world the earlier
    groups left) as [review_score], and as [final_score] its reward before
    normalisation, aggregate_score * exp(-0.5 * rank) * confidence, where
    rank is its position in a ranking of its group by descending
    aggregate; the other fields are kept.  The entry at its index in the
    returned vector is that reward divided by the maximum raw reward when
    the maximum is positive, and the reward itself otherwise.  When the
    cache holds verdicts in range, the reward is a number in [0,100]. *)
Theorem result_write_back scorer md responses w out i r pid :
  score_reviews_grouped scorer md responses w = Ok out ->
  responses !! i = Some r -> paper_id r = Some pid ->
  let ms := members responses pid in
  let wk := world_before scorer md (group_reviews responses) pid w in
  let scores :=
    fst (score_reviews_for_paper scorer (paper_context md pid)
           (entry_of responses <$> ms) wk) in
  exists raw m ranked idx rank score a c,
    let reward := (a * exp (-0.5 * INR rank) * c)%R in
    raw_run scorer md responses w = Ok (after out, raw, synapses out) /\
    np_max raw = Ok m /\
    ranked ≡ₚ seq 0 (length ms) /\
    (forall ka kb ia ib sa sb xa xb,
       ka <= kb -> ranked !! ka = Some ia -> ranked !! kb = Some ib ->
       scores !! ia = Some sa -> scores !! ib = Some sb ->
       aggregate_of sa = Ok xa -> aggregate_of sb = Ok xb -> (xb <= xa)%R) /\
    ms !! idx = Some i /\ ranked !! rank = Some idx /\
    scores !! idx = Some score /\
    aggregate_of score = Ok a /\ confidence_of score = Ok c /\
    synapses out !! i = Some (write_back r score reward) /\
    synapses out !! i ≫= review_score = Some score /\
    synapses out !! i ≫= final_score = Some reward /\
    raw !! i = Some reward /\
    rewards out !! i = Some (if decide (0 < m)%R then reward / m else reward)%R /\
    (cache_wf (cache w) -> (0 <= reward <= 100)%R).
Proof.
  intros Hout Hi Hp. cbv zeta.
  pose proof Hout as (raw & Hrun & Hnorm & _)%score_reviews_grouped_inv.
  assert (Hne : members responses pid <> []).
  { intros E. assert (Hm : i ∈ members responses pid).
    { apply members_paper. unfold paper_of. by rewrite Hi. }
    rewrite E in Hm. by apply elem_of_nil in Hm. }
  pose proof (raw_run_at _ _ _ _ _ _ _ pid Hrun Hne) as Hgs.
  destruct (group_scored_member _ _ _ _ _ _ _ i r Hgs Hi Hp)
    as (ranked & idx & rank & score & a & c & Hranked & Hidx & Hrank & Hs & Ha & Hc
        & Hraw & Hresp).
  destruct (rank_group_Ok _ _ Hranked) as [Hperm Hdesc].
  rewrite sfp_length, length_fmap in Hperm.
  destruct (normalize_Ok _ _ Hnorm) as (m & Hm & Hcase).
  exists raw, m, ranked, idx, rank, score, a, c.
  fold (decay rank). rewrite Hresp.
  repeat (split; [done|]). split.
  - destruct Hcase as [[Hlt ->]|[Hn ->]].
    + rewrite decide_True by done. by rewrite list_lookup_fmap, Hraw.
    + by rewrite decide_False.
  - intros Hwf. apply (raw_run_nonneg _ _ _ _ _ _ _ Hwf Hrun).
    by eapply list_elem_of_lookup_2.
Qed.

Lemma result_write_back_witness :
  exists out score reward,
    score_reviews_grouped steady ∅ solo world0 = Ok out /\
    synapses out !! 0 ≫= review_score = Some score /\
    synapses out !! 0 ≫= final_score = Some reward /\
    (0 <= reward <= 100)%R.
Proof.
  destruct (score_reviews_grouped_total steady ∅ solo world0) as [out Hout].
  - apply cache_wf_empty.
  - discriminate.
  - destruct (result_write_back steady ∅ solo world0 out 0
                {| paper_id := Some "p1"; review_text := Some "A review.";
                   review_score := None; final_score := None |} "p1" Hout)
      as (raw & m & ranked & idx & rank & score & a & c & H); try reflexivity.
    cbv zeta in H.
    destruct H as (_ & _ & _ & _ & _ & _ & _ & _ & _ & _ & H1 & H2 & _ & _ & H3).
    exists out, score, (a * exp (-0.5 * INR rank) * c)%R.
    split; [exact Hout|]. split; [exact H1|]. split; [exact H2|].
    apply H3. apply cache_wf_empty.
Defined.

(** * Further properties *)

(** ** The aggregator *)

Lemma validate_and_aggregate_steps d v :
  _validate_and_aggregate d = Ok v <->
  exists d1 d2 terms,
    foldM validate_criterion d CRITERIA = Ok d1 /\
    validate_confidence d1 = Ok d2 /\
    mapM (weighted d2) CRITERIA = Ok terms /\
    v = <["aggregate_score" := VFloat (FFin (py_sum terms))]> d2.
Proof.
  unfold _validate_and_aggregate. split.
  - intros (d1 & H1 & (d2 & H2 & (terms & Ht & [= <-])%bind_Ok)%bind_Ok)%bind_Ok.
    by exists d1, d2, terms.
  - intros (d1 & d2 & terms & H1 & H2 & Ht & ->).
    apply bind_Ok. exists d1. split; [done|].
    apply bind_Ok. exists d2. split; [done|].
    apply bind_Ok. exists terms. by split.
Qed.

Lemma confidence_post_value d d' :
  validate_confidence d = Ok d' ->
  exists pv c, d' !! "confidence" = Some pv /\ real_of pv = Some c /\ (0 <= c <= 1)%R.
Proof.
  intros [_ Hc]%validate_confidence_Ok.
  destruct (d !! "confidence") as [v0|].
  - destruct Hc as (f & _ & Hl). eexists _, _. split; [exact Hl|]. split.
    + apply clamp_confidence_real.
    + apply clamp_to_range. lra.
  - exists (VFloat (FFin 0.5)), 0.5%R. repeat split; [done|lra|lra].
Qed.

(** X1.  In every verdict the aggregator returns, a confidence that was
    absent is 0.5, a confidence that was present is its [float()] value
    clamped into [0,1], and in both cases it is a number in [0,1]. *)
Theorem confidence_clamped result v :
  _validate_and_aggregate result = Ok v ->
  (result !! "confidence" = None ->
     v !! "confidence" = Some (VFloat (FFin 0.5))) /\
  (forall v0, result !! "confidence" = Some v0 ->
     exists f, py_float v0 = Ok f /\
       value_at v "confidence" = Some (clamp_to 0 1 f)) /\
  exists c, value_at v "confidence" = Some c /\ (0 <= c <= 1)%R.
Proof.
  intros (d1 & d2 & terms & H1 & H2 & _ & ->)%validate_and_aggregate_steps.
  pose proof (validate_criteria_Ok _ criteria_nodup _ _ H1) as [_ Hout].
  pose proof (validate_confidence_Ok _ _ H2) as [_ Hc].
  rewrite (Hout "confidence") in Hc by apply confidence_not_criterion.
  unfold value_at. rewrite !lookup_insert_ne by done.
  split; [|split].
  - intros Hnone. by rewrite Hnone in Hc.
  - intros v0 Hv0. rewrite Hv0 in Hc. destruct Hc as (f & Hf & ->).
    exists f. split; [done|]. simpl. apply clamp_confidence_real.
  - destruct (confidence_post_value _ _ H2) as (pv & c & -> & Hr & Hrange).
    exists c. by split.
Qed.

Lemma confidence_clamped_witness :
  exists v, _validate_and_aggregate sloppy_reply = Ok v /\
    value_at v "confidence" = Some 1%R.
Proof.
  destruct (validate_and_aggregate_total _ convertible_sloppy) as [v Hv].
  exists v. split; [exact Hv|].
  destruct (confidence_clamped sloppy_reply v Hv) as (_ & H & _).
  destruct (H (VFloat (FFin 3.5)) eq_refl) as (f & Hf & ->).
  injection Hf as <-. f_equal. unfold clamp_to, Rmax, Rmin. case_cmp; lra.
Defined.

Lemma validate_criterion_insert d c k y d1 :
  k <> c -> validate_criterion d c = Ok d1 ->
  validate_criterion (<[k := y]> d) c = Ok (<[k := y]> d1).
Proof.
  intros Hk. unfold validate_criterion. rewrite lookup_insert_ne by done.
  destruct (d !! c) as [v|].
  - intros (f & -> & [= <-])%bind_Ok. simpl. f_equal. by apply insert_insert_ne.
  - intros [= <-]. f_equal. by apply insert_insert_ne.
Qed.

Lemma validate_criteria_insert cs k y : k ∉ cs -> forall d d1,
  foldM validate_criterion d cs = Ok d1 ->
  foldM validate_criterion (<[k := y]> d) cs = Ok (<[k := y]> d1).
Proof.
  induction cs as [|c cs IH]; intros Hk d d1; simpl.
  - by intros [= <-].
  - apply not_elem_of_cons in Hk as [Hkc Hk].
    intros (d' & Hstep & Hrest)%bind_Ok.
    rewrite (validate_criterion_insert _ _ _ _ _ Hkc Hstep). simpl. by apply IH.
Qed.

Lemma validate_confidence_insert d k y d1 :
  k <> "confidence" -> validate_confidence d = Ok d1 ->
  validate_confidence (<[k := y]> d) = Ok (<[k := y]> d1).
Proof.
  intros Hk. unfold validate_confidence. rewrite lookup_insert_ne by done.
  destruct (d !! "confidence") as [v|].
  - intros (f & -> & [= <-])%bind_Ok. simpl. f_equal. by apply insert_insert_ne.
  - intros [= <-]. f_equal. by apply insert_insert_ne.
Qed.

Lemma mapM_ext_elem {A B} (f g : A -> outcome B) l :
  (forall x, x ∈ l -> f x = g x) -> mapM f l = mapM g l.
Proof.
  induction l as [|x l IH]; intros Hext; simpl; [done|].
  rewrite (Hext x) by apply list_elem_of_here.
  rewrite IH; [done|]. intros y Hy. apply Hext. by apply list_elem_of_further.
Qed.

Lemma weighted_agree (d d' : dict) c : d' !! c = d !! c -> weighted d' c = weighted d c.
Proof. intros H. unfold weighted, getitem. by rewrite H. Qed.

Lemma validate_and_aggregate_insert d v k y :
  k ∉ CRITERIA -> k <> "confidence" ->
  _validate_and_aggregate d = Ok v ->
  _validate_and_aggregate (<[k := y]> d)
  = Ok (<["aggregate_score" := default VNone (v !! "aggregate_score")]> (<[k := y]> v)).
Proof.
  intros Hk1 Hk2 (d1 & d2 & terms & H1 & H2 & Ht & ->)%validate_and_aggregate_steps.
  apply validate_and_aggregate_steps.
  exists (<[k := y]> d1), (<[k := y]> d2), terms.
  split; [by apply validate_criteria_insert|].
  split; [by apply validate_confidence_insert|]. split.
  - rewrite <- Ht. apply mapM_ext_elem. intros c Hc. apply weighted_agree.
    apply lookup_insert_ne. by intros ->.
  - rewrite lookup_insert_eq. simpl.
    destruct (decide (k = "aggregate_score")) as [->|Hne].
    + by rewrite !insert_insert_eq.
    + rewrite (insert_insert_ne _ k) by done. by rewrite insert_insert_eq.
Qed.

Lemma aggregate_not_criterion : "aggregate_score" ∉ CRITERIA.
Proof. intros [_ H]%criteria_not_reserved. by apply H. Qed.

(** X2.  The aggregator leaves every key of the reply other than the six
    criteria, the confidence and the aggregate as it found it, and the
    aggregate_score of the verdict is always the one it computes: a reply
    that carries an aggregate_score of its own gets the same verdict as
    the reply without it. *)
Theorem aggregate_recomputed result v :
  _validate_and_aggregate result = Ok v ->
  (forall k, k ∉ CRITERIA -> k <> "confidence" -> k <> "aggregate_score" ->
     v !! k = result !! k) /\
  (forall y, _validate_and_aggregate (<["aggregate_score" := y]> result) = Ok v) /\
  (forall k y, k ∉ CRITERIA -> k <> "confidence" -> k <> "aggregate_score" ->
     _validate_and_aggregate (<[k := y]> result) = Ok (<[k := y]> v)).
Proof.
  intros Hv.
  assert (Hagg : exists A, v !! "aggregate_score" = Some A).
  { apply validate_and_aggregate_steps in Hv as (d1 & d2 & terms & _ & _ & _ & ->).
    rewrite lookup_insert_eq. eauto. }
  destruct Hagg as [A HA].
  split; [|split].
  - apply validate_and_aggregate_steps in Hv
      as (d1 & d2 & terms & H1 & H2 & _ & ->).
    pose proof (validate_criteria_Ok _ criteria_nodup _ _ H1) as [_ Hout].
    pose proof (validate_confidence_Ok _ _ H2) as [Hsame _].
    intros k Hk1 Hk2 Hk3.
    by rewrite lookup_insert_ne, Hsame, Hout.
  - intros y.
    rewrite (validate_and_aggregate_insert _ _ _ y aggregate_not_criterion
               ltac:(discriminate) Hv).
    rewrite HA. simpl. rewrite insert_insert_eq. f_equal. by apply insert_id.
  - intros k y Hk1 Hk2 Hk3.
    rewrite (validate_and_aggregate_insert _ _ _ y Hk1 Hk2 Hv).
    rewrite HA. simpl. f_equal. apply insert_id.
    by rewrite lookup_insert_ne.
Qed.

Lemma aggregate_recomputed_witness :
  exists v,
    _validate_and_aggregate perfect_reply = Ok v /\
    v !! "justification" = Some (VStr "thorough") /\
    _validate_and_aggregate (<["aggregate_score" := VInt 1000]> perfect_reply) = Ok v.
Proof.
  destruct perfect_reply_verdict as (v & Hv & _).
  exists v. split; [exact Hv|].
  destruct (aggregate_recomputed perfect_reply v Hv) as (H1 & H2 & _).
  split; [|apply H2].
  rewrite H1; [reflexivity| |discriminate|discriminate].
  unfold CRITERIA. rewrite !elem_of_cons, elem_of_nil.
  intros H. repeat destruct H as [H|H]; try discriminate. exact H.
Defined.

Lemma clamp_criterion_cases f :
  let pv := py_max (VInt 0) (py_min (VInt 5) (VFloat f)) in
  pv = VInt 0 \/ pv = VInt 5 \/ exists x, pv = VFloat (FFin x) /\ (0 < x < 5)%R.
Proof.
  destruct f as [x| |[|]]; unfold py_max, py_min, py_lt; case_cmp; eauto.
  right. right. exists x. split; [done|lra].
Qed.

Lemma clamp_confidence_cases f :
  let pv := py_max (VFloat (FFin 0.0)) (py_min (VFloat (FFin 1.0)) (VFloat f)) in
  pv = VFloat (FFin 0.0) \/ pv = VFloat (FFin 1.0) \/
  exists x, pv = VFloat (FFin x) /\ (0 < x < 1)%R.
Proof.
  destruct f as [x| |[|]]; unfold py_max, py_min, py_lt; case_cmp; eauto.
  right. right. exists x. split; [done|lra].
Qed.

Lemma validate_criterion_fixed (d : dict) c pv :
  d !! c = Some pv ->
  (pv = VInt 0 \/ pv = VInt 5 \/ exists x, pv = VFloat (FFin x) /\ (0 < x < 5)%R) ->
  validate_criterion d c = Ok d.
Proof.
  intros Hl Hcases. unfold validate_criterion. rewrite Hl.
  assert (exists f, py_float pv = Ok f /\
            py_max (VInt 0) (py_min (VInt 5) (VFloat f)) = pv) as (f & -> & Hpv).
  { destruct Hcases as [->|[->|(x & -> & Hx)]].
    - exists (FFin 0). split; [reflexivity|].
      unfold py_max, py_min, py_lt. case_cmp; (reflexivity || lra).
    - exists (FFin 5). split; [reflexivity|].
      unfold py_max, py_min, py_lt. case_cmp; (reflexivity || lra).
    - exists (FFin x). split; [reflexivity|].
      unfold py_max, py_min, py_lt. case_cmp; (reflexivity || lra). }
  simpl. rewrite Hpv. f_equal. by apply insert_id.
Qed.

Lemma validate_confidence_fixed (d : dict) pv :
  d !! "confidence" = Some pv ->
  (pv = VFloat (FFin 0.0) \/ pv = VFloat (FFin 1.0) \/
   exists x, pv = VFloat (FFin x) /\ (0 < x < 1)%R) ->
  validate_confidence d = Ok d.
Proof.
  intros Hl Hcases. unfold validate_confidence. rewrite Hl.
  assert (exists f, py_float pv = Ok f /\
            py_max (VFloat (FFin 0.0)) (py_min (VFloat (FFin 1.0)) (VFloat f)) = pv)
    as (f & -> & Hpv).
  { destruct Hcases as [->|[->|(x & -> & Hx)]].
    - exists (FFin 0.0). split; [reflexivity|].
      unfold py_max, py_min, py_lt. case_cmp; (reflexivity || lra).
    - exists (FFin 1.0). split; [reflexivity|].
      unfold py_max, py_min, py_lt. case_cmp; (reflexivity || lra).
    - exists (FFin x). split; [reflexivity|].
      unfold py_max, py_min, py_lt. case_cmp; (reflexivity || lra). }
  simpl. rewrite Hpv. f_equal. by apply insert_id.
Qed.

Lemma foldM_fixed {A B} (f : A -> B -> outcome A) a l :
  (forall b, b ∈ l -> f a b = Ok a) -> foldM f a l = Ok a.
Proof.
  induction l as [|b l IH]; intros H; simpl; [done|].
  rewrite (H b) by apply list_elem_of_here. simpl.
  apply IH. intros b' Hb'. apply H. by apply list_elem_of_further.
Qed.

(** X3.  The aggregator is idempotent: applied to a verdict it returned,
    it returns that verdict again, unchanged. *)
Theorem validate_and_aggregate_idempotent result v :
  _validate_and_aggregate result = Ok v -> _validate_and_aggregate v = Ok v.
Proof.
  intros (d1 & d2 & terms & H1 & H2 & Ht & ->)%validate_and_aggregate_steps.
  pose proof (validate_criteria_Ok _ criteria_nodup _ _ H1) as [Hpost _].
  pose proof (validate_confidence_Ok _ _ H2) as [Hsame Hc].
  set (v := <["aggregate_score" := VFloat (FFin (py_sum terms))]> d2).
  assert (Hcrit : forall c, c ∈ CRITERIA -> v !! c = d1 !! c).
  { intros c Hc'. destruct (criteria_not_reserved c Hc') as [Hn1 Hn2].
    unfold v. rewrite lookup_insert_ne by done. by apply Hsame. }
  apply validate_and_aggregate_steps. exists v, v, terms.
  split; [|split; [|split]].
  - apply foldM_fixed. intros c Hc'.
    specialize (Hpost c Hc'). unfold criterion_post in Hpost.
    destruct (result !! c) as [v0|].
    + destruct Hpost as (f & _ & Hl).
      eapply validate_criterion_fixed; [by rewrite Hcrit|].
      apply clamp_criterion_cases.
    + eapply validate_criterion_fixed; [by rewrite Hcrit|]. by left.
  - destruct (d1 !! "confidence") as [v0|].
    + destruct Hc as (f & _ & Hl).
      eapply validate_confidence_fixed.
      * unfold v. rewrite lookup_insert_ne by done. exact Hl.
      * apply clamp_confidence_cases.
    + eapply validate_confidence_fixed.
      * unfold v. rewrite lookup_insert_ne by done. exact Hc.
      * right. right. exists 0.5%R. split; [done|lra].
  - rewrite <- Ht. apply mapM_ext_elem. intros c Hc'. apply weighted_agree.
    destruct (criteria_not_reserved c Hc') as [Hn1 Hn2].
    unfold v. by rewrite lookup_insert_ne.
  - unfold v. by rewrite insert_insert_eq.
Qed.

Lemma validate_and_aggregate_idempotent_witness :
  exists v, _validate_and_aggregate sloppy_reply = Ok v /\
            _validate_and_aggregate v = Ok v.
Proof.
  destruct (validate_and_aggregate_total _ convertible_sloppy) as [v Hv].
  exists v. split; [exact Hv|].
  exact (validate_and_aggregate_idempotent sloppy_reply v Hv).
Defined.

Lemma validate_and_aggregate_values d v :
  _validate_and_aggregate d = Ok v ->
  (forall c, c ∈ CRITERIA ->
     (d !! c = None -> v !! c = Some (VInt 0)) /\
     (forall v0, d !! c = Some v0 ->
        exists f, py_float v0 = Ok f /\ value_at v c = Some (clamp_to 0 5 f))) /\
  exists x : string -> R,
    (forall c, c ∈ CRITERIA -> value_at v c = Some (x c)) /\
    v !! "aggregate_score" = Some (VFloat (FFin (weighted_sum x))).
Proof.
  intros Hv.
  destruct (validate_and_aggregate_Ok _ _ Hv)
    as (d1 & d2 & x & H1 & H2 & Hpost & Hx & ->).
  pose proof (validate_confidence_Ok _ _ H2) as [Hsame _].
  assert (Hlook : forall c, c ∈ CRITERIA ->
            (<["aggregate_score" := VFloat (FFin (weighted_sum x))]> d2 : dict) !! c
            = d1 !! c).
  { intros c Hc. destruct (criteria_not_reserved c Hc) as [Hn1 Hn2].
    rewrite lookup_insert_ne by done. by apply Hsame. }
  split.
  - intros c Hc. specialize (Hpost c Hc). unfold criterion_post in Hpost. split.
    + intros Hnone. rewrite Hnone in Hpost. by rewrite Hlook.
    + intros v0 Hv0. rewrite Hv0 in Hpost. destruct Hpost as (f & Hf & Hl).
      exists f. split; [done|]. unfold value_at. rewrite Hlook, Hl by done.
      simpl. apply clamp_criterion_real.
  - exists x. split; [|by rewrite lookup_insert_eq].
    intros c Hc. destruct (Hx c Hc) as [Hv' _].
    unfold value_at in *. rewrite Hlook by done.
    destruct (criteria_not_reserved c Hc) as [Hn1 Hn2].
    by rewrite <- Hsame.
Qed.

Lemma criterion_value_spec d v c :
  _validate_and_aggregate d = Ok v -> c ∈ CRITERIA ->
  value_at v c = Some (criterion_value d c).
Proof.
  intros Hv Hc.
  destruct (validate_and_aggregate_values d v Hv) as [Hcrit _].
  destruct (Hcrit c Hc) as (Hnone & Hsome).
  unfold criterion_value. destruct (d !! c) as [v0|] eqn:E.
  - destruct (Hsome v0 eq_refl) as (f & -> & Hval). exact Hval.
  - unfold value_at. rewrite Hnone by done. reflexivity.
Qed.

Lemma weighted_sum_ext (x y : string -> R) :
  (forall c, c ∈ CRITERIA -> x c = y c) -> weighted_sum x = weighted_sum y.
Proof.
  intros (H1 & H2 & H3 & H4 & H5 & H6)%criteria_forall.
  unfold weighted_sum. by rewrite H1, H2, H3, H4, H5, H6.
Qed.

Lemma weighted_sum_mono (x y : string -> R) :
  (forall c, c ∈ CRITERIA -> (x c <= y c)%R) -> (weighted_sum x <= weighted_sum y)%R.
Proof.
  intros (H1 & H2 & H3 & H4 & H5 & H6)%criteria_forall.
  unfold weighted_sum. lra.
Qed.

Lemma aggregate_formula d v :
  _validate_and_aggregate d = Ok v ->
  aggregate_of v = Ok (weighted_sum (criterion_value d)).
Proof.
  intros Hv.
  destruct (validate_and_aggregate_values d v Hv) as [_ (x & Hx & Hagg)].
  unfold aggregate_of, getitem. rewrite Hagg. simpl. unfold to_real. simpl.
  f_equal. apply weighted_sum_ext. intros c Hc.
  pose proof (criterion_value_spec d v c Hv Hc) as Hval.
  rewrite (Hx c Hc) in Hval. by injection Hval.
Qed.

Lemma clamp_to_mono lo hi x y :
  (x <= y)%R -> (clamp_to lo hi (FFin x) <= clamp_to lo hi (FFin y))%R.
Proof. intros Hxy. unfold clamp_to, Rmax, Rmin. case_cmp; lra. Qed.

(** X4.  The aggregate score is the weighted sum of the clamped criteria,
    times 20, and it is monotone: a reply whose six clamped criteria are
    each at least those of another gets an aggregate at least as high.
    Raising a finite criterion never lowers its clamped value. *)
Theorem aggregate_monotone d d' v v' :
  _validate_and_aggregate d = Ok v ->
  _validate_and_aggregate d' = Ok v' ->
  (forall c, c ∈ CRITERIA -> (criterion_value d c <= criterion_value d' c)%R) ->
  aggregate_of v = Ok (weighted_sum (criterion_value d)) /\
  aggregate_of v' = Ok (weighted_sum (criterion_value d')) /\
  (weighted_sum (criterion_value d) <= weighted_sum (criterion_value d'))%R /\
  (forall x y, (x <= y)%R -> (clamp_to 0 5 (FFin x) <= clamp_to 0 5 (FFin y))%R).
Proof.
  intros Hv Hv' Hle. repeat split.
  - by apply aggregate_formula.
  - by apply aggregate_formula.
  - by apply weighted_sum_mono.
  - intros x y. apply clamp_to_mono.
Qed.

Lemma criterion_value_range d c : (0 <= criterion_value d c <= 5)%R.
Proof.
  unfold criterion_value. destruct (d !! c) as [v0|]; [|lra].
  destruct (py_float v0) as [f|e]; [|lra]. apply clamp_to_range. lra.
Qed.

Lemma convertible_empty : convertible ∅.
Proof. intros k _ v Hv. by rewrite lookup_empty in Hv. Qed.

Lemma aggregate_monotone_witness :
  exists v v' a a',
    _validate_and_aggregate ∅ = Ok v /\
    _validate_and_aggregate sloppy_reply = Ok v' /\
    aggregate_of v = Ok a /\ aggregate_of v' = Ok a' /\ (a <= a')%R.
Proof.
  destruct (validate_and_aggregate_total _ convertible_empty) as [v Hv].
  destruct (validate_and_aggregate_total _ convertible_sloppy) as [v' Hv'].
  destruct (aggregate_monotone ∅ sloppy_reply v v' Hv Hv') as (H1 & H2 & H3 & _).
  - intros c _. unfold criterion_value at 1. rewrite lookup_empty.
    apply criterion_value_range.
  - exists v, v', (weighted_sum (criterion_value ∅)),
      (weighted_sum (criterion_value sloppy_reply)).
    repeat split; assumption.
Defined.

(** ** The cache key and the prompt *)

Lemma append_cons ch (a b : string) :
  (String ch a ++ b = String ch (a ++ b))%string.
Proof. reflexivity. Qed.

Lemma append_assoc (a b c : string) : ((a ++ b) ++ c = a ++ (b ++ c))%string.
Proof.
  induction a as [|ch a IH]; [done|]. rewrite !append_cons. f_equal. exact IH.
Qed.

Lemma length_append (a b : string) :
  String.length (a ++ b) = String.length a + String.length b.
Proof.
  induction a as [|ch a IH]; [done|]. rewrite append_cons. simpl. by rewrite IH.
Qed.

Lemma str_prefix_cons n ch s :
  str_prefix (S n) (String ch s) = String ch (str_prefix n s).
Proof. unfold str_prefix. destruct n; reflexivity. Qed.

Lemma str_prefix_nil n : str_prefix n "" = "".
Proof. by destruct n. Qed.

Lemma str_prefix_0 s : str_prefix 0 s = "".
Proof. by destruct s. Qed.

Lemma length_str_prefix n s : String.length (str_prefix n s) = n `min` String.length s.
Proof.
  revert s. induction n as [|n IH]; intros [|ch s];
    rewrite ?str_prefix_nil, ?str_prefix_0, ?str_prefix_cons; simpl; try done.
  by rewrite IH.
Qed.

Lemma str_prefix_idem n s : str_prefix n (str_prefix n s) = str_prefix n s.
Proof.
  revert s. induction n as [|n IH]; intros [|ch s];
    rewrite ?str_prefix_nil, ?str_prefix_0, ?str_prefix_cons; try done.
  by rewrite IH.
Qed.

Lemma str_prefix_append n s tail :
  String.length s = n -> str_prefix n (s ++ tail) = s.
Proof.
  revert n. induction s as [|ch s IH]; intros n Hn; simpl in Hn.
  - subst n. apply str_prefix_0.
  - destruct n as [|n]; [done|]. rewrite append_cons, str_prefix_cons.
    f_equal. apply IH. lia.
Qed.

(** X5.  The cache key is a digest of the text [model|abstract|review],
    not of the triple: two requests whose joined texts coincide share one
    cache entry.  So once the review [t] of the abstract [a ++ "|" ++ x]
    is cached, scoring the review [x ++ "|" ++ t] of the abstract [a]
    returns that verdict without asking the oracle. *)
Theorem cache_key_conflation self a x t :
  _cache_key self (a ++ "|" ++ x) t = _cache_key self a (x ++ "|" ++ t) /\
  forall w v,
    _get_cached w (_cache_key self (a ++ "|" ++ x) t) = Some v ->
    score_review self a (x ++ "|" ++ t) true w = (v, w).
Proof.
  assert (Hkey : _cache_key self (a ++ "|" ++ x) t
                 = _cache_key self a (x ++ "|" ++ t)).
  { unfold _cache_key. f_equal. f_equal. f_equal.
    by rewrite !append_assoc. }
  split; [exact Hkey|].
  intros w v Hv. apply score_review_hit. by rewrite <- Hkey.
Qed.

(** X6.  The prompt is built from the first 1000 characters of the
    abstract and the first 3000 of the review only: its length is 78 plus
    those two lengths, so at most 4078, and two reviews that agree on
    their first 3000 characters give the same prompt. *)
Theorem user_prompt_bounded a t :
  String.length (user_prompt a t)
  = prompt_overhead + (1000 `min` String.length a) + (3000 `min` String.length t) /\
  String.length (user_prompt a t) <= 4078 /\
  user_prompt a t = user_prompt (str_prefix 1000 a) (str_prefix 3000 t) /\
  (forall head tail tail',
     String.length head = 3000 ->
     user_prompt a (head ++ tail) = user_prompt a (head ++ tail')).
Proof.
  assert (Hlen : String.length (user_prompt a t)
    = prompt_overhead + (1000 `min` String.length a) + (3000 `min` String.length t)).
  { unfold user_prompt. rewrite !length_append, !length_str_prefix.
    unfold nl, prompt_overhead. simpl. lia. }
  split; [exact Hlen|]. split; [rewrite Hlen; unfold prompt_overhead; lia|]. split.
  - unfold user_prompt. by rewrite !str_prefix_idem.
  - intros head tail tail' Hhead. unfold user_prompt.
    by rewrite !str_prefix_append.
Qed.

(** ** What a run leaves in the world *)

Lemma world_extends_refl w : world_extends w w.
Proof. split; reflexivity. Qed.

Lemma world_extends_trans w1 w2 w3 :
  world_extends w1 w2 -> world_extends w2 w3 -> world_extends w1 w3.
Proof. intros [H1 H2] [H3 H4]. split; by etrans. Qed.

Lemma score_review_extends self a t use_cache w :
  world_extends w (snd (score_review self a t use_cache w)).
Proof.
  unfold score_review.
  destruct (if use_cache then _ else _) as [v|] eqn:E; simpl;
    [apply world_extends_refl|].
  destruct (_ ≫= _) as [v|e]; simpl.
  - destruct use_cache; simpl; split; try done.
    + apply insert_subseteq. exact E.
    + by apply suffix_cons_r.
    + by apply suffix_cons_r.
  - split; [done|]. by apply suffix_cons_r.
Qed.

Lemma sfp_extends self a rvs : forall w,
  world_extends w (snd (score_reviews_for_paper self a rvs w)).
Proof.
  induction rvs as [|rv rvs IH]; intros w; simpl; [apply world_extends_refl|].
  destruct (no_text (entry_text rv)).
  - specialize (IH w). by destruct (score_reviews_for_paper self a rvs w).
  - pose proof (score_review_extends self a (default "" (entry_text rv)) true w) as H1.
    destruct (score_review _ _ _ _ _) as [score w1]. simpl in H1.
    specialize (IH w1). destruct (score_reviews_for_paper self a rvs w1).
    simpl in *. by eapply world_extends_trans.
Qed.

Lemma score_group_world scorer md w rew resp pid rvs w' rew' resp' :
  score_group scorer md (w, rew, resp) (pid, rvs) = Ok (w', rew', resp') ->
  w' = snd (score_reviews_for_paper scorer (paper_context md pid) rvs w).
Proof.
  unfold score_group.
  destruct (score_reviews_for_paper _ _ _ _) as [scores w1]. simpl.
  intros (ranked & _ & ([rew1 resp1] & _ & [= <- <- <-])%bind_Ok)%bind_Ok. done.
Qed.

(** A relation between worlds that scoring one paper's reviews respects
    is respected by the loop over the groups, and holds between the
    world at the start and the world each group is scored in. *)
Section world_relation.
Variable scorer : LLMReviewScorer.
Variable md : gmap string paper_info.
Variable Rel : world -> world -> Prop.
Hypothesis Rel_refl : forall w, Rel w w.
Hypothesis Rel_trans : forall w1 w2 w3, Rel w1 w2 -> Rel w2 w3 -> Rel w1 w3.
Hypothesis Rel_step : forall a rvs w,
  Rel w (snd (score_reviews_for_paper scorer a rvs w)).

Lemma score_groups_rel gs : forall w rew resp w' rew' resp',
  NoDup (uids_of gs) ->
  foldM (score_group scorer md) (w, rew, resp) gs = Ok (w', rew', resp') ->
  Rel w w' /\
  forall pid rvs, (pid, rvs) ∈ gs ->
    exists wk, Rel w wk /\ group_scored scorer md pid rvs resp wk rew' resp'.
Proof.
  induction gs as [|[pid rvs] gs IH]; intros w rew resp w' rew' resp' Hnd; simpl.
  - intros [= <- <- <-]. split; [apply Rel_refl|]. intros pid rvs []%elem_of_nil.
  - intros ([[w1 rew1] resp1] & Hstep & Hrest)%bind_Ok.
    pose proof Hrest as Hrest'.
    unfold uids_of in Hnd. simpl in Hnd. fold (uids_of gs) in Hnd.
    apply NoDup_app in Hnd as (Hnd1 & Hdisj & Hnd2).
    apply score_group_spec in Hstep as (Hw1 & Hl1 & Hl2 & Hout1 & Hsc1); [|done].
    apply score_groups_spec in Hrest' as (_ & _ & Hout2 & _); [|done].
    apply IH in Hrest as (Hrel & Hsc2); [|done].
    assert (Hrel1 : Rel w w1) by (rewrite Hw1; apply Rel_step).
    split; [by eapply Rel_trans|].
    intros pid' rvs' [[= -> ->]|Hin]%elem_of_cons.
    + exists w. split; [apply Rel_refl|].
      eapply group_scored_frame; [ | |exact Hsc1]; [done|].
      intros j Hj. apply Hout2. by apply Hdisj.
    + destruct (Hsc2 pid' rvs' Hin) as (wk & Hwk & Hsc).
      exists wk. split; [by eapply Rel_trans|].
      eapply group_scored_frame; [ | |exact Hsc]; [|done].
      intros j Hj. apply Hout1. intros Hj1. apply (Hdisj j Hj1).
      unfold uids_of. apply list_elem_of_bind. exists (pid', rvs'). by split.
Qed.

Lemma raw_run_rel responses w w' raw resp' :
  raw_run scorer md responses w = Ok (w', raw, resp') ->
  Rel w w' /\
  forall pid, members responses pid <> [] ->
    exists wk, Rel w wk /\
      group_scored scorer md pid (entry_of responses <$> members responses pid)
        responses wk raw resp'.
Proof.
  unfold raw_run. intros Hfold.
  pose proof (group_reviews_spec responses) as Hg.
  apply score_groups_rel in Hfold as [Hrel Hsc];
    [|by apply (uids_of_NoDup responses)].
  split; [done|]. intros pid Hne. apply Hsc.
  apply (grouped_as_elem responses); done.
Qed.
End world_relation.

(** X7.  Scoring only ever adds to the cache and to the requests sent: a
    verdict, once cached, is returned unchanged by every later lookup,
    whatever [score_review], [score_reviews_for_paper] or the entry
    point do in between; no cache entry is overwritten or removed. *)
Theorem cache_only_grows scorer :
  (forall a t use_cache w,
     world_extends w (snd (score_review scorer a t use_cache w))) /\
  (forall a rvs w,
     world_extends w (snd (score_reviews_for_paper scorer a rvs w))) /\
  (forall md responses w out,
     score_reviews_grouped scorer md responses w = Ok out ->
     world_extends w (after out) /\
     forall k v, _get_cached w k = Some v -> _get_cached (after out) k = Some v).
Proof.
  split; [|split].
  - apply score_review_extends.
  - apply sfp_extends.
  - intros md responses w out (raw & Hrun & _)%score_reviews_grouped_inv.
    apply (raw_run_rel scorer md world_extends) in Hrun as [Hext _].
    + split; [done|]. intros k v Hk. destruct Hext as [Hsub _].
      unfold _get_cached in *. by eapply lookup_weaken.
    + apply world_extends_refl.
    + apply world_extends_trans.
    + apply sfp_extends.
Qed.

Lemma cache_only_grows_witness :
  exists out,
    score_reviews_grouped steady ∅ trio world0 = Ok out /\
    world_extends world0 (after out).
Proof.
  destruct (score_reviews_grouped_total steady ∅ trio world0) as [out Hout].
  - apply cache_wf_empty.
  - discriminate.
  - exists out. split; [exact Hout|].
    destruct (cache_only_grows steady) as (_ & _ & H).
    destruct (H ∅ trio world0 out Hout) as [Hext _]. exact Hext.
Defined.

(** ** The cost of a run *)

Lemma List_filter_sublist {A} (f : A -> bool) l : List.filter f l `sublist_of` l.
Proof.
  induction l as [|x l IH]; simpl; [constructor|].
  destruct (f x); by constructor.
Qed.

Lemma texted_sublist gs : texted gs `sublist_of` uids_of gs.
Proof.
  induction gs as [|[pid rvs] gs IH]; [constructor|].
  unfold texted, uids_of in *. rewrite !bind_cons. apply sublist_app; [|exact IH].
  apply fmap_sublist, List_filter_sublist.
Qed.

Lemma texted_length gs :
  length (texted gs)
  = length (gs ≫= fun g : string * list review => List.filter has_text (snd g)).
Proof.
  induction gs as [|[pid rvs] gs IH]; [done|].
  unfold texted in *. rewrite !bind_cons, !length_app, length_fmap. by rewrite IH.
Qed.

Lemma score_groups_calls scorer md gs : forall w rew resp w' rew' resp',
  foldM (score_group scorer md) (w, rew, resp) gs = Ok (w', rew', resp') ->
  exists new, calls w' = new ++ calls w /\ length new <= length (texted gs).
Proof.
  induction gs as [|[pid rvs] gs IH]; intros w rew resp w' rew' resp';
    cbn [foldM].
  - intros [= <- <- <-]. exists []. split; [done|simpl; lia].
  - intros ([[w1 rew1] resp1] & Hstep & Hrest)%bind_Ok.
    apply score_group_world in Hstep.
    destruct (sfp_calls scorer (paper_context md pid) rvs w) as (n1 & Hn1 & Hl1).
    rewrite <- Hstep in Hn1.
    apply IH in Hrest as (n2 & Hn2 & Hl2).
    exists (n2 ++ n1). rewrite Hn2, Hn1, <- app_assoc. split; [done|].
    unfold texted in *. rewrite bind_cons, !length_app, length_fmap. simpl. lia.
Qed.

Lemma texted_scorable responses gs i :
  grouped_as responses gs -> i ∈ texted gs -> i ∈ scorable responses.
Proof.
  intros Hg. unfold texted. rewrite list_elem_of_bind.
  intros ([pid rvs] & Hi & [_ ->]%(grouped_as_elem responses)); [|done].
  simpl in Hi. apply list_elem_of_fmap in Hi as (rv & -> & Hrv).
  apply list_elem_of_In, filter_In in Hrv as [Hrv Htext].
  apply list_elem_of_In, list_elem_of_fmap in Hrv as (j & -> & Hj).
  simpl. unfold scorable. apply list_elem_of_filter. split.
  - split; [|exact Htext]. apply members_paper in Hj. by rewrite Hj.
  - apply elem_of_seq. apply members_lt in Hj. lia.
Qed.

(** X8.  One call of the entry point sends at most one request per
    submission that names a paper and has text, so never more requests
    than there are submissions; the requests sent before stay on record
    behind the new ones. *)
Theorem oracle_requests_bounded scorer md responses w out :
  score_reviews_grouped scorer md responses w = Ok out ->
  exists new,
    calls (after out) = new ++ calls w /\
    length new <= length (scorable responses) /\
    length (scorable responses) <= length responses.
Proof.
  intros (raw & Hrun & _)%score_reviews_grouped_inv.
  unfold raw_run in Hrun.
  apply score_groups_calls in Hrun as (new & Hnew & Hlen).
  exists new. split; [done|]. split.
  - etrans; [exact Hlen|].
    pose proof (group_reviews_spec responses) as Hg.
    apply submseteq_length, NoDup_submseteq.
    + eapply sublist_NoDup; [|apply texted_sublist].
      by apply (uids_of_NoDup responses).
    + intros i. by apply texted_scorable.
  - unfold scorable. etrans; [apply length_filter|]. by rewrite length_seq.
Qed.

Lemma oracle_requests_bounded_witness :
  exists out new,
    score_reviews_grouped steady ∅ trio world0 = Ok out /\
    calls (after out) = new ++ [] /\ length new <= 1.
Proof.
  destruct (score_reviews_grouped_total steady ∅ trio world0) as [out Hout].
  - apply cache_wf_empty.
  - discriminate.
  - destruct (oracle_requests_bounded steady ∅ trio world0 out Hout)
      as (new & Hnew & Hlen & _).
    exists out, new. split; [exact Hout|]. split; [exact Hnew|exact Hlen].
Defined.

(** ** Submissions one by one *)

Lemma normalize_length raw out : normalize raw = Ok out -> length out = length raw.
Proof.
  intros (m & _ & [[_ ->]|[_ ->]])%normalize_Ok; [|done]. by rewrite length_fmap.
Qed.

Lemma normalize_zero raw out i :
  normalize raw = Ok out -> raw !! i = Some 0%R -> out !! i = Some 0%R.
Proof.
  intros (m & _ & [[Hm ->]|[_ ->]])%normalize_Ok Hi; [|done].
  rewrite list_lookup_fmap, Hi. simpl. f_equal. field. lra.
Qed.

Lemma normalize_mono raw out i j x y x' y' :
  normalize raw = Ok out ->
  raw !! i = Some x -> raw !! j = Some y ->
  out !! i = Some x' -> out !! j = Some y' ->
  ((x <= y)%R -> (x' <= y')%R) /\ ((x < y)%R -> (x' < y')%R).
Proof.
  intros (m & _ & [[Hm ->]|[_ ->]])%normalize_Ok Hi Hj.
  - rewrite !list_lookup_fmap, Hi, Hj. simpl. intros [= <-] [= <-].
    assert (0 < / m)%R by (by apply Rinv_0_lt_compat).
    unfold Rdiv. split; intros; nra.
  - rewrite Hi, Hj. intros [= <-] [= <-]. done.
Qed.

Lemma decay_pos rank : (0 < decay rank)%R.
Proof. apply exp_pos. Qed.

Lemma decay_decreasing r1 r2 : r1 < r2 -> (decay r2 < decay r1)%R.
Proof.
  intros Hlt. unfold decay. apply exp_increasing.
  apply lt_INR in Hlt. lra.
Qed.

(** X9.  A submission that names no paper is left out of every group:
    its entry of the returned vector is 0 and its synapse comes back as it
    was sent, with no verdict and no score written to it. *)
Theorem unmatched_submission scorer md responses w out i r :
  score_reviews_grouped scorer md responses w = Ok out ->
  responses !! i = Some r -> paper_id r = None ->
  rewards out !! i = Some 0%R /\ synapses out !! i = Some r /\
  i ∉ scorable responses.
Proof.
  intros (raw & Hrun & Hnorm & _)%score_reviews_grouped_inv Hi Hp.
  apply raw_run_spec in Hrun as (_ & _ & _ & Hnone & _).
  destruct (Hnone i r Hi Hp) as [Hraw Hresp].
  split; [by eapply normalize_zero|]. split; [done|].
  unfold scorable. rewrite list_elem_of_filter. intros [[[pid Hpid] _] _].
  unfold paper_of in Hpid. rewrite Hi in Hpid. simpl in Hpid. congruence.
Qed.

Lemma unmatched_submission_witness :
  exists out,
    score_reviews_grouped steady ∅ trio world0 = Ok out /\
    rewards out !! 2 = Some 0%R /\
    synapses out !! 2 = trio !! 2.
Proof.
  destruct (score_reviews_grouped_total steady ∅ trio world0) as [out Hout].
  - apply cache_wf_empty.
  - discriminate.
  - exists out. split; [exact Hout|].
    destruct (unmatched_submission steady ∅ trio world0 out 2
                {| paper_id := None; review_text := None;
                   review_score := None; final_score := None |} Hout)
      as (H1 & H2 & _); try reflexivity.
    split; [exact H1|exact H2].
Defined.

(** X10.  The result is aligned with the input: the reward vector and
    the synapses have one entry per submission, the uids returned are
    the positions 0..n-1 in the input list, and the synapse at a position
    is the submission that was sent there, with its paper id and text as
    they were. *)
Theorem result_alignment scorer md responses w out :
  score_reviews_grouped scorer md responses w = Ok out ->
  length (rewards out) = length responses /\
  length (synapses out) = length responses /\
  miner_uids out = seq 0 (length responses) /\
  length (miner_uids out) = length (rewards out) /\
  forall i r, responses !! i = Some r ->
    exists s, synapses out !! i = Some s /\
      paper_id s = paper_id r /\ review_text s = review_text r.
Proof.
  intros (raw & Hrun & Hnorm & Huids)%score_reviews_grouped_inv.
  pose proof (raw_run_spec _ _ _ _ _ _ _ Hrun) as (Hl1 & Hl2 & _ & Hnone & _).
  apply normalize_length in Hnorm.
  split; [lia|]. split; [done|]. split; [done|].
  split; [rewrite Huids, length_seq; lia|].
  intros i r Hi. destruct (paper_id r) as [pid|] eqn:Hp.
  - destruct (raw_run_submission _ _ _ _ _ _ _ i r pid Hrun Hi Hp)
      as (wk & ranked & idx & rank & score & a & c & _ & _ & _ & _ & _ & _ & _
          & _ & Hresp).
    eexists. split; [exact Hresp|]. simpl. done.
  - destruct (Hnone i r Hi Hp) as [_ Hresp]. exists r. by rewrite Hp.
Qed.

Lemma result_alignment_witness :
  exists out,
    score_reviews_grouped steady ∅ trio world0 = Ok out /\
    length (rewards out) = 3 /\ miner_uids out = [0; 1; 2].
Proof.
  destruct (score_reviews_grouped_total steady ∅ trio world0) as [out Hout].
  - apply cache_wf_empty.
  - discriminate.
  - exists out. split; [exact Hout|].
    destruct (result_alignment steady ∅ trio world0 out Hout)
      as (H1 & _ & H2 & _).
    split; [exact H1|exact H2].
Defined.

(** X11.  A cache that holds verdicts in range keeps doing so, and what
    a run writes to a scored synapse is in range as well: a verdict with
    aggregate in [0,100] and confidence in [0,1], and a final score in
    [0,100], the range the protocol documents for it. *)
Theorem verdicts_in_range scorer md responses w out :
  cache_wf (cache w) ->
  score_reviews_grouped scorer md responses w = Ok out ->
  cache_wf (cache (after out)) /\
  forall i r, responses !! i = Some r -> is_Some (paper_id r) ->
    exists v f,
      synapses out !! i = Some (write_back r v f) /\
      verdict_ok v /\ (0 <= f <= 100)%R.
Proof.
  intros Hwf (raw & Hrun & Hnorm & _)%score_reviews_grouped_inv.
  pose proof (raw_run_spec _ _ _ _ _ _ _ Hrun) as (_ & _ & Hwf' & _ & _).
  split; [by apply Hwf'|].
  intros i r Hi [pid Hp].
  destruct (raw_run_submission _ _ _ _ _ _ _ i r pid Hrun Hi Hp)
    as (wk & ranked & idx & rank & score & a & c & Hwk & _ & _ & _ & Hs & _ & _
        & Hraw & Hresp).
  exists score, (a * decay rank * c)%R. split; [done|]. split.
  - pose proof (sfp_ok scorer (paper_context md pid)
                  (entry_of responses <$> members responses pid) wk (Hwk Hwf))
      as [Hok _].
    rewrite Forall_forall in Hok. apply Hok. by eapply list_elem_of_lookup_2.
  - apply (raw_run_nonneg _ _ _ _ _ _ _ Hwf Hrun). by eapply list_elem_of_lookup_2.
Qed.

Lemma verdicts_in_range_witness :
  exists out,
    score_reviews_grouped steady ∅ trio world0 = Ok out /\
    cache_wf (cache (after out)).
Proof.
  destruct (score_reviews_grouped_total steady ∅ trio world0) as [out Hout].
  - apply cache_wf_empty.
  - discriminate.
  - exists out. split; [exact Hout|].
    destruct (verdicts_in_range steady ∅ trio world0 out cache_wf_empty Hout)
      as [H _].
    exact H.
Defined.

Lemma trio_verdicts v out :
  _validate_and_aggregate perfect_reply = Ok v ->
  score_reviews_grouped steady ∅ trio world0 = Ok out ->
  synapses out !! 0 ≫= review_score = Some v /\
  synapses out !! 1 ≫= review_score = Some empty_verdict.
Proof.
  intros Hv Hout.
  assert (Hscores :
    fst (score_reviews_for_paper steady (paper_context ∅ "p1")
           (entry_of trio <$> members trio "p1")
           (world_before steady ∅ (group_reviews trio) "p1" world0))
    = [v; empty_verdict]).
  { change (entry_of trio <$> members trio "p1")
      with [ {| miner_uid := 0; entry_text := Some "A review." |};
             {| miner_uid := 1; entry_text := Some "" |} ].
    change (world_before steady ∅ (group_reviews trio) "p1" world0) with world0.
    cbn [score_reviews_for_paper entry_text no_text default].
    rewrite bool_decide_eq_false_2 by discriminate.
    rewrite bool_decide_eq_true_2 by reflexivity.
    rewrite score_review_miss by (intros _; apply lookup_empty).
    cbn [client steady mbind result_bind]. rewrite Hv. reflexivity. }
  split.
  - destruct (member_verdict steady ∅ trio world0 out 0 "p1" Hout eq_refl)
      as (raw & ranked & idx & rank & score & a & c & _ & _ & Hidx & _ & Hs & _ & _
          & _ & Hr & _).
    rewrite Hscores in Hs. change (members trio "p1") with [0; 1] in Hidx.
    destruct idx as [|[|idx]]; simpl in Hidx;
      [|discriminate Hidx|discriminate Hidx].
    simpl in Hs. injection Hs as <-. exact Hr.
  - destruct (member_verdict steady ∅ trio world0 out 1 "p1" Hout eq_refl)
      as (raw & ranked & idx & rank & score & a & c & _ & _ & Hidx & _ & Hs & _ & _
          & _ & Hr & _).
    rewrite Hscores in Hs. change (members trio "p1") with [0; 1] in Hidx.
    destruct idx as [|[|idx]]; simpl in Hidx;
      [discriminate Hidx| |discriminate Hidx].
    simpl in Hs. injection Hs as <-. exact Hr.
Qed.

Lemma twins_verdicts v out :
  _validate_and_aggregate perfect_reply = Ok v ->
  score_reviews_grouped steady ∅ twins world0 = Ok out ->
  synapses out !! 0 ≫= review_score = Some v /\
  synapses out !! 1 ≫= review_score = Some v.
Proof.
  intros Hv Hout.
  assert (Hscores :
    fst (score_reviews_for_paper steady (paper_context ∅ "p1")
           (entry_of twins <$> members twins "p1")
           (world_before steady ∅ (group_reviews twins) "p1" world0))
    = [v; v]).
  { change (entry_of twins <$> members twins "p1")
      with [ {| miner_uid := 0; entry_text := Some "A review." |};
             {| miner_uid := 1; entry_text := Some "A review." |} ].
    change (world_before steady ∅ (group_reviews twins) "p1" world0) with world0.
    cbn [score_reviews_for_paper entry_text no_text default].
    rewrite bool_decide_eq_false_2 by discriminate.
    rewrite score_review_miss by (intros _; apply lookup_empty).
    cbn [client steady mbind result_bind]. rewrite Hv.
    rewrite (score_review_hit _ _ _ _ v); [reflexivity|].
    unfold _get_cached, _save_cache. simpl. apply lookup_insert_eq. }
  split.
  - destruct (member_verdict steady ∅ twins world0 out 0 "p1" Hout eq_refl)
      as (raw & ranked & idx & rank & score & a & c & _ & _ & Hidx & _ & Hs & _ & _
          & _ & Hr & _).
    rewrite Hscores in Hs. change (members twins "p1") with [0; 1] in Hidx.
    destruct idx as [|[|idx]]; simpl in Hidx;
      [|discriminate Hidx|discriminate Hidx].
    simpl in Hs. injection Hs as <-. exact Hr.
  - destruct (member_verdict steady ∅ twins world0 out 1 "p1" Hout eq_refl)
      as (raw & ranked & idx & rank & score & a & c & _ & _ & Hidx & _ & Hs & _ & _
          & _ & Hr & _).
    rewrite Hscores in Hs. change (members twins "p1") with [0; 1] in Hidx.
    destruct idx as [|[|idx]]; simpl in Hidx;
      [discriminate Hidx| |discriminate Hidx].
    simpl in Hs. injection Hs as <-. exact Hr.
Qed.

(** X12.  Within a paper the ranking never works against quality: with
    a cache of verdicts in range, of two submissions for the same paper
    the one whose verdict has the strictly higher aggregate and at least
    the confidence of the other gets at least the other's final score and
    at least its entry in the returned vector. *)
Theorem better_review_earns_more scorer md responses w out i j pid vi vj
    ai aj ci cj :
  cache_wf (cache w) ->
  score_reviews_grouped scorer md responses w = Ok out ->
  paper_of responses i = Some pid -> paper_of responses j = Some pid ->
  synapses out !! i ≫= review_score = Some vi ->
  synapses out !! j ≫= review_score = Some vj ->
  aggregate_of vi = Ok ai -> aggregate_of vj = Ok aj ->
  confidence_of vi = Ok ci -> confidence_of vj = Ok cj ->
  (aj < ai)%R -> (cj <= ci)%R ->
  exists fi fj xi xj,
    synapses out !! i ≫= final_score = Some fi /\
    synapses out !! j ≫= final_score = Some fj /\
    rewards out !! i = Some xi /\ rewards out !! j = Some xj /\
    (fj <= fi)%R /\ (xj <= xi)%R.
Proof.
  intros Hwf Hout Hpi Hpj Hvi Hvj Hai Haj Hci Hcj Hlt Hc.
  destruct (member_verdict _ _ _ _ _ i pid Hout Hpi)
    as (raw & ranked & ki & rki & vi' & ai' & ci' & Hrun & Hranked & Hki & Hrki & Hsi
        & Hai' & Hci' & Hrawi & Hri & Hfi).
  destruct (member_verdict _ _ _ _ _ j pid Hout Hpj)
    as (raw' & ranked' & kj & rkj & vj' & aj' & cj' & Hrun' & Hranked' & Hkj & Hrkj
        & Hsj & Haj' & Hcj' & Hrawj & Hrj & Hfj).
  rewrite Hrun in Hrun'. injection Hrun' as <-.
  rewrite Hranked in Hranked'. injection Hranked' as <-.
  rewrite Hvi in Hri. injection Hri as <-.
  rewrite Hvj in Hrj. injection Hrj as <-.
  rewrite Hai in Hai'. injection Hai' as <-.
  rewrite Haj in Haj'. injection Haj' as <-.
  rewrite Hci in Hci'. injection Hci' as <-.
  rewrite Hcj in Hcj'. injection Hcj' as <-.
  apply score_reviews_grouped_inv in Hout as (raw' & Hrun' & Hnorm & _).
  rewrite Hrun in Hrun'. injection Hrun' as <-.
  pose proof (raw_run_spec _ _ _ _ _ _ _ Hrun) as (Hl & _).
  destruct (lookup_lt_is_Some_2 (rewards out) i) as [xi Hxi].
  { rewrite (normalize_length _ _ Hnorm). by eapply lookup_lt_Some. }
  destruct (lookup_lt_is_Some_2 (rewards out) j) as [xj Hxj].
  { rewrite (normalize_length _ _ Hnorm). by eapply lookup_lt_Some. }
  exists (ai * decay rki * ci)%R, (aj * decay rkj * cj)%R, xi, xj.
  repeat (split; [done|]).
  destruct (rank_group_Ok _ _ Hranked) as [_ Hdesc].
  assert (Hrk : rki < rkj).
  { destruct (decide (rki < rkj)) as [|Hge]; [done|]. exfalso.
    assert (Hle : rkj <= rki) by lia.
    pose proof (Hdesc rkj rki kj ki vj vi aj ai Hle Hrkj Hrki Hsj Hsi Haj Hai).
    lra. }
  pose proof (decay_decreasing _ _ Hrk) as Hd.
  pose proof (decay_pos rkj) as Hdj.
  pose proof (sfp_ok scorer (paper_context md pid)
                (entry_of responses <$> members responses pid)
                (world_before scorer md (group_reviews responses) pid w)
                (world_before_wf _ _ _ _ _ Hwf)) as [Hok _].
  rewrite Forall_forall in Hok.
  destruct (Hok vj) as (aj' & cj' & Haj' & Hcj' & Hraj & Hrcj).
  { by eapply list_elem_of_lookup_2. }
  rewrite Haj in Haj'. rewrite Hcj in Hcj'.
  injection Haj' as <-. injection Hcj' as <-.
  assert (Hprod : (aj * decay rkj <= ai * decay rki)%R) by nra.
  assert (Hprod' : (0 <= aj * decay rkj)%R) by nra.
  assert (Hf : (aj * decay rkj * cj <= ai * decay rki * ci)%R) by nra.
  destruct (normalize_mono _ _ _ _ _ _ _ _ Hnorm Hrawj Hrawi Hxj Hxi) as [Hm1 _].
  split; [done|by apply Hm1].
Qed.

Lemma better_review_earns_more_witness :
  exists out fi fj,
    score_reviews_grouped steady ∅ trio world0 = Ok out /\
    synapses out !! 0 ≫= final_score = Some fi /\
    synapses out !! 1 ≫= final_score = Some fj /\
    (fj <= fi)%R.
Proof.
  destruct (score_reviews_grouped_total steady ∅ trio world0) as [out Hout].
  - apply cache_wf_empty.
  - discriminate.
  - destruct perfect_reply_verdict as (v & Hv & Ha & Hc).
    destruct (trio_verdicts v out Hv Hout) as [H0 H1].
    destruct (better_review_earns_more steady ∅ trio world0 out 0 1 "p1"
                v empty_verdict 100 0.0 1 0.0 cache_wf_empty Hout)
      as (fi & fj & xi & xj & Hfi & Hfj & _ & _ & Hle & _);
      try reflexivity; try assumption; try lra.
    exists out, fi, fj. split; [exact Hout|]. split; [exact Hfi|].
    split; [exact Hfj|exact Hle].
Defined.

(** X13.  A tie in verdicts is not a tie in rank: two different
    submissions for the same paper never share a rank, so when their
    verdicts have the same aggregate and the same confidence their final
    scores are that product with the decay factors of two different ranks
    below the group size, and the one ranked behind gets no more than the
    other. *)
Theorem tie_broken_by_rank scorer md responses w out i j pid vi vj a c :
  score_reviews_grouped scorer md responses w = Ok out ->
  i <> j ->
  paper_of responses i = Some pid -> paper_of responses j = Some pid ->
  synapses out !! i ≫= review_score = Some vi ->
  synapses out !! j ≫= review_score = Some vj ->
  aggregate_of vi = Ok a -> aggregate_of vj = Ok a ->
  confidence_of vi = Ok c -> confidence_of vj = Ok c ->
  exists ki kj,
    ki <> kj /\
    ki < length (members responses pid) /\ kj < length (members responses pid) /\
    synapses out !! i ≫= final_score = Some (a * exp (-0.5 * INR ki) * c)%R /\
    synapses out !! j ≫= final_score = Some (a * exp (-0.5 * INR kj) * c)%R /\
    ((0 <= a)%R -> (0 <= c)%R -> ki < kj ->
     (a * exp (-0.5 * INR kj) * c <= a * exp (-0.5 * INR ki) * c)%R).
Proof.
  intros Hout Hij Hpi Hpj Hvi Hvj Hai Haj Hci Hcj.
  destruct (member_verdict _ _ _ _ _ i pid Hout Hpi)
    as (raw & ranked & ki & rki & vi' & ai' & ci' & Hrun & Hranked & Hki & Hrki & Hsi
        & Hai' & Hci' & Hrawi & Hri & Hfi).
  destruct (member_verdict _ _ _ _ _ j pid Hout Hpj)
    as (raw' & ranked' & kj & rkj & vj' & aj' & cj' & Hrun' & Hranked' & Hkj & Hrkj
        & Hsj & Haj' & Hcj' & Hrawj & Hrj & Hfj).
  rewrite Hranked in Hranked'. injection Hranked' as <-.
  rewrite Hvi in Hri. injection Hri as <-.
  rewrite Hvj in Hrj. injection Hrj as <-.
  rewrite Hai in Hai'. injection Hai' as <-.
  rewrite Haj in Haj'. injection Haj' as <-.
  rewrite Hci in Hci'. injection Hci' as <-.
  rewrite Hcj in Hcj'. injection Hcj' as <-.
  destruct (rank_group_Ok _ _ Hranked) as [Hperm _].
  rewrite sfp_length, length_fmap in Hperm.
  assert (Hlen : forall k x, ranked !! k = Some x ->
            k < length (members responses pid)).
  { intros k x Hk. apply lookup_lt_Some in Hk.
    by rewrite (Permutation_length Hperm), length_seq in Hk. }
  exists rki, rkj. split; [|split; [by eapply Hlen|split; [by eapply Hlen|]]].
  - intros E. rewrite E in Hrki. rewrite Hrki in Hrkj. injection Hrkj as ->.
    rewrite Hki in Hkj. by injection Hkj.
  - split; [done|]. split; [done|].
    intros Ha Hc Hlt. apply decay_decreasing in Hlt. unfold decay in Hlt.
    apply Rmult_le_compat_r; [done|]. apply Rmult_le_compat_l; [done|]. lra.
Qed.

Lemma tie_broken_by_rank_witness :
  exists out (ki kj : nat) fi fj,
    score_reviews_grouped steady ∅ twins world0 = Ok out /\
    ki <> kj /\
    synapses out !! 0 ≫= final_score = Some fi /\
    synapses out !! 1 ≫= final_score = Some fj.
Proof.
  destruct (score_reviews_grouped_total steady ∅ twins world0) as [out Hout].
  - apply cache_wf_empty.
  - discriminate.
  - destruct perfect_reply_verdict as (v & Hv & Ha & Hc).
    destruct (twins_verdicts v out Hv Hout) as [H0 H1].
    destruct (tie_broken_by_rank steady ∅ twins world0 out 0 1 "p1" v v 100 1 Hout)
      as (ki & kj & Hne & _ & _ & Hfi & Hfj & _);
      try reflexivity; try assumption; [lia|].
    exists out, ki, kj. eexists. eexists.
    split; [exact Hout|]. split; [exact Hne|]. split; [exact Hfi|exact Hfj].
Defined.

(** ** When the oracle cannot be reached *)

Lemma score_review_outage scorer a t w :
  (forall n p, exists e, client scorer n p = Raise e) ->
  cache w = ∅ ->
  exists e,
    score_review scorer a t true w
    = (error_verdict e, {| cache := ∅; calls := user_prompt a t :: calls w |}).
Proof.
  intros Hout Hc. rewrite score_review_miss.
  - destruct (Hout (length (calls w)) (user_prompt a t)) as [e He].
    rewrite He. simpl. exists e. by rewrite Hc.
  - intros _. unfold _get_cached. by rewrite Hc.
Qed.

Lemma sfp_outage scorer a rvs :
  (forall n p, exists e, client scorer n p = Raise e) ->
  forall w, cache w = ∅ ->
  let res := score_reviews_for_paper scorer a rvs w in
  Forall failed (fst res) /\ cache (snd res) = ∅ /\
  length (calls (snd res)) = length (calls w) + length (List.filter has_text rvs).
Proof.
  intros Hout. induction rvs as [|rv rvs IH]; intros w Hc; simpl.
  - split; [constructor|]. split; [done|lia].
  - unfold has_text at 1. destruct (no_text (entry_text rv)); simpl.
    + destruct (IH w Hc) as (H1 & H2 & H3).
      destruct (score_reviews_for_paper scorer a rvs w) as [scores w']. simpl in *.
      split; [|done]. constructor; [|done]. split; [reflexivity|by eexists].
    + destruct (score_review_outage scorer a (default "" (entry_text rv)) w Hout Hc)
        as [e ->].
      destruct (IH {| cache := ∅; calls := user_prompt a (default "" (entry_text rv))
                                            :: calls w |}) as (H1 & H2 & H3); [done|].
      destruct (score_reviews_for_paper scorer a rvs _) as [scores w']. simpl in *.
      split; [|split; [done|lia]]. constructor; [|done].
      destruct (error_verdict_fields e) as (_ & _ & Ha & He & _).
      split; [|by eexists]. unfold aggregate_of, getitem. by rewrite Ha.
Qed.

Lemma score_groups_outage scorer md gs :
  (forall n p, exists e, client scorer n p = Raise e) ->
  forall w rew resp w' rew' resp',
  cache w = ∅ ->
  foldM (score_group scorer md) (w, rew, resp) gs = Ok (w', rew', resp') ->
  cache w' = ∅ /\ length (calls w') = length (calls w) + length (texted gs).
Proof.
  intros Hout. induction gs as [|[pid rvs] gs IH];
    intros w rew resp w' rew' resp' Hc; cbn [foldM].
  - intros [= <- <- <-]. split; [done|]. simpl. lia.
  - intros ([[w1 rew1] resp1] & Hstep & Hrest)%bind_Ok.
    apply score_group_world in Hstep.
    destruct (sfp_outage scorer (paper_context md pid) rvs Hout w Hc) as (_ & H2 & H3).
    rewrite <- Hstep in H2, H3.
    apply IH in Hrest as [H4 H5]; [|done]. split; [done|].
    rewrite H5, H3. unfold texted. rewrite bind_cons, length_app, length_fmap.
    simpl. lia.
Qed.

Lemma scorable_texted responses gs i :
  grouped_as responses gs -> i ∈ scorable responses -> i ∈ texted gs.
Proof.
  intros Hg. unfold scorable. rewrite list_elem_of_filter.
  intros [[[pid Hp] Ht] _].
  unfold texted. apply list_elem_of_bind.
  exists (pid, entry_of responses <$> members responses pid). split.
  - simpl. apply list_elem_of_fmap. exists (entry_of responses i). split; [done|].
    apply list_elem_of_In, filter_In. split; [|done].
    apply list_elem_of_In, list_elem_of_fmap. exists i. split; [done|].
    by apply members_paper.
  - apply (grouped_as_elem responses); [done|]. split; [|done].
    intros E. apply members_paper in Hp. rewrite E in Hp. by apply elem_of_nil in Hp.
Qed.

Lemma texted_scorable_length responses :
  length (texted (group_reviews responses)) = length (scorable responses).
Proof.
  pose proof (group_reviews_spec responses) as Hg.
  apply Permutation_length, NoDup_Permutation.
  - eapply sublist_NoDup; [|apply texted_sublist].
    by apply (uids_of_NoDup responses).
  - unfold scorable. apply NoDup_filter, NoDup_seq.
  - intros i. split; [by apply texted_scorable|by apply scorable_texted].
Qed.

(** X14.  While the oracle cannot be reached and nothing is cached, the
    failures are absorbed one by one: in a run that returns, every entry
    of the reward vector is 0, every submission that names a paper gets
    final score 0 and a verdict that carries an error, nothing is written
    to the cache, and one request was spent on each submission that has
    a paper and text. *)
Theorem oracle_outage scorer md responses w out :
  (forall n p, exists e, client scorer n p = Raise e) ->
  cache w = ∅ ->
  score_reviews_grouped scorer md responses w = Ok out ->
  rewards out = replicate (length responses) 0%R /\
  cache (after out) = ∅ /\
  length (calls (after out)) = length (calls w) + length (scorable responses) /\
  forall i r, responses !! i = Some r -> is_Some (paper_id r) ->
    exists v, synapses out !! i = Some (write_back r v 0) /\
      is_Some (v !! "error").
Proof.
  intros Hdown Hc Hout.
  apply score_reviews_grouped_inv in Hout as (raw & Hrun & Hnorm & _).
  pose proof (raw_run_spec _ _ _ _ _ _ _ Hrun) as (Hl & _ & _ & Hnone & _).
  pose proof Hrun as Hrun'. unfold raw_run in Hrun'.
  apply (score_groups_outage _ _ _ Hdown) in Hrun' as [Hc' Hcalls]; [|done].
  rewrite texted_scorable_length in Hcalls.
  assert (Hsub : forall i r pid, responses !! i = Some r -> paper_id r = Some pid ->
            exists v, raw !! i = Some 0%R /\
              synapses out !! i = Some (write_back r v 0) /\ is_Some (v !! "error")).
  { intros i r pid Hi Hp.
    destruct (raw_run_rel scorer md (fun w1 w2 => cache w1 = ∅ -> cache w2 = ∅)
                (fun _ H => H) (fun _ _ _ H12 H23 H1 => H23 (H12 H1)))
      with (2 := Hrun) as [_ Hsc].
    - intros a rvs w1 H1. by destruct (sfp_outage scorer a rvs Hdown w1 H1) as (_ & ? & _).
    - destruct (Hsc pid) as (wk & Hwk & Hgs).
      { intros E. assert (Hm : i ∈ members responses pid).
        { apply members_paper. unfold paper_of. by rewrite Hi. }
        rewrite E in Hm. by apply elem_of_nil in Hm. }
      destruct (group_scored_member _ _ _ _ _ _ _ i r Hgs Hi Hp)
        as (ranked & idx & rank & v & a & c & _ & _ & _ & Hv & Ha & _ & Hraw & Hresp).
      destruct (sfp_outage scorer (paper_context md pid)
                  (entry_of responses <$> members responses pid) Hdown wk (Hwk Hc))
        as (Hfail & _).
      rewrite Forall_forall in Hfail. destruct (Hfail v) as [Ha' Herr].
      { by eapply list_elem_of_lookup_2. }
      rewrite Ha in Ha'. injection Ha' as ->.
      replace (0.0 * decay rank * c)%R with 0%R in * by lra.
      exists v. done. }
  assert (Hzero : forall i, i < length responses -> raw !! i = Some 0%R).
  { intros i Hlt. destruct (lookup_lt_is_Some_2 responses i Hlt) as [r Hi].
    destruct (paper_id r) as [pid|] eqn:Hp.
    - by destruct (Hsub i r pid Hi Hp) as (v & ? & _).
    - by destruct (Hnone i r Hi Hp). }
  assert (Hraw : raw = replicate (length responses) 0%R).
  { apply list_eq. intros i. destruct (decide (i < length responses)) as [Hlt|Hge].
    - rewrite Hzero by done. symmetry. by apply lookup_replicate_2.
    - rewrite !lookup_ge_None_2; [done|rewrite length_replicate; lia|lia]. }
  split; [|split; [done|split; [done|]]].
  - destruct (normalize_Ok _ _ Hnorm) as (m & Hm & [[Hpos _]|[_ ->]]); [|done].
    apply np_max_Ok in Hm as [Hin _]. rewrite Hraw in Hin.
    apply elem_of_replicate in Hin as [-> _]. lra.
  - intros i r Hi [pid Hp]. destruct (Hsub i r pid Hi Hp) as (v & _ & ? & ?).
    by exists v.
Qed.

Lemma oracle_outage_witness :
  exists out,
    score_reviews_grouped offline ∅ trio world0 = Ok out /\
    rewards out = [0; 0; 0]%R /\ length (calls (after out)) = 1.
Proof.
  destruct (score_reviews_grouped_total offline ∅ trio world0) as [out Hout].
  - apply cache_wf_empty.
  - discriminate.
  - destruct (oracle_outage offline ∅ trio world0 out) as (H2 & _ & H3 & _).
    + intros n p. eexists. reflexivity.
    + reflexivity.
    + exact Hout.
    + exists out. split; [exact Hout|]. split; [exact H2|exact H3].
Defined.

(** ** The scraper's [pick] *)

Lemma pick_loop_cases content keys :
  pick_loop content keys = JStr "" \/ truthy (pick_loop content keys) = true.
Proof.
  induction keys as [|k keys IH]; simpl; [by left|].
  destruct (truthy (pick_value content k)) eqn:E; [by right|exact IH].
Qed.

Lemma pick_loop_first content keys v :
  pick_loop content keys = v -> truthy v = true ->
  exists before k after,
    keys = before ++ k :: after /\ pick_value content k = v /\
    Forall (fun k' => truthy (pick_value content k') = false) before.
Proof.
  induction keys as [|k keys IH]; simpl.
  - intros <-. discriminate.
  - destruct (truthy (pick_value content k)) eqn:E.
    + intros <- _. exists [], k, keys. by repeat split.
    + intros Hv Ht. destruct (IH Hv Ht) as (before & k' & after & -> & Hk & Hall).
      exists (k :: before), k', after. repeat split; [done|]. by constructor.
Qed.

(** X15.  [pick] returns the value of the first key that has a truthy
    one, and the empty string when there is none: never [None], 0, an
    empty list or an empty object. *)
Theorem pick_first_truthy content keys :
  (pick content keys = JStr "" /\
   Forall (fun k => truthy (pick_value (default ∅ content) k) = false) keys) \/
  (truthy (pick content keys) = true /\
   exists before k after,
     keys = before ++ k :: after /\
     pick_value (default ∅ content) k = pick content keys /\
     Forall (fun k' => truthy (pick_value (default ∅ content) k') = false) before).
Proof.
  unfold pick. set (c := default ∅ content). clearbody c.
  destruct (truthy (pick_loop c keys)) eqn:E.
  - right. split; [done|]. by apply pick_loop_first.
  - left. destruct (pick_loop_cases c keys) as [H|H]; [|congruence].
    split; [done|]. clear H.
    induction keys as [|k keys IH]; [constructor|]. simpl in E.
    destruct (truthy (pick_value c k)) eqn:Ek; [congruence|].
    constructor; [done|by apply IH].
Qed.

(** X16.  The two shapes of a note's content give the same answer: when
    no value of the content is an object, [pick] reads the content whose
    values are wrapped as [{"value": v}] as it reads the content itself. *)
Theorem pick_unwraps content keys :
  map_Forall (fun _ v => plain v) content ->
  pick (Some (wrapped content)) keys = pick (Some content) keys.
Proof.
  intros Hplain. unfold pick. simpl.
  induction keys as [|k keys IH]; [done|]. simpl.
  assert (E : pick_value (wrapped content) k = pick_value content k).
  { unfold pick_value, wrapped. rewrite lookup_fmap.
    destruct (content !! k) as [v|] eqn:Ek; simpl; [|done].
    rewrite lookup_singleton_eq. simpl.
    specialize (Hplain k v Ek). by destruct v. }
  by rewrite E, IH.
Qed.

Lemma pick_unwraps_witness :
  pick (Some (wrapped {["review" := JStr "Sound."]})) ["review"; "comments"]
  = pick (Some {["review" := JStr "Sound."]}) ["review"; "comments"].
Proof.
  apply pick_unwraps. intros k v Hk.
  apply lookup_singleton_Some in Hk as [_ <-]. exact I.
Defined.

(** ** The miner's [blacklist] *)

Lemma list_index_Some l x i :
  list_index l x = Some i <->
  l !! i = Some x /\ forall j, j < i -> l !! j <> Some x.
Proof.
  revert i. induction l as [|y l IH]; intros i; simpl.
  - split; [done|]. by intros [? _].
  - case_decide as E.
    + subst y. split.
      * intros [= <-]. split; [done|]. intros j Hj. lia.
      * intros [Hi Hmin]. destruct i as [|i]; [done|].
        exfalso. apply (Hmin 0); [lia|done].
    + rewrite fmap_Some. split.
      * intros (i' & [H1 H2]%IH & ->). split; [done|].
        intros [|j] Hj; simpl; [congruence|]. apply H2. lia.
      * intros [Hi Hmin]. destruct i as [|i]; simpl in Hi; [congruence|].
        exists i. split; [|done]. apply IH. split; [done|].
        intros j Hj. apply (Hmin (S j)). lia.
Qed.

Lemma list_index_None l x : list_index l x = None <-> x ∉ l.
Proof.
  induction l as [|y l IH]; simpl.
  - split; [intros _; apply not_elem_of_nil|done].
  - case_decide as E.
    + subst y. split; [done|]. intros H. exfalso. apply H. apply list_elem_of_here.
    + rewrite not_elem_of_cons. destruct (list_index l x); simpl.
      * split; [done|]. intros [_ H]. by apply IH in H.
      * split; [|done]. intros _. split; [congruence|]. by apply IH.
Qed.

(** X17.  [blacklist] never answers "Unrecognized hotkey": the hotkey is
    looked up in the metagraph before the registration check, so for a
    hotkey that is not registered the call raises [ValueError], whatever
    the configuration allows, and the check that follows can only find
    the hotkey registered. *)
Theorem blacklist_unrecognized_unreachable mg config dendrite :
  Miner.blacklist mg config dendrite <> Ok (true, "Unrecognized hotkey") /\
  forall hotkey, dendrite = Some (Some hotkey) -> hotkey ∉ hotkeys mg ->
    Miner.blacklist mg config dendrite
    = Raise (ValueError ("'" ++ hotkey ++ "' is not in list")).
Proof.
  split.
  - destruct dendrite as [[hotkey|]|]; simpl; try discriminate.
    unfold index_of. destruct (list_index (hotkeys mg) hotkey) as [uid|] eqn:E;
      simpl; [|discriminate].
    assert (Hin : hotkey ∈ hotkeys mg).
    { apply list_index_Some in E as [E _]. by eapply list_elem_of_lookup_2. }
    rewrite (bool_decide_eq_true_2 _ Hin), andb_false_r.
    destruct (force_validator_permit config); [|discriminate].
    destruct (item (validator_permit mg) uid) as [[|]|]; simpl; discriminate.
  - intros hotkey -> Hnot. simpl. unfold index_of.
    apply list_index_None in Hnot. by rewrite Hnot.
Qed.

(** X18.  What [blacklist] lets through: a request is accepted exactly
    when its hotkey is registered and, if validator permits are
    enforced, the first neuron registered under that hotkey holds one.
    The flag [allow_non_registered] has no part in it. *)
Theorem blacklist_accepts mg config dendrite msg :
  Miner.blacklist mg config dendrite = Ok (false, msg) <->
  msg = "Hotkey recognized!" /\
  exists hotkey uid,
    dendrite = Some (Some hotkey) /\
    hotkeys mg !! uid = Some hotkey /\
    (forall j, j < uid -> hotkeys mg !! j <> Some hotkey) /\
    (force_validator_permit config = true ->
     validator_permit mg !! uid = Some true).
Proof.
  split.
  - destruct dendrite as [[hotkey|]|]; simpl; try discriminate.
    unfold index_of. destruct (list_index (hotkeys mg) hotkey) as [uid|] eqn:E;
      simpl; [|discriminate].
    apply list_index_Some in E as [E Hmin].
    assert (Hin : hotkey ∈ hotkeys mg) by (by eapply list_elem_of_lookup_2).
    rewrite (bool_decide_eq_true_2 _ Hin), andb_false_r.
    destruct (force_validator_permit config) eqn:Hf.
    + unfold item. destruct (validator_permit mg !! uid) as [[|]|] eqn:Ep;
        simpl; try discriminate.
      intros [= <-]. split; [done|]. exists hotkey, uid. done.
    + intros [= <-]. split; [done|]. exists hotkey, uid. done.
  - intros (-> & hotkey & uid & -> & Hu & Hmin & Hp). simpl.
    unfold index_of.
    assert (E : list_index (hotkeys mg) hotkey = Some uid).
    { apply list_index_Some. done. }
    rewrite E. simpl.
    assert (Hin : hotkey ∈ hotkeys mg) by (by eapply list_elem_of_lookup_2).
    rewrite (bool_decide_eq_true_2 _ Hin), andb_false_r.
    destruct (force_validator_permit config); [|done].
    unfold item. by rewrite Hp.
Qed.

(** ** The preprocessor *)

Lemma bindA_Done {A B} (m : attempt A) (k : A -> attempt B) b :
  m ≫= k = Done b <-> exists a, m = Done a /\ k a = Done b.
Proof.
  destruct m as [a|f]; simpl; split.
  - intros H. by exists a.
  - by intros (a' & [= <-] & H).
  - done.
  - by intros (a' & [=] & _).
Qed.

Lemma foldA_app {A B} (f : A -> B -> attempt A) l1 l2 : forall a,
  foldA f a (l1 ++ l2) = a' ← foldA f a l1; foldA f a' l2.
Proof.
  induction l1 as [|b l1 IH]; intros a; simpl; [done|].
  destruct (f a b) as [a'|e]; simpl; [apply IH|done].
Qed.

(** *** The metadata loop *)

Lemma metadata_loop_spec l : forall md0 md,
  foldM metadata_step md0 l = Ok md ->
  Forall has_paper_id l /\
  forall pid, md !! pid =
    match md0 !! pid with
    | Some e => Some e
    | None => entry_from pid <$> head (rows_for l pid)
    end.
Proof.
  induction l as [|r l IH]; intros md0 md; simpl.
  - intros [= <-]. split; [constructor|]. intros pid. by destruct (md0 !! pid).
  - intros (md1 & Hstep & Hrest)%bind_Ok.
    apply IH in Hrest as [Hall Hmd].
    unfold metadata_step in Hstep. apply bind_Ok in Hstep as (p & Hp & Hstep).
    unfold getitem in Hp.
    destruct (r !! "paper_id") as [p'|] eqn:Hp'; [|done]. injection Hp as ->.
    split; [constructor; [unfold has_paper_id; rewrite Hp'; by eexists|done]|].
    intros pid. rewrite Hmd. unfold rows_for. rewrite filter_cons.
    destruct (md0 !! p) as [e|] eqn:E; injection Hstep as <-.
    + destruct (md0 !! pid) as [e'|] eqn:E'; [done|].
      case_decide as Hd; [|done]. congruence.
    + destruct (decide (p = pid)) as [->|Hne].
      * rewrite lookup_insert_eq, E. rewrite decide_True by done. done.
      * rewrite lookup_insert_ne by done.
        rewrite decide_False by congruence. done.
Qed.

Lemma metadata_loop_Raise l : forall md0 e,
  foldM metadata_step md0 l = Raise e ->
  e = KeyError "paper_id" /\ ~ Forall has_paper_id l.
Proof.
  induction l as [|r l IH]; intros md0 e; cbn [foldM]; [done|].
  intros [Hstep|(md1 & Hstep & Hrest)]%bind_Raise.
  - unfold metadata_step in Hstep.
    apply bind_Raise in Hstep as [Hg|(p & Hp & Hs)].
    + unfold getitem in Hg. destruct (r !! "paper_id") eqn:Hp; [done|].
      injection Hg as <-. split; [done|].
      intros Hall. inversion Hall as [|? ? [? Hs] ?]. congruence.
    + destruct (md0 !! p); done.
  - apply IH in Hrest as [-> Hn]. split; [done|].
    intros Hall. apply Hn. by inversion Hall.
Qed.

(** *** The bucket loop *)

Lemma bucket_step_pos N (bs : list (list row)) i x :
  0 < N -> length bs = N ->
  bucket_step (Z.of_nat N) bs (i, x)
  = Done (alter (fun bucket => bucket ++ [x]) (i mod N) bs).
Proof.
  intros HN Hlen. unfold bucket_step, py_mod. simpl.
  rewrite decide_False by lia. simpl.
  rewrite <- Nat2Z.inj_mod. unfold py_index.
  pose proof (Nat.mod_upper_bound i N ltac:(lia)).
  rewrite decide_True by lia. simpl. by rewrite Nat2Z.id.
Qed.

Lemma dealt_length N l bs m b :
  0 < N -> dealt N l bs -> bs !! m = Some b ->
  forall k, k < length b <-> k * N + m < length l.
Proof.
  intros HN [Hlen Hall] Hb k.
  assert (Hm : m < N) by (apply lookup_lt_Some in Hb; lia).
  destruct (Hall m Hm) as (b' & Hb' & Hk). rewrite Hb in Hb'. injection Hb' as <-.
  specialize (Hk k). split; intros H.
  - apply lookup_lt_is_Some_2 in H as [y Hy]. rewrite Hy in Hk.
    symmetry in Hk. by apply lookup_lt_Some in Hk.
  - apply lookup_lt_is_Some_2 in H as [y Hy]. rewrite Hy in Hk.
    by apply lookup_lt_Some in Hk.
Qed.

Lemma dealt_snoc N l bs x :
  0 < N -> dealt N l bs ->
  dealt N (l ++ [x]) (alter (fun bucket => bucket ++ [x]) (length l mod N) bs).
Proof.
  intros HN Hd. pose proof Hd as [Hlen Hall].
  set (i := length l). set (j := i mod N).
  assert (Hj : j < N) by (apply Nat.mod_upper_bound; lia).
  pose proof (Nat.div_mod_eq i N) as Hi. fold j in Hi.
  split; [by rewrite length_alter|].
  intros m Hm. destruct (Hall m Hm) as (b & Hb & Hk).
  destruct (decide (m = j)) as [->|Hne].
  - exists (b ++ [x]). split.
    { rewrite list_lookup_alter_eq, Hb. done. }
    assert (Hbl : length b = i / N).
    { pose proof (dealt_length N l bs j b HN Hd Hb) as Hlt. fold i in Hlt.
      destruct (Nat.lt_trichotomy (length b) (i / N)) as [H|[H|H]]; [|done|].
      - exfalso. assert (length b * N + j < i) by nia.
        apply Hlt in H0. lia.
      - exfalso. apply Hlt in H. nia. }
    intros k. destruct (Nat.lt_trichotomy k (i / N)) as [H|[H|H]].
    + rewrite lookup_app_l by lia. rewrite lookup_app_l by (fold i; nia). apply Hk.
    + subst k. rewrite lookup_app_r by lia.
      rewrite lookup_app_r by (fold i; nia).
      replace (i / N - length b) with 0 by lia.
      replace (i / N * N + j - length l) with 0 by (fold i; nia). done.
    + rewrite !lookup_ge_None_2; [done| |].
      * rewrite length_app. simpl. fold i. nia.
      * rewrite length_app. simpl. lia.
  - exists b. split.
    { rewrite list_lookup_alter_ne by done. done. }
    intros k. rewrite Hk.
    destruct (decide (k * N + m < i)) as [Hlt|Hge].
    + by rewrite lookup_app_l.
    + assert (k * N + m <> i).
      { intros E. apply Hne. unfold j. rewrite <- E.
        rewrite Nat.add_comm, Nat.Div0.mod_add. symmetry. by apply Nat.mod_small. }
      rewrite !lookup_ge_None_2; [done| |fold i; lia].
      rewrite length_app. simpl. fold i. lia.
Qed.

Lemma dealt_nil N : dealt N [] (replicate N []).
Proof.
  split; [by rewrite length_replicate|].
  intros m Hm. exists []. split; [by apply lookup_replicate_2|]. done.
Qed.

Lemma concat_alter_snoc (bs : list (list row)) j b x :
  bs !! j = Some b ->
  concat (alter (fun bucket => bucket ++ [x]) j bs) ≡ₚ x :: concat bs.
Proof.
  revert j. induction bs as [|b0 bs IH]; intros [|j] Hj; simpl in *; try done.
  - injection Hj as ->. rewrite <- app_assoc. simpl.
    by rewrite <- Permutation_middle.
  - rewrite (IH j Hj). by rewrite <- Permutation_middle.
Qed.

Lemma bucket_loop_pos N l :
  0 < N ->
  exists bs,
    foldA (bucket_step (Z.of_nat N)) (replicate N []) (enumerate l) = Done bs /\
    dealt N l bs /\ concat bs ≡ₚ l.
Proof.
  intros HN. induction l as [|x l IH] using rev_ind.
  - exists (replicate N []). split; [done|]. split; [apply dealt_nil|].
    clear. induction N; simpl; [done|]. done.
  - destruct IH as (bs & Hfold & Hd & Hperm).
    exists (alter (fun bucket => bucket ++ [x]) (length l mod N) bs).
    rewrite enumerate_snoc, foldA_app, Hfold. simpl.
    destruct Hd as [Hlen Hall].
    rewrite bucket_step_pos by done. split; [done|].
    split; [by apply dealt_snoc|].
    destruct (Hall (length l mod N)) as (b & Hb & _).
    { apply Nat.mod_upper_bound. lia. }
    rewrite (concat_alter_snoc _ _ _ _ Hb), Hperm.
    by rewrite <- Permutation_cons_append.
Qed.

Lemma bucket_loop_zero x l :
  foldA (bucket_step 0) (replicate (Z.to_nat 0) []) (enumerate (x :: l))
  = Failed ZeroDivisionError.
Proof. reflexivity. Qed.

Lemma bucket_loop_neg n x l :
  (n < 0)%Z ->
  foldA (bucket_step n) (replicate (Z.to_nat n) []) (enumerate (x :: l))
  = Failed (Builtin (IndexError "list index out of range")).
Proof.
  intros Hn. unfold enumerate. simpl. unfold bucket_step. simpl.
  unfold py_mod. rewrite decide_False by lia. simpl.
  rewrite Z.mod_0_l by lia.
  replace (Z.to_nat n) with 0 by lia. simpl. reflexivity.
Qed.

Lemma process_total rs n :
  Forall has_paper_id rs -> (0 < n)%Z -> exists out, process rs n = Done out.
Proof.
  intros Hall Hn. unfold process.
  destruct (foldM metadata_step ∅ rs) as [md|e] eqn:Hmd; simpl.
  - destruct (bucket_loop_pos (Z.to_nat n) rs) as (bs & Hfold & _); [lia|].
    rewrite Z2Nat.id in Hfold by lia. rewrite Hfold. simpl. eauto.
  - by apply metadata_loop_Raise in Hmd as [_ Hn'].
Qed.

Lemma three_rows_have_ids : Forall has_paper_id three_rows.
Proof. repeat constructor; by eexists. Qed.

(** X19.  When [process] returns and when it does not: it returns
    exactly when every row has a paper id and there is a miner to deal
    to or no row to deal; a row without paper id raises
    [KeyError('paper_id')]; zero miners for some rows raise
    [ZeroDivisionError], a negative number of miners [IndexError];
    nothing else is raised. *)
Theorem process_outcomes rs n :
  match process rs n with
  | Done out => Forall has_paper_id rs /\ (rs = [] \/ (0 < n)%Z)
  | Failed (Builtin (KeyError k)) => k = "paper_id" /\ ~ Forall has_paper_id rs
  | Failed ZeroDivisionError => Forall has_paper_id rs /\ rs <> [] /\ n = 0%Z
  | Failed (Builtin (IndexError _)) =>
      Forall has_paper_id rs /\ rs <> [] /\ (n < 0)%Z
  | Failed (Builtin _) => False
  end.
Proof.
  unfold process.
  destruct (foldM metadata_step ∅ rs) as [md|e] eqn:Hmd; simpl.
  - apply metadata_loop_spec in Hmd as [Hall _].
    destruct (Z.lt_trichotomy n 0) as [Hn|[->|Hn]].
    + destruct rs as [|x l].
      * simpl. split; [done|by left].
      * rewrite bucket_loop_neg by done. simpl. done.
    + destruct rs as [|x l].
      * simpl. split; [done|by left].
      * rewrite bucket_loop_zero. simpl. done.
    + destruct (bucket_loop_pos (Z.to_nat n) rs) as (bs & Hfold & _); [lia|].
      rewrite Z2Nat.id in Hfold by lia. rewrite Hfold. simpl.
      split; [done|by right].
  - apply metadata_loop_Raise in Hmd as [-> Hn]. done.
Qed.

Lemma process_Done rs n out :
  process rs n = Done out ->
  exists md bs,
    foldM metadata_step ∅ rs = Ok md /\
    foldA (bucket_step n) (replicate (Z.to_nat n) []) (enumerate rs) = Done bs /\
    out = {| miner_files := bs; metadata_file := md;
             assignments_file :=
               {| num_miners := n; total_reviews := length rs;
                  total_papers := size md;
                  reviews_per_miner := length <$> bs |} |}.
Proof.
  unfold process. intros (md & Hmd & (bs & Hbs & [= <-])%bindA_Done)%bindA_Done.
  destruct (foldM metadata_step ∅ rs) as [md'|] eqn:E; [|done].
  injection Hmd as ->. by exists md, bs.
Qed.

Lemma process_returns_inv rs n out :
  process rs n = Done out ->
  Forall has_paper_id rs /\ (rs = [] \/ (0 < n)%Z).
Proof.
  intros (md & bs & Hmd & Hbs & _)%process_Done.
  apply metadata_loop_spec in Hmd as [Hall _]. split; [done|].
  destruct rs as [|x l]; [by left|]. right.
  destruct (Z.lt_trichotomy n 0) as [Hn|[->|Hn]]; [| |done].
  - by rewrite bucket_loop_neg in Hbs.
  - by rewrite bucket_loop_zero in Hbs.
Qed.

Lemma process_buckets rs n out :
  process rs n = Done out ->
  dealt (Z.to_nat n) rs (miner_files out) /\ concat (miner_files out) ≡ₚ rs.
Proof.
  intros Hp. pose proof (process_returns_inv _ _ _ Hp) as [_ Hcase].
  apply process_Done in Hp as (md & bs & _ & Hbs & ->). simpl.
  destruct (decide (0 < n)%Z) as [Hn|Hn].
  - destruct (bucket_loop_pos (Z.to_nat n) rs) as (bs' & Hfold & Hd & Hperm); [lia|].
    rewrite Z2Nat.id in Hfold by lia. rewrite Hfold in Hbs. by injection Hbs as <-.
  - destruct Hcase as [->|]; [|lia]. simpl in Hbs. injection Hbs as <-.
    replace (Z.to_nat n) with 0 by lia. simpl. split; [apply dealt_nil|done].
Qed.

(** X20.  The rows are dealt round robin: miner [m]'s file holds, at
    position [k], row [k * num_miners + m] of the data, so it lists the
    rows m, m + num_miners, m + 2 num_miners, ... in their order; there
    is one file per miner, and the files together hold every row once. *)
Theorem process_round_robin rs n out :
  process rs n = Done out ->
  length (miner_files out) = Z.to_nat n /\
  (forall m, m < Z.to_nat n -> exists bucket,
     miner_files out !! m = Some bucket /\
     forall k, bucket !! k = rs !! (k * Z.to_nat n + m)) /\
  concat (miner_files out) ≡ₚ rs.
Proof.
  intros [[Hlen Hall] Hperm]%process_buckets. done.
Qed.

Lemma process_round_robin_witness :
  exists out bucket,
    process three_rows 2 = Done out /\
    miner_files out !! 0 = Some bucket /\ bucket !! 1 = Some row_c.
Proof.
  destruct (process_total three_rows 2 three_rows_have_ids) as [out Hout]; [lia|].
  destruct (process_round_robin three_rows 2 out Hout) as (_ & H & _).
  destruct (H 0) as (bucket & Hb & Hk); [simpl; lia|].
  exists out, bucket. split; [exact Hout|]. split; [exact Hb|].
  rewrite Hk. reflexivity.
Defined.

(** X21.  The deal is fair: the files of two miners differ by at most
    one row, the extra rows going to the miners with the lower ids, and
    the sizes the summary reports add up to the number of rows. *)
Theorem buckets_balanced rs n out :
  process rs n = Done out ->
  (forall m m' b b', m <= m' ->
     miner_files out !! m = Some b -> miner_files out !! m' = Some b' ->
     length b' <= length b <= length b' + 1) /\
  reviews_per_miner (assignments_file out) = length <$> miner_files out /\
  sum_list (reviews_per_miner (assignments_file out))
  = total_reviews (assignments_file out) /\
  total_reviews (assignments_file out) = length rs.
Proof.
  intros Hp. pose proof (process_buckets _ _ _ Hp) as [Hd Hperm].
  pose proof (process_returns_inv _ _ _ Hp) as [_ Hcase].
  apply process_Done in Hp as (md & bs & _ & _ & ->). simpl in *.
  split; [|split; [done|split; [|done]]].
  - intros m m' b b' Hmm Hb Hb'.
    assert (HN : 0 < Z.to_nat n).
    { destruct Hd as [Hlen _]. apply lookup_lt_Some in Hb. lia. }
    assert (Hm' : m' < Z.to_nat n).
    { destruct Hd as [Hlen _]. apply lookup_lt_Some in Hb'. lia. }
    pose proof (dealt_length _ _ _ _ _ HN Hd Hb) as H1.
    pose proof (dealt_length _ _ _ _ _ HN Hd Hb') as H2.
    split.
    + destruct (decide (length b' <= length b)) as [|Hgt]; [done|]. exfalso.
      assert (Hlt : length b < length b') by lia.
      apply H2 in Hlt. assert (length b < length b) as Habs; [|lia].
      apply H1. lia.
    + destruct (decide (length b <= length b' + 1)) as [|Hgt]; [done|]. exfalso.
      assert (Hlt : length b' + 1 < length b) by lia.
      apply H1 in Hlt. assert (length b' < length b') as Habs; [|lia].
      apply H2. nia.
  - rewrite <- (Permutation_length Hperm). clear.
    induction bs as [|b bs IH]; [done|].
    rewrite fmap_cons. cbn [sum_list sum_list_with concat].
    rewrite length_app, <- IH. reflexivity.
Qed.

Lemma buckets_balanced_witness :
  exists out,
    process three_rows 2 = Done out /\
    sum_list (reviews_per_miner (assignments_file out)) = 3.
Proof.
  destruct (process_total three_rows 2 three_rows_have_ids) as [out Hout]; [lia|].
  exists out. split; [exact Hout|].
  destruct (buckets_balanced three_rows 2 out Hout) as (_ & _ & H1 & H2).
  rewrite H1. exact H2.
Defined.

(** *** The metadata and the context of a paper *)

Lemma rows_for_elem rs pid r :
  r ∈ rows_for rs pid <-> r ∈ rs /\ r !! "paper_id" = Some pid.
Proof. unfold rows_for. rewrite list_elem_of_filter. tauto. Qed.

Lemma process_metadata rs n out pid :
  process rs n = Done out ->
  metadata_file out !! pid = entry_from pid <$> head (rows_for rs pid).
Proof.
  intros (md & bs & Hmd & _ & ->)%process_Done. simpl.
  apply metadata_loop_spec in Hmd as [_ Hmd].
  specialize (Hmd pid). by rewrite lookup_empty in Hmd.
Qed.

(** X22.  The metadata of a paper comes from the first row about it:
    [paper_metadata.json] has an entry for exactly the papers that the
    data has rows about, holding the title and the abstract of the first
    such row (the empty string for one that is missing); what later rows
    say of the paper is not looked at. *)
Theorem metadata_first_occurrence rs n out pid :
  process rs n = Done out ->
  metadata_file out !! pid = entry_from pid <$> head (rows_for rs pid) /\
  (is_Some (metadata_file out !! pid) <->
   exists r, r ∈ rs /\ r !! "paper_id" = Some pid) /\
  total_papers (assignments_file out) = size (metadata_file out).
Proof.
  intros (md & bs & Hmd & _ & ->)%process_Done. simpl.
  apply metadata_loop_spec in Hmd as [_ Hmd].
  specialize (Hmd pid). rewrite lookup_empty in Hmd.
  split; [done|]. split; [|done].
  rewrite Hmd, fmap_is_Some. split.
  - intros [r Hr]. exists r. apply rows_for_elem.
    destruct (rows_for rs pid) as [|r' l]; [done|]. injection Hr as ->.
    apply list_elem_of_here.
  - intros (r & Hr%rows_for_elem). destruct (rows_for rs pid) as [|r' l].
    + by apply elem_of_nil in Hr.
    + by eexists.
Qed.

Lemma metadata_first_occurrence_witness :
  exists out,
    process three_rows 2 = Done out /\
    metadata_file out !! "p1"
    = Some {| entry_paper_id := "p1"; entry_title := "On sorting";
              entry_abstract := "We sort." |}.
Proof.
  destruct (process_total three_rows 2 three_rows_have_ids) as [out Hout]; [lia|].
  exists out. split; [exact Hout|].
  destruct (metadata_first_occurrence three_rows 2 out "p1" Hout) as (H & _).
  rewrite H. reflexivity.
Defined.

(** X23.  The data pipeline and the scorer together: a paper of the
    processed data is scored against the abstract of its first row or,
    when that is missing or empty, against the first row's title, be it
    empty; the placeholder "Unknown paper" is what a paper gets that
    the processed data does not have. *)
Theorem processed_context rs n out pid :
  process rs n = Done out ->
  paper_context (load_metadata (metadata_file out)) pid =
    match head (rows_for rs pid) with
    | Some r =>
        if bool_decide (default "" (r !! "abstract") = "")
        then default "" (r !! "title")
        else default "" (r !! "abstract")
    | None => "Unknown paper"
    end.
Proof.
  intros (md & bs & Hmd & _ & ->)%process_Done. simpl.
  apply metadata_loop_spec in Hmd as [_ Hmd].
  specialize (Hmd pid). rewrite lookup_empty in Hmd.
  unfold paper_context, load_metadata. rewrite lookup_fmap, Hmd.
  destruct (head (rows_for rs pid)) as [r|]; simpl; done.
Qed.

Lemma processed_context_witness :
  exists out,
    process three_rows 2 = Done out /\
    paper_context (load_metadata (metadata_file out)) "p1" = "We sort." /\
    paper_context (load_metadata (metadata_file out)) "p2" = "On hashing" /\
    paper_context (load_metadata (metadata_file out)) "p3" = "Unknown paper".
Proof.
  destruct (process_total three_rows 2 three_rows_have_ids) as [out Hout]; [lia|].
  exists out. split; [exact Hout|].
  rewrite !(processed_context three_rows 2 out _ Hout).
  split; [reflexivity|]. split; reflexivity.
Defined.

(** ** The miner's dataset *)

Lemma get_next_step ds r :
  reviews ds !! current_index ds = Some r ->
  get_next ds
  = Ok (Some r, {| reviews := reviews ds;
                   current_index :=
                     (current_index ds + 1) mod length (reviews ds) |}).
Proof.
  intros Hr. unfold get_next.
  destruct (reviews ds) as [|r0 l] eqn:E; [done|].
  unfold item. by rewrite Hr.
Qed.

Lemma get_next_n_spec k : forall ds,
  current_index ds < length (reviews ds) ->
  get_next_n k ds
  = Ok ((fun j => reviews ds !! ((current_index ds + j) mod length (reviews ds)))
          <$> seq 0 k,
        {| reviews := reviews ds;
           current_index := (current_index ds + k) mod length (reviews ds) |}).
Proof.
  induction k as [|k IH]; intros [rs c] Hc; simpl in *.
  - rewrite Nat.add_0_r, Nat.mod_small by done. done.
  - destruct (lookup_lt_is_Some_2 rs c Hc) as [r Hr].
    rewrite (get_next_step {| reviews := rs; current_index := c |} r Hr). simpl.
    rewrite IH; simpl; [|apply Nat.mod_upper_bound; lia].
    f_equal. f_equal.
    + f_equal.
      * by rewrite Nat.add_0_r, Nat.mod_small.
      * rewrite <- fmap_S_seq, <- list_fmap_compose. apply list_fmap_ext.
        intros i j _. simpl. f_equal.
        rewrite Nat.Div0.add_mod_idemp_l. f_equal. lia.
    + f_equal. rewrite Nat.Div0.add_mod_idemp_l. f_equal. lia.
Qed.

Lemma get_next_n_empty k ds :
  reviews ds = [] -> get_next_n k ds = Ok (replicate k None, ds).
Proof.
  intros E. induction k as [|k IH]; simpl; [done|].
  unfold get_next. rewrite E. simpl. rewrite IH. done.
Qed.

(** X24.  [get_next] goes round the rows: from a position inside the
    list, call number [j] (counting from 0) returns the row [j] places
    further on, wrapping round at the end, so after as many calls as
    there are rows each row was returned once and the dataset is where
    it started; the position stays inside the list, so no call raises.
    A dataset without rows returns [None] every time. *)
Theorem get_next_round_robin ds k :
  (reviews ds = [] -> get_next_n k ds = Ok (replicate k None, ds)) /\
  (current_index ds < length (reviews ds) ->
   exists ds',
     get_next_n k ds
     = Ok ((fun j =>
              reviews ds !! ((current_index ds + j) mod length (reviews ds)))
             <$> seq 0 k, ds') /\
     reviews ds' = reviews ds /\
     current_index ds'
     = (current_index ds + k) mod length (reviews ds) /\
     current_index ds' < length (reviews ds') /\
     (k = length (reviews ds) -> ds' = ds)).
Proof.
  split; [apply get_next_n_empty|].
  intros Hc. eexists. split; [by apply get_next_n_spec|]. simpl.
  split; [done|]. split; [done|].
  split; [apply Nat.mod_upper_bound; lia|].
  intros ->. destruct ds as [rs c]. simpl in *. f_equal.
  rewrite <- (Nat.mul_1_l (length rs)) at 1.
  rewrite Nat.Div0.mod_add. by apply Nat.mod_small.
Qed.

Lemma get_next_round_robin_witness :
  exists ds',
    get_next_n 4 (load_dataset (Some three_rows))
    = Ok ([Some row_a; Some row_b; Some row_c; Some row_a], ds') /\
    current_index ds' = 1.
Proof.
  destruct (get_next_round_robin (load_dataset (Some three_rows)) 4)
    as [_ H].
  destruct H as (ds' & H1 & _ & H2 & _); [simpl; lia|].
  exists ds'. split; [exact H1|exact H2].
Defined.

(** X25.  [get_review_for_paper] returns the first row about the paper
    and [None] when every row is about another paper; it raises
    [KeyError('paper_id')] exactly when a row without paper id comes
    before any row about the paper. *)
Theorem get_review_for_paper_outcomes ds pid :
  match get_review_for_paper ds pid with
  | Ok (Some r) =>
      exists before after,
        reviews ds = before ++ r :: after /\ r !! "paper_id" = Some pid /\
        Forall (other_paper pid) before
  | Ok None => Forall (other_paper pid) (reviews ds)
  | Raise e =>
      e = KeyError "paper_id" /\
      exists before r after,
        reviews ds = before ++ r :: after /\ r !! "paper_id" = None /\
        Forall (other_paper pid) before
  end.
Proof.
  unfold get_review_for_paper. generalize (reviews ds) as rs.
  induction rs as [|r rs IH]; simpl; [constructor|].
  unfold getitem. destruct (r !! "paper_id") as [p|] eqn:Hp; simpl.
  - case_decide as E.
    + subst p. exists [], rs. by repeat split.
    + assert (Ho : other_paper pid r) by (by exists p).
      destruct (find_review rs pid) as [[r'|]|e].
      * destruct IH as (before & after & -> & Hr & Hall).
        exists (r :: before), after. repeat split; [done|]. by constructor.
      * by constructor.
      * destruct IH as (-> & before & r' & after & -> & Hr & Hall).
        split; [done|]. exists (r :: before), r', after.
        repeat split; [done|]. by constructor.
  - split; [done|]. exists [], r, rs. by repeat split.
Qed.

(** ** The miner's [forward] *)

Lemma miner_forward_step ds r s :
  reviews ds !! current_index ds = Some r ->
  submission_of r = Some s ->
  Miner.forward ds blank
  = Ok (s, {| reviews := reviews ds;
              current_index :=
                (current_index ds + 1) mod length (reviews ds) |}).
Proof.
  intros Hr Hs. unfold Miner.forward. rewrite (get_next_step ds r Hr). simpl.
  unfold submission_of in Hs. unfold getitem.
  destruct (r !! "paper_id") as [p|]; simpl in *; [|done].
  by injection Hs as <-.
Qed.

Lemma forward_n_spec k : forall ds,
  current_index ds < length (reviews ds) ->
  Forall has_paper_id (reviews ds) ->
  exists ss ds',
    forward_n k ds = Ok (ss, ds') /\ length ss = k /\
    forall j, j < k ->
      is_Some (ss !! j) /\
      ss !! j
      = reviews ds !! ((current_index ds + j) mod length (reviews ds))
        ≫= submission_of.
Proof.
  induction k as [|k IH]; intros [rs c] Hc Hall; simpl in *.
  - exists [], {| reviews := rs; current_index := c |}.
    split; [done|]. split; [done|]. intros j Hj. lia.
  - destruct (lookup_lt_is_Some_2 rs c Hc) as [r Hr].
    assert (Hs : is_Some (submission_of r)).
    { rewrite Forall_forall in Hall. destruct (Hall r) as [p Hp].
      - by eapply list_elem_of_lookup_2.
      - unfold submission_of. rewrite Hp. simpl. by eexists. }
    destruct Hs as [s Hs].
    rewrite (miner_forward_step {| reviews := rs; current_index := c |} r s Hr Hs).
    simpl.
    destruct (IH {| reviews := rs; current_index := (c + 1) mod length rs |})
      as (ss & ds' & Hrun & Hlen & Hss); simpl.
    { apply Nat.mod_upper_bound. lia. }
    { done. }
    rewrite Hrun. simpl. exists (s :: ss), ds'.
    split; [done|]. split; [simpl; lia|].
    intros [|j] Hj; simpl.
    + rewrite Nat.add_0_r, Nat.mod_small by done. rewrite Hr. simpl.
      rewrite Hs. split; [by eexists|done].
    + destruct (Hss j) as [H1 H2]; [lia|]. split; [done|].
      rewrite H2. simpl. rewrite Nat.Div0.add_mod_idemp_l.
      do 3 f_equal. lia.
Qed.

Lemma dealt_elem N rs bs m b r :
  dealt N rs bs -> bs !! m = Some b -> r ∈ b -> r ∈ rs.
Proof.
  intros [Hlen Hall] Hb [k Hk]%list_elem_of_lookup.
  destruct (Hall m) as (b' & Hb' & Hl).
  { apply lookup_lt_Some in Hb. lia. }
  rewrite Hb in Hb'. injection Hb' as <-.
  rewrite Hl in Hk. by eapply list_elem_of_lookup_2.
Qed.

(** X26.  From the scraped rows to what a miner submits: the miner that
    loads file [m] of the processed data answers query number [j]
    (counting from 0) with the paper id and the review text of row
    [(j mod b) * num_miners + m] of the data, [b] being the number of
    rows in its file; a row without review text is submitted with the
    empty text.  No query raises, and every answer names a paper that
    the metadata file has an entry for. *)
Theorem miner_submissions rs n out m bucket k :
  process rs n = Done out ->
  miner_files out !! m = Some bucket -> bucket <> [] ->
  exists ss ds',
    forward_n k (load_dataset (Some bucket)) = Ok (ss, ds') /\
    length ss = k /\
    forall j, j < k ->
      exists r pid,
        rs !! ((j mod length bucket) * Z.to_nat n + m) = Some r /\
        r !! "paper_id" = Some pid /\
        ss !! j = Some {| paper_id := Some pid;
                          review_text := Some (default "" (r !! "review_text"));
                          review_score := None; final_score := None |} /\
        is_Some (metadata_file out !! pid).
Proof.
  intros Hp Hb Hne.
  pose proof (process_buckets _ _ _ Hp) as [Hd _].
  pose proof (process_returns_inv _ _ _ Hp) as [Hids _].
  assert (Hm : m < Z.to_nat n).
  { destruct Hd as [Hlen _]. apply lookup_lt_Some in Hb. lia. }
  assert (Hpos : 0 < length bucket) by (destruct bucket; [done|simpl; lia]).
  destruct (forward_n_spec k (load_dataset (Some bucket)))
    as (ss & ds' & Hrun & Hlen & Hss); simpl.
  { done. }
  { rewrite Forall_forall. intros r Hr. rewrite Forall_forall in Hids.
    apply Hids. by eapply dealt_elem. }
  exists ss, ds'. split; [done|]. split; [done|].
  intros j Hj. destruct (Hss j Hj) as [[s Hs] Heq]. simpl in Heq.
  rewrite Hs in Heq.
  destruct Hd as [_ Hall]. destruct (Hall m Hm) as (b' & Hb' & Hl).
  rewrite Hb in Hb'. injection Hb' as <-.
  rewrite Hl in Heq.
  destruct (rs !! (j mod length bucket * Z.to_nat n + m)) as [r|] eqn:Hr; [|done].
  simpl in Heq. unfold submission_of in Heq.
  destruct (r !! "paper_id") as [pid|] eqn:Hpid; [|done]. simpl in Heq.
  exists r, pid. split; [done|]. split; [done|]. split; [by rewrite Hs, Heq|].
  rewrite (process_metadata _ _ _ pid Hp). apply fmap_is_Some.
  assert (Hin : r ∈ rows_for rs pid).
  { apply rows_for_elem. split; [|done]. by eapply list_elem_of_lookup_2. }
  destruct (rows_for rs pid); [by apply elem_of_nil in Hin|by eexists].
Qed.

Lemma miner_submissions_witness :
  exists out bucket ss ds',
    process three_rows 2 = Done out /\
    miner_files out !! 0 = Some bucket /\
    forward_n 3 (load_dataset (Some bucket)) = Ok (ss, ds') /\
    length ss = 3.
Proof.
  destruct (process_total three_rows 2 three_rows_have_ids) as [out Hout]; [lia|].
  destruct (process_buckets _ _ _ Hout) as [[_ Hall] _].
  destruct (Hall 0) as (bucket & Hb & Hk); [simpl; lia|].
  destruct (miner_submissions three_rows 2 out 0 bucket 3 Hout Hb)
    as (ss & ds' & H1 & H2 & _).
  - intros ->. specialize (Hk 0). discriminate.
  - exists out, bucket, ss, ds'. split; [exact Hout|]. split; [exact Hb|].
    split; [exact H1|exact H2].
Defined.

(** ** The validator's [forward] *)



